(** * Audio chunking, PCM conversion and the streaming-session controller

    A shallow embedding of the core of the interview assistant:
    - [AudioChunker]: the [stdout.on('data')] handler of
      [startMacOSAudioCapture] (src/utils/gemini.js),
    - [Pcm]: [convertFloat32ToInt16] of the renderer,
    - [Session]: the module state of src/utils/gemini.js, in the two
      versions of the module that the file holds, with
      [initializeGeminiSession], its transport callbacks,
      [attemptReconnection], [sendReconnectionContext] and the
      [close-session] handler,
    - [StereoMono]: [convertStereoToMono] with the buffer reads and
      writes it makes,
    - [Ipc], [Manual], [Run]: the send handlers, the manually triggered
      response, and runs of the handlers of the main process,
    - [Interleaving]: the same handlers with their suspended calls as
      pending tasks under an arbitrary schedule,
    - [RendererAudio], [TokenTracker], [RendererProjects]: the renderer's
      audio chunking, its token tracker and its project lookup,
    - [Projects]: the registry of analyzed and active projects of the
      main process. *)

From Stdlib Require Import ZArith List Lia Bool String Ascii SpecFloat.
From Stdlib Require Import Strings.Byte.
From stdpp Require Import base list.
From Equations Require Import Equations.
Import ListNotations.

Local Open Scope Z_scope.

(** Keeps the equation of a scrutinee available in the branches of a
    [with] clause. *)
Definition inspect {A} (a : A) : {b : A | a = b} := exist _ a eq_refl.

(** ** The capture buffer and the chunk-extraction loop *)

Module AudioChunker.

(** A Node [Buffer] is a sequence of bytes. *)
Definition Buffer := list byte.

(** [adjustOffset] of Node's buffer module: negative offsets count from the
    end, and everything is clamped to [0, length]. *)
Definition adjustOffset (offset length : Z) : Z :=
  if offset =? 0 then 0
  else if offset <? 0 then
    (if 0 <? offset + length then offset + length else 0)
  else if offset <? length then offset
  else length.

(** [buf.slice(start, end)]; [end_ = None] is the call with one argument. *)
Definition slice (buf : Buffer) (start : Z) (end_ : option Z) : Buffer :=
  let srcLength := Z.of_nat (length buf) in
  let start' := adjustOffset start srcLength in
  let end' := match end_ with
              | Some e => adjustOffset e srcLength
              | None => srcLength
              end in
  let newLength := if start' <? end' then end' - start' else 0 in
  take (Z.to_nat newLength) (drop (Z.to_nat start') buf).

(** The constants of [startMacOSAudioCapture].  [CHUNK_DURATION] is the
    double 0.1; the product 96000 * 0.1 rounds to the double 9600 exactly,
    so the chunk size is written as the integer 96000 / 10. *)
Definition SAMPLE_RATE : Z := 24000.
Definition BYTES_PER_SAMPLE : Z := 2.
Definition CHANNELS : Z := 2.
Definition CHUNK_SIZE : Z := SAMPLE_RATE * BYTES_PER_SAMPLE * CHANNELS / 10.
Definition maxBufferSize : Z := SAMPLE_RATE * BYTES_PER_SAMPLE * 1.

#[local] Opaque slice.

(** The [while (audioBuffer.length >= CHUNK_SIZE)] loop: the chunks cut off,
    in the order they are handed to [sendAudioToGemini], and the buffer the
    loop leaves. *)
Equations extract_chunks (audioBuffer : Buffer) : list Buffer * Buffer
  by wf (length audioBuffer) lt :=
extract_chunks audioBuffer with inspect (CHUNK_SIZE <=? Z.of_nat (length audioBuffer)) := {
  | exist _ true Hge =>
      let chunk := slice audioBuffer 0 (Some CHUNK_SIZE) in
      let rest := extract_chunks (slice audioBuffer CHUNK_SIZE None) in
      (chunk :: fst rest, snd rest)
  | exist _ false _ => ([], audioBuffer) }.
Next Obligation.
  match goal with H : (_ <=? _) = true |- _ => apply Z.leb_le in H end.
  assert (CHUNK_SIZE = 9600) as Hc by reflexivity.
  with_strategy transparent [slice] (unfold slice, adjustOffset).
  rewrite length_take, length_drop.
  destruct (CHUNK_SIZE =? 0) eqn:E0; [apply Z.eqb_eq in E0; lia|].
  destruct (CHUNK_SIZE <? 0) eqn:E1; [apply Z.ltb_lt in E1; lia|].
  destruct (CHUNK_SIZE <? Z.of_nat (length audioBuffer)) eqn:E2; lia.
Qed.

#[local] Transparent slice.


(** The retention step after the loop. *)
Definition truncate (audioBuffer : Buffer) : Buffer :=
  if maxBufferSize <? Z.of_nat (length audioBuffer)
  then slice audioBuffer (- maxBufferSize) None
  else audioBuffer.

(** One ['data'] event: append, extract, truncate. *)
Definition on_data (audioBuffer data : Buffer) : list Buffer * Buffer :=
  let audioBuffer := audioBuffer ++ data in
  let r := extract_chunks audioBuffer in
  (fst r, truncate (snd r)).

(** A run of the handler over successive deliveries, starting from the
    buffer [audioBuffer]; the emitted chunks are collected in order. *)
Fixpoint ingest_all (audioBuffer : Buffer) (deliveries : list Buffer)
  : list Buffer * Buffer :=
  match deliveries with
  | [] => ([], audioBuffer)
  | d :: ds =>
      let r := on_data audioBuffer d in
      let r' := ingest_all (snd r) ds in
      (fst r ++ fst r', snd r')
  end.

(** [Buffer.alloc(0)], the buffer the capture starts with. *)
Definition empty_buffer : Buffer := [].

End AudioChunker.

(** ** JavaScript strings

    Strings are sequences of 8-bit code units; the operations below are the
    ones the session code applies to them. *)

Module Js.

Local Open Scope string_scope.

(** The newline of the template literals. *)
Definition LF : string := String "010"%char EmptyString.

(** A string is truthy when it is not empty. *)
Definition truthy (s : string) : bool := negb (String.eqb s "").

(** [hay.includes(needle)] *)
Fixpoint includes (hay needle : string) : bool :=
  String.prefix needle hay
  || match hay with
     | EmptyString => false
     | String _ rest => includes rest needle
     end.

(** White space and line terminators that [trim] removes, within the 8-bit
    range: TAB, LF, VT, FF, CR, SP and NBSP. *)
Definition isWhiteSpace (c : ascii) : bool :=
  let n := nat_of_ascii c in
  (Nat.leb 9 n && Nat.leb n 13) || Nat.eqb n 32 || Nat.eqb n 160.

Fixpoint trimStart (s : string) : string :=
  match s with
  | EmptyString => EmptyString
  | String c rest => if isWhiteSpace c then trimStart rest else s
  end.

Fixpoint trimEnd (s : string) : string :=
  match s with
  | EmptyString => EmptyString
  | String c rest =>
      let t := trimEnd rest in
      if isWhiteSpace c && negb (truthy t) then EmptyString else String c t
  end.

(** [s.trim()] *)
Definition trim (s : string) : string := trimEnd (trimStart s).

(** [xs.join(sep)] on an array of strings. *)
Definition join (xs : list string) (sep : string) : string :=
  String.concat sep xs.

End Js.

(** ** Float to 16-bit PCM conversion (renderer) *)

Module Pcm.

(** Numbers are IEEE 754 binary64 values. *)
Definition prec : Z := 53.
Definition emax : Z := 1024.
Definition double := spec_float.

(** The double of an integer literal. *)
Definition of_Z (z : Z) : double := binary_normalize prec emax z 0 false.

(** [m * 2^e] for a literal such as 1.5 = 3 * 2^-1. *)
Definition of_dyadic (m e : Z) : double := binary_normalize prec emax m e false.

(** [Math.min] and [Math.max] on two arguments: NaN if either is NaN, and
    -0 is smaller than +0. *)
Definition Math_min (a b : double) : double :=
  match SFcompare a b with
  | None => S754_nan
  | Some Lt => a
  | Some Gt => b
  | Some Eq => match a with S754_zero true => a | _ => b end
  end.

Definition Math_max (a b : double) : double :=
  match SFcompare a b with
  | None => S754_nan
  | Some Lt => b
  | Some Gt => a
  | Some Eq => match a with S754_zero false => a | _ => b end
  end.

(** The conversion applied when a number is stored into an [Int16Array]:
    NaN, zeros and infinities give 0; a finite value is truncated towards
    zero and reduced modulo 2^16 into [-2^15, 2^15). *)
Definition ToInt16 (d : double) : Z :=
  match d with
  | S754_finite s m e =>
      let magnitude :=
        if 0 <=? e then Z.pos m * 2 ^ e else Z.pos m / 2 ^ (- e) in
      let int := if s then - magnitude else magnitude in
      let int16bit := int mod 65536 in
      if 32768 <=? int16bit then int16bit - 65536 else int16bit
  | _ => 0
  end.

(** The body of the loop for one sample. *)
Definition convert_sample (x : double) : Z :=
  let s := Math_max (of_Z (-1)) (Math_min (of_Z 1) x) in
  ToInt16 (if SFltb s (of_Z 0)
           then SFmul prec emax s (of_Z 0x8000)
           else SFmul prec emax s (of_Z 0x7fff)).

(** [convertFloat32ToInt16]: a zero-filled [Int16Array] of the input's
    length, written at every index in turn. *)
Definition convertFloat32ToInt16 (float32Array : list double) : list Z :=
  let int16Array := replicate (length float32Array) 0 in
  fold_left
    (fun int16Array i =>
       match float32Array !! i with
       | Some x => <[i := convert_sample x]> int16Array
       | None => int16Array
       end)
    (seq 0 (length float32Array)) int16Array.

End Pcm.


(** ** The streaming session: module state, handlers, reconnection

    The main process runs on one event loop: a callback, or the stretch of
    an [async] function between two [await]s, runs to its end before
    anything else does.  Every such stretch is a function on the module
    state below.  [initializeGeminiSession] and [attemptReconnection] are
    given stretch by stretch, and also as whole calls, which are the runs
    in which nothing else is scheduled while they await.  What the module
    does to the outside is recorded in a trace; what it gets from the
    outside (the clock, the outcome of a handshake) comes from the
    environment. *)

Module Session.

Local Open Scope string_scope.
Local Open Scope list_scope.

Infix "+:+" := String.append (at level 60, right associativity).

(** A transport handle returned by [client.live.connect]. *)
Definition session := nat.

(** The parameters a session is started with, as stored in
    [lastSessionParams]. *)
Record SessionParams := mkParams {
  apiKey : string;
  customPrompt : string;
  profile : string;
  language : string }.

Record ConversationTurn := mkTurn {
  timestamp : Z;
  transcription : string;
  ai_response : string }.

(** What the module does to the outside: messages to the renderer, the
    timer an attempt of [attemptReconnection] sleeps on, the transport
    client and the transport handle.  The settings that [getEnabledTools]
    fetches from the renderer, with the wait of 100 ms before it, leave no
    event. *)
Inductive event :=
| UpdateStatus (status : string)
| UpdateResponse (response : string)
| SessionInitializing (flag : bool)
| SaveConversationTurn (sessionId : option Z) (turn : ConversationTurn)
    (fullHistory : list ConversationTurn)
| SetTimeout (ms : Z)
| NewClient (key : string)
| LiveConnect (params : SessionParams)
| SendRealtimeInputText (target : session) (text : string)
| TransportClose (target : session)
| StopAudioCapture.

(** The module-level variables of gemini.js (those of both versions of the
    file), the [global.geminiSessionRef] slot ([None]: not set up,
    [Some c]: the ref object with [current = c]), the trace of events and
    the number of clock readings and handshakes made so far. *)
Record state := mkState {
  currentSessionId : option Z;
  currentTranscription : string;
  conversationHistory : list ConversationTurn;
  isInitializingSession : bool;
  recentVoiceQuestion : string;
  voiceQuestionTimestamp : option Z;
  awaitingManualResponse : bool;
  messageBuffer : string;
  reconnectionAttempts : nat;
  lastSessionParams : option SessionParams;
  geminiSessionRef : option (option session);
  trace : list event;
  clockReads : nat;
  handshakes : nat }.

(** Field updates. *)
Definition set_currentSessionId (v : option Z) (s : state) : state :=
  match s with
  | mkState id tr hist init rvq vqt amr buf att par ref tc clk hs =>
      mkState v tr hist init rvq vqt amr buf att par ref tc clk hs
  end.

Definition set_currentTranscription (v : string) (s : state) : state :=
  match s with
  | mkState id tr hist init rvq vqt amr buf att par ref tc clk hs =>
      mkState id v hist init rvq vqt amr buf att par ref tc clk hs
  end.

Definition set_conversationHistory (v : list ConversationTurn)
    (s : state) : state :=
  match s with
  | mkState id tr hist init rvq vqt amr buf att par ref tc clk hs =>
      mkState id tr v init rvq vqt amr buf att par ref tc clk hs
  end.

Definition set_isInitializingSession (v : bool) (s : state) : state :=
  match s with
  | mkState id tr hist init rvq vqt amr buf att par ref tc clk hs =>
      mkState id tr hist v rvq vqt amr buf att par ref tc clk hs
  end.

Definition set_recentVoiceQuestion (v : string) (s : state) : state :=
  match s with
  | mkState id tr hist init rvq vqt amr buf att par ref tc clk hs =>
      mkState id tr hist init v vqt amr buf att par ref tc clk hs
  end.

Definition set_voiceQuestionTimestamp (v : option Z) (s : state) : state :=
  match s with
  | mkState id tr hist init rvq vqt amr buf att par ref tc clk hs =>
      mkState id tr hist init rvq v amr buf att par ref tc clk hs
  end.

Definition set_awaitingManualResponse (v : bool) (s : state) : state :=
  match s with
  | mkState id tr hist init rvq vqt amr buf att par ref tc clk hs =>
      mkState id tr hist init rvq vqt v buf att par ref tc clk hs
  end.

Definition set_messageBuffer (v : string) (s : state) : state :=
  match s with
  | mkState id tr hist init rvq vqt amr buf att par ref tc clk hs =>
      mkState id tr hist init rvq vqt amr v att par ref tc clk hs
  end.

Definition set_reconnectionAttempts (v : nat) (s : state) : state :=
  match s with
  | mkState id tr hist init rvq vqt amr buf att par ref tc clk hs =>
      mkState id tr hist init rvq vqt amr buf v par ref tc clk hs
  end.

Definition set_lastSessionParams (v : option SessionParams)
    (s : state) : state :=
  match s with
  | mkState id tr hist init rvq vqt amr buf att par ref tc clk hs =>
      mkState id tr hist init rvq vqt amr buf att v ref tc clk hs
  end.

Definition set_geminiSessionRef (v : option (option session))
    (s : state) : state :=
  match s with
  | mkState id tr hist init rvq vqt amr buf att par ref tc clk hs =>
      mkState id tr hist init rvq vqt amr buf att par v tc clk hs
  end.

Definition set_trace (v : list event) (s : state) : state :=
  match s with
  | mkState id tr hist init rvq vqt amr buf att par ref tc clk hs =>
      mkState id tr hist init rvq vqt amr buf att par ref v clk hs
  end.

Definition set_clockReads (v : nat) (s : state) : state :=
  match s with
  | mkState id tr hist init rvq vqt amr buf att par ref tc clk hs =>
      mkState id tr hist init rvq vqt amr buf att par ref tc v hs
  end.

Definition set_handshakes (v : nat) (s : state) : state :=
  match s with
  | mkState id tr hist init rvq vqt amr buf att par ref tc clk hs =>
      mkState id tr hist init rvq vqt amr buf att par ref tc clk v
  end.

Definition maxReconnectionAttempts : nat := 3.
Definition reconnectionDelay : Z := 2000.

Definition initial_state : state :=
  mkState None "" [] false "" None false "" 0 None None [] 0 0.

(** Inbound messages of the transport. *)
Record SpeakerResult := mkResult {
  transcript : option string;
  speakerId : option Z }.

Record Part := mkPart { text : option string }.

(** [message.serverContent]; a field is [None] when the optional chain
    that reads it yields [undefined]. *)
Record ServerContent := mkContent {
  inputTranscription_results : option (list SpeakerResult);
  modelTurn_parts : option (list Part);
  generationComplete : bool;
  turnComplete : bool }.

Record Message := mkMessage { serverContent : option ServerContent }.

(** How a call of [initializeGeminiSession] ends: it returns [false] when
    refused, [null] when the connection failed and the session otherwise,
    or it throws, which rejects the promise of the call. *)
Inductive InitResult :=
| InitRefused
| InitFailed
| InitSession (s : session)
| InitThrew.

(** gemini.js holds two versions of the module.  They differ in the
    message handler, in the manual trigger, which only the second has, and
    in what [initializeGeminiSession] hands to [getSystemPrompt]. *)
Inductive Version := FirstVersion | SecondVersion.

(** The fourth argument of [getSystemPrompt]: the first version passes
    [activeProjectsList], the array of the active projects' data; the
    second passes what [getProjectsContext] returns, which is the empty
    string on every path. *)
Inductive ProjectsContext :=
| ContextArray
| ContextString (text : string).

Definition projectsContext (version : Version) : ProjectsContext :=
  match version with
  | FirstVersion => ContextArray
  | SecondVersion => ContextString ""
  end.

(** [projectsContext && projectsContext.trim()] in [buildSystemPrompt] of
    prompts.js, which [getSystemPrompt] calls: [None] when it throws.  An
    array is truthy, also when it is empty, and has no [trim], so the call
    of [projectsContext.trim] throws a TypeError; nothing else in
    [getSystemPrompt] throws. *)
Definition projectsContext_given (context : ProjectsContext) : option bool :=
  match context with
  | ContextArray => None
  | ContextString text => Some (Js.truthy text && Js.truthy (Js.trim text))
  end.

Definition truthy_opt (o : option string) : bool :=
  match o with Some s => Js.truthy s | None => false end.

Definition formatSpeakerResults (results : list SpeakerResult) : string :=
  fold_left
    (fun text result =>
       match transcript result, speakerId result with
       | Some t, Some id =>
           if Js.truthy t && negb (id =? 0)%Z
           then
             let speakerLabel :=
               if (id =? 1)%Z then "Interviewer" else "Candidate" in
             text +:+ "[" +:+ speakerLabel +:+ "]: " +:+ t +:+ Js.LF
           else text
       | _, _ => text
       end)
    results "".

(** [e.message && (e.message.includes(...) || ...)], the same test on
    [e.reason] in [onclose]. *)
Definition isApiKeyError (msg : option string) : bool :=
  match msg with
  | Some m =>
      Js.truthy m
      && (Js.includes m "API key not valid"
          || Js.includes m "invalid API key"
          || Js.includes m "authentication failed"
          || Js.includes m "unauthorized")
  | None => false
  end.

(** String concatenation with a possibly undefined operand. *)
Definition String_of (o : option string) : string :=
  match o with Some s => s | None => "undefined" end.

Definition reconnectionContextHeader : string :=
  "Till now all these questions were asked in the interview, answer the last one please:"
  +:+ Js.LF +:+ Js.LF.

Section WithEnvironment.

(** The environment: the k-th reading of [Date.now()], and whether the k-th
    call of [client.live.connect] resolves with a session ([Some]) or
    rejects ([None]). *)
Variable Date_now : nat -> Z.
Variable live_connect : nat -> option session.

(** The version of the module that is run. *)
Variable version : Version.

Definition emit (e : event) (s : state) : state :=
  set_trace (trace s ++ [e]) s.

Definition read_clock (s : state) : Z * state :=
  (Date_now (clockReads s), set_clockReads (S (clockReads s)) s).

Definition initializeNewSession (s : state) : state :=
  let (now, s) := read_clock s in
  let s := set_currentSessionId (Some now) s in
  let s := set_currentTranscription "" s in
  set_conversationHistory [] s.

Definition saveConversationTurn (transcription aiResponse : string)
    (s : state) : state :=
  let s := match currentSessionId s with
           | None => initializeNewSession s
           | Some _ => s
           end in
  let (now, s) := read_clock s in
  let conversationTurn :=
    mkTurn now (Js.trim transcription) (Js.trim aiResponse) in
  let s := set_conversationHistory
             (conversationHistory s ++ [conversationTurn]) s in
  emit (SaveConversationTurn (currentSessionId s) conversationTurn
          (conversationHistory s)) s.

(** The transcriptions replayed after a reconnection. *)
Definition replayed_transcriptions (history : list ConversationTurn)
  : list string :=
  List.filter
    (fun t => Js.truthy t && Nat.ltb 0 (String.length (Js.trim t)))
    (map transcription history).

Definition sendReconnectionContext (s : state) : state :=
  match geminiSessionRef s with
  | Some (Some current) =>
      if Nat.eqb (length (conversationHistory s)) 0 then s
      else
        let transcriptions :=
          replayed_transcriptions (conversationHistory s) in
        if Nat.eqb (length transcriptions) 0 then s
        else
          let contextMessage :=
            reconnectionContextHeader +:+ Js.join transcriptions Js.LF in
          emit (SendRealtimeInputText current contextMessage) s
  | _ => s
  end.

(** *** [initializeGeminiSession], in the three stretches between which it
    awaits *)

(** Up to the first [await]: the guard, the flag, the stored parameters and
    the client.  [None] is the refused call, which returns [false]. *)
Definition initialize_enter (params : SessionParams) (isReconnection : bool)
    (s : state) : option state :=
  if isInitializingSession s then None
  else
    let s := set_isInitializingSession true s in
    let s := emit (SessionInitializing true) s in
    let s := if isReconnection then s
             else set_reconnectionAttempts 0
                    (set_lastSessionParams (Some params) s) in
    Some (emit (NewClient (apiKey params)) s).

(** After the tools have been fetched: [getSystemPrompt] is called, before
    the [try] block is entered.  [None] is the call that throws there:
    [initializeGeminiSession] rejects with the module as the first stretch
    left it, the flag still set.  Otherwise the new conversation of a
    fresh start, then the handshake (the prompt and the tools only shape
    its configuration).  A handshake that succeeds runs [onopen] before
    [connect] resolves. *)
Definition initialize_connect (params : SessionParams) (isReconnection : bool)
    (s : state) : option (option session * state) :=
  match projectsContext_given (projectsContext version) with
  | None => None
  | Some _ =>
      let s := if isReconnection then s else initializeNewSession s in
      let s := emit (LiveConnect params) s in
      let outcome := live_connect (handshakes s) in
      let s := set_handshakes (S (handshakes s)) s in
      match outcome with
      | Some session =>
          Some (Some session, emit (UpdateStatus "Live session connected") s)
      | None => Some (None, s)
      end
  end.

(** After [connect] settled: both the [try] and the [catch] branch. *)
Definition initialize_settle (outcome : option session) (s : state)
  : InitResult * state :=
  let s := set_isInitializingSession false s in
  let s := emit (SessionInitializing false) s in
  match outcome with
  | Some session => (InitSession session, s)
  | None => (InitFailed, s)
  end.

(** The whole call when nothing else runs while it awaits. *)
Definition initializeGeminiSession (params : SessionParams)
    (isReconnection : bool) (s : state) : InitResult * state :=
  match initialize_enter params isReconnection s with
  | None => (InitRefused, s)
  | Some s =>
      match initialize_connect params isReconnection s with
      | None => (InitThrew, s)
      | Some (outcome, s) => initialize_settle outcome s
      end
  end.

(** *** [attemptReconnection] *)

(** The guard at the top of an attempt. *)
Definition reconnection_refused (s : state) : bool :=
  match lastSessionParams s with
  | None => true
  | Some _ => Nat.leb maxReconnectionAttempts (reconnectionAttempts s)
  end.

(** From the increment to the timer an attempt sleeps on. *)
Definition reconnection_begin (s : state) : state :=
  let s := set_reconnectionAttempts (S (reconnectionAttempts s)) s in
  emit (SetTimeout reconnectionDelay) s.

(** What an attempt does with the session it got, before it returns
    [true]. *)
Definition reconnection_succeeded (session : session) (s : state) : state :=
  let s := set_geminiSessionRef (Some (Some session)) s in
  let s := set_reconnectionAttempts 0 s in
  sendReconnectionContext s.

(** The [try] block that runs when the timer fires.  Reading [.apiKey] of
    a cleared [lastSessionParams] throws, and so may the call of
    [initializeGeminiSession]; the [catch] only logs.  The result is
    [true] when the attempt returned [true]. *)
Definition reconnection_try (s : state) : bool * state :=
  match lastSessionParams s with
  | None => (false, s)
  | Some params =>
      let (result, s) := initializeGeminiSession params true s in
      match result, geminiSessionRef s with
      | InitSession session, Some _ =>
          (true, reconnection_succeeded session s)
      | _, _ => (false, s)
      end
  end.

#[local] Opaque reconnection_refused reconnection_begin reconnection_try emit.

Equations attemptReconnection (s : state) : bool * state
  by wf (maxReconnectionAttempts - reconnectionAttempts s)%nat lt :=
attemptReconnection s with inspect (reconnection_refused s) := {
  | exist _ true _ => (false, emit (UpdateStatus "Session closed") s)
  | exist _ false _
      with inspect (reconnection_try (reconnection_begin s)) := {
      | exist _ (true, s') _ => (true, s')
      | exist _ (false, s') _
          with inspect (Nat.ltb (reconnectionAttempts s')
                                maxReconnectionAttempts) := {
          | exist _ true _ => attemptReconnection s'
          | exist _ false _ =>
              (false, emit (UpdateStatus "Session closed") s') } } }.
Next Obligation.
  match goal with H : reconnection_refused _ = false |- _ =>
    with_strategy transparent [reconnection_refused]
      (unfold reconnection_refused in H);
    destruct (lastSessionParams s) eqn:Hp; [apply Nat.leb_gt in H|discriminate]
  end.
  assert (reconnectionAttempts s' = S (reconnectionAttempts s)) as ->; [|lia].
  match goal with H : reconnection_try _ = _ |- _ => revert H end.
  clear -Hp.
  destruct s as [id tr hist init rvq vqt amr buf att par ref tc clk hs].
  cbn in Hp. subst par.
  with_strategy transparent [reconnection_try reconnection_begin emit]
      (unfold reconnection_try, reconnection_succeeded,
         initializeGeminiSession, initialize_enter, initialize_connect,
         initialize_settle, reconnection_begin, emit;
       cbn).
  destruct init; cbn; [intros [= <-]; reflexivity|].
  destruct version; cbn; [intros [= <-]; reflexivity|].
  destruct (live_connect hs); cbn; [|intros [= <-]; reflexivity].
  destruct ref; cbn; [discriminate|intros [= <-]; reflexivity].
Qed.

#[local] Transparent reconnection_refused reconnection_begin reconnection_try
  emit.

(** What an attempt does once the timer it sleeps on has fired. *)
Definition attemptReconnection_resume (s : state) : bool * state :=
  let (ok, s) := reconnection_try s in
  if ok then (true, s)
  else if Nat.ltb (reconnectionAttempts s) maxReconnectionAttempts
       then attemptReconnection s
       else (false, emit (UpdateStatus "Session closed") s).

(** *** The transport callbacks *)

Definition onerror (message : option string) (s : state) : state :=
  if isApiKeyError message then
    let s := set_lastSessionParams None s in
    let s := set_reconnectionAttempts maxReconnectionAttempts s in
    emit (UpdateStatus "Error: Invalid API key") s
  else emit (UpdateStatus ("Error: " +:+ String_of message)) s.

(** [onclose]; the reconnection it starts is followed to its end. *)
Definition onclose (reason : option string) (s : state) : state :=
  if isApiKeyError reason then
    let s := set_lastSessionParams None s in
    let s := set_reconnectionAttempts maxReconnectionAttempts s in
    emit (UpdateStatus "Session closed: Invalid API key") s
  else
    match lastSessionParams s with
    | Some _ =>
        if Nat.ltb (reconnectionAttempts s) maxReconnectionAttempts
        then snd (attemptReconnection s)
        else emit (UpdateStatus "Session closed") s
    | None => emit (UpdateStatus "Session closed") s
    end.

(** The loop over [modelTurn.parts]. *)
Definition appendParts (parts : list Part) (s : state) : state :=
  fold_left
    (fun s part =>
       if truthy_opt (text part) then
         let s := set_messageBuffer
                    (messageBuffer s +:+ String_of (text part)) s in
         emit (UpdateResponse (messageBuffer s)) s
       else s)
    parts s.

(** The body of the [generationComplete] branch that both versions of the
    handler share. *)
Definition completeGeneration (s : state) : state :=
  let s := emit (UpdateResponse (messageBuffer s)) s in
  let s :=
    if Js.truthy (currentTranscription s) && Js.truthy (messageBuffer s)
    then
      let s := saveConversationTurn (currentTranscription s)
                 (messageBuffer s) s in
      set_currentTranscription "" s
    else s in
  set_messageBuffer "" s.

(** The part of [onmessage] that collects the fragments a message carries:
    the transcription results, then the text parts of the model turn. *)
Definition accumulate (content : ServerContent) (s : state) : state :=
  let s :=
    match inputTranscription_results content with
    | Some results =>
        set_currentTranscription
          (currentTranscription s +:+ formatSpeakerResults results) s
    | None => s
    end in
  match modelTurn_parts content with
  | Some parts => appendParts parts s
  | None => s
  end.

(** [onmessage] of the first version of the file. *)
Definition onmessage (message : Message) (s : state) : state :=
  match serverContent message with
  | None => s
  | Some content =>
      let s := accumulate content s in
      let s := if generationComplete content
               then completeGeneration s else s in
      if turnComplete content
      then emit (UpdateStatus "Listening...") s else s
  end.

(** The same part in the second version of the file: an interviewer line
    is remembered as the recent voice question, and model output is only
    taken while a manually triggered response is awaited. *)
Definition accumulate_manual (content : ServerContent) (s : state) : state :=
  let s :=
    match inputTranscription_results content with
    | Some results =>
        let newTranscription := formatSpeakerResults results in
        let s := set_currentTranscription
                   (currentTranscription s +:+ newTranscription) s in
        if Js.includes newTranscription "[Interviewer]:" then
          let s := set_recentVoiceQuestion (currentTranscription s) s in
          let (now, s) := read_clock s in
          let s := set_voiceQuestionTimestamp (Some now) s in
          set_awaitingManualResponse false s
        else s
    | None => s
    end in
  if awaitingManualResponse s then
    match modelTurn_parts content with
    | Some parts => appendParts parts s
    | None => s
    end
  else s.

(** [onmessage] of the second version of the file. *)
Definition onmessage_manual (message : Message) (s : state) : state :=
  match serverContent message with
  | None => s
  | Some content =>
      let s := accumulate_manual content s in
      let s :=
        if awaitingManualResponse s && generationComplete content
        then set_awaitingManualResponse false (completeGeneration s)
        else s in
      if turnComplete content
      then emit (UpdateStatus "Listening...") s else s
  end.

(** *** IPC handlers *)

(** [setupGeminiIpcHandlers] publishes the ref object it is given. *)
Definition setupGeminiIpcHandlers (current : option session) (s : state)
  : state :=
  set_geminiSessionRef (Some current) s.

(** The ['initialize-gemini'] handler: a fresh start.  The handler has no
    [try]: when [initializeGeminiSession] throws, so does the handler, and
    the renderer's [invoke] rejects ([None]). *)
Definition ipc_initialize_gemini (params : SessionParams) (s : state)
  : option bool * state :=
  let (result, s) := initializeGeminiSession params false s in
  match result with
  | InitSession session =>
      (Some true, set_geminiSessionRef (Some (Some session)) s)
  | InitThrew => (None, s)
  | _ => (Some false, s)
  end.

(** The ['close-session'] handler. *)
Definition ipc_close_session (s : state) : state :=
  let s := emit StopAudioCapture s in
  let s := set_lastSessionParams None s in
  match geminiSessionRef s with
  | Some (Some current) =>
      let s := emit (TransportClose current) s in
      set_geminiSessionRef (Some None) s
  | _ => s
  end.

End WithEnvironment.
End Session.

(** ** Reading a trace *)

Module Trace.
Import Session.

(** The handshakes ([client.live.connect] calls) in a trace. *)
Definition handshakes_in (t : list event) : list SessionParams :=
  omap (fun e => match e with LiveConnect p => Some p | _ => None end) t.

(** The clients created in a trace. *)
Definition clients_in (t : list event) : list string :=
  omap (fun e => match e with NewClient k => Some k | _ => None end) t.

(** The text frames sent in a trace. *)
Definition text_frames_in (t : list event) : list (session * string) :=
  omap (fun e => match e with
                 | SendRealtimeInputText c m => Some (c, m)
                 | _ => None
                 end) t.

End Trace.

(** ** Vocabulary for stating what the controller does *)

Module SessionSpec.
Import Session.

Local Open Scope string_scope.
Local Open Scope list_scope.

(** The phrases [onerror] and [onclose] look for. *)
Definition auth_failure_phrases : list string :=
  ["API key not valid"; "invalid API key"; "authentication failed";
   "unauthorized"].

(** The events of an initialization that fails after it has passed the
    guard.  In the first version it throws at [getSystemPrompt], before any
    handshake, and never announces its end; in the second its handshake is
    rejected. *)
Definition failed_initialization (version : Version) (p : SessionParams)
  : list event :=
  match version with
  | FirstVersion => [SessionInitializing true; NewClient (apiKey p)]
  | SecondVersion =>
      [SessionInitializing true; NewClient (apiKey p); LiveConnect p;
       SessionInitializing false]
  end.

(** The flag is left set by an initialization of the first version. *)
Definition leaves_flag_set (version : Version) : bool :=
  match version with FirstVersion => true | SecondVersion => false end.

(** The handshakes one initialization that passed the guard issues. *)
Definition handshakes_per_attempt (version : Version) : nat :=
  match version with FirstVersion => 0 | SecondVersion => 1 end.

(** The events of one attempt that fails: the timer, and then either
    nothing more, when another initialization is in progress ([busy]) and
    the attempt's own is refused, or an initialization that fails. *)
Definition failed_attempt (version : Version) (busy : bool)
    (p : SessionParams) : list event :=
  SetTimeout reconnectionDelay
  :: if busy then [] else failed_initialization version p.

(** The state such an attempt leaves. *)
Definition after_failed_attempt (version : Version) (p : SessionParams)
    (s : state) : state :=
  let busy := isInitializingSession s in
  set_handshakes
    (if busy || leaves_flag_set version then handshakes s
     else S (handshakes s))
    (set_trace (trace s ++ failed_attempt version busy p)
       (set_reconnectionAttempts (S (reconnectionAttempts s))
          (set_isInitializingSession (busy || leaves_flag_set version) s))).

(** The state after the timer of an attempt and an initialization of the
    second version whose handshake was accepted. *)
Definition connected_attempt (p : SessionParams) (s : state) : state :=
  set_handshakes (S (handshakes s))
    (set_trace
       (trace s
        ++ [SetTimeout reconnectionDelay; SessionInitializing true;
            NewClient (apiKey p); LiveConnect p;
            UpdateStatus "Live session connected";
            SessionInitializing false])
       (set_reconnectionAttempts (S (reconnectionAttempts s)) s)).

(** The frame that replays a conversation to a session: the header, an
    empty line, and the transcriptions of the turns that are not blank
    after trimming, one per line; no frame when there is none. *)
Definition replayed_frame (target : session)
    (history : list ConversationTurn) : list event :=
  match
    List.filter (fun t => negb (String.eqb (Js.trim t) ""))
      (map transcription history)
  with
  | [] => []
  | questions =>
      [SendRealtimeInputText target
         ("Till now all these questions were asked in the interview, answer the last one please:"
          +:+ Js.LF +:+ Js.LF +:+ Js.join questions Js.LF)]
  end.

(** The state both callbacks leave on an authentication failure, up to the
    status they show. *)
Definition locked_out (status : string) (s : state) : state :=
  emit (UpdateStatus status)
    (set_reconnectionAttempts maxReconnectionAttempts
       (set_lastSessionParams None s)).

Section WithClock.

Variable Date_now : nat -> Z.

(** The turn [saveConversationTurn] builds from the pending buffers; the
    clock is read once more first when no conversation is current. *)
Definition saved_turn (pending : state) : ConversationTurn :=
  mkTurn
    (Date_now (match currentSessionId pending with
               | Some _ => clockReads pending
               | None => S (clockReads pending)
               end))
    (Js.trim (currentTranscription pending))
    (Js.trim (messageBuffer pending)).

(** What a [generationComplete] message does to the buffers and the
    history, from the state [pending] in which its fragments have been
    collected to the state [after] the handler: the response buffer is
    emptied in every case; with both buffers non-empty one turn is appended
    (to the history of a conversation started on the spot when none is
    current) and the transcription is emptied; otherwise the history and
    the transcription stay. *)
Definition completion_outcome (pending after : state) : Prop :=
  messageBuffer after = ""
  /\ if Js.truthy (currentTranscription pending)
        && Js.truthy (messageBuffer pending)
     then conversationHistory after
          = match currentSessionId pending with
            | Some _ => conversationHistory pending
            | None => []
            end ++ [saved_turn pending]
          /\ currentTranscription after = ""
     else conversationHistory after = conversationHistory pending
          /\ currentTranscription after = currentTranscription pending.

End WithClock.
End SessionSpec.

(** ** Concrete environments and states *)

Module Examples.
Import Session.

Local Open Scope string_scope.
Local Open Scope list_scope.

Definition clock0 : nat -> Z := fun _ => 1700000000000.
Definition rejecting : nat -> option session := fun _ => None.
Definition accepting : nat -> option session := fun k => Some (S k).
Definition params0 : SessionParams :=
  mkParams "key" "" "interview" "en-US".

(** A session that was started with [params0] and is up. *)
Definition running : state :=
  set_geminiSessionRef (Some (Some 0%nat))
    (set_currentSessionId (Some 1700000000000)
       (set_lastSessionParams (Some params0) initial_state)).

(** Two completed turns and one with a blank transcription. *)
Definition talked : state :=
  set_conversationHistory
    [mkTurn 1 "[Interviewer]: Why Rust?" "Memory safety.";
     mkTurn 2 "  " "Noise.";
     mkTurn 3 "[Interviewer]: And Go?" "Simplicity."]
    running.

End Examples.

(** ** Checking a property on a range of integers *)

Module Exhaustive.

(** A check of a decidable property on [count] consecutive integers. *)
Fixpoint holds_from (count : nat) (z : Z) (f : Z -> bool) : bool :=
  match count with
  | O => true
  | S count => f z && holds_from count (z + 1) f
  end.

Definition option_Z_eqb (a b : option Z) : bool :=
  match a, b with
  | Some x, Some y => x =? y
  | None, None => true
  | _, _ => false
  end.

End Exhaustive.

(** ** Stereo to mono: [convertStereoToMono] and the chunks it is given *)

Module StereoMono.
Import AudioChunker.

(** The number a byte of a buffer reads as, and the byte a number is
    stored as (a [Uint8Array] store keeps the value modulo 256). *)
Definition byte_value (b : byte) : Z := Z.of_N (Byte.to_N b).

Definition byte_of (z : Z) : byte :=
  match Byte.of_N (Z.to_N (z mod 256)) with
  | Some b => b
  | None => x00
  end.

(** The 32-bit integer of a number, and [a | b]. *)
Definition ToInt32 (z : Z) : Z := (z + 2 ^ 31) mod 2 ^ 32 - 2 ^ 31.

Definition bitor (a b : Z) : Z :=
  ToInt32 (Z.lor (ToInt32 a) (ToInt32 b)).

(** [Buffer.alloc(size)]: [size] zero bytes. *)
Definition Buffer_alloc (size : nat) : Buffer := replicate size x00.

(** [buf.readInt16LE(offset)]; [None] is the [RangeError] thrown when one
    of the two bytes lies outside the buffer. *)
Definition readInt16LE (buf : Buffer) (offset : nat) : option Z :=
  match buf !! offset, buf !! S offset with
  | Some first, Some last =>
      let val := byte_value first + byte_value last * 2 ^ 8 in
      Some (bitor val (Z.land val (2 ^ 15) * 0x1fffe))
  | _, _ => None
  end.

(** [buf.writeInt16LE(value, offset)]; [None] is the [RangeError] thrown
    when the value is not a 16-bit integer or one of the two bytes lies
    outside the buffer.  The second byte stored is [value >>> 8]. *)
Definition writeInt16LE (buf : Buffer) (value : Z) (offset : nat)
  : option Buffer :=
  if (0x7fff <? value) || (value <? - 0x8000) then None
  else
    match buf !! offset, buf !! S offset with
    | Some _, Some _ =>
        Some (<[S offset := byte_of (Z.shiftr (value mod 2 ^ 32) 8)]>
                (<[offset := byte_of value]> buf))
    | _, _ => None
    end.

(** The body of the [for] loop, run [count] times from index [i]. *)
Fixpoint downmix_loop (count i : nat) (stereoBuffer monoBuffer : Buffer)
  : option Buffer :=
  match count with
  | O => Some monoBuffer
  | S count =>
      match readInt16LE stereoBuffer (i * 4) with
      | None => None
      | Some leftSample =>
          match writeInt16LE monoBuffer leftSample (i * 2) with
          | None => None
          | Some monoBuffer =>
              downmix_loop count (S i) stereoBuffer monoBuffer
          end
      end
  end.

(** [convertStereoToMono].  [samples] is the quotient [length / 4], not
    rounded: the mono buffer has [samples * 2] bytes, rounded down by the
    allocation, and the loop runs for every index [i] with [i < samples],
    that is [(length + 3) / 4] times.  [None]: a read or a write threw. *)
Definition convertStereoToMono (stereoBuffer : Buffer) : option Buffer :=
  let monoBuffer := Buffer_alloc (length stereoBuffer / 2) in
  downmix_loop ((length stereoBuffer + 3) / 4) 0 stereoBuffer monoBuffer.

(** What the ['data'] handler does with the chunks it cuts off: each is
    converted ([CHANNELS] is 2), and the handler goes on only if the
    conversion returned. *)
Fixpoint downmix_all (chunks : list Buffer) : option (list Buffer) :=
  match chunks with
  | [] => Some []
  | chunk :: chunks =>
      match convertStereoToMono chunk with
      | None => None
      | Some monoChunk =>
          match downmix_all chunks with
          | None => None
          | Some monoChunks => Some (monoChunk :: monoChunks)
          end
      end
  end.

End StereoMono.

(** ** The send handlers, the manual trigger, and runs of the module *)

Module Ipc.
Import Session.

Local Open Scope string_scope.
Local Open Scope list_scope.

(** An argument that arrives over IPC, as far as the handlers tell values
    apart: a string, or a value that is not a string and is falsy
    ([undefined], [null], 0, ...) or truthy (an object, a number, ...). *)
Inductive js_arg :=
| ArgString (s : string)
| ArgFalsy
| ArgTruthy.

(** What a handler hands to [sendRealtimeInput]. *)
Inductive frame :=
| MediaFrame (data mimeType : string)
| TextFrame (text : string).

(** The object a handler returns. *)
Record IpcResult := mkIpcResult {
  success : bool;
  error : option string }.

Definition ok : IpcResult := mkIpcResult true None.
Definition failed (message : string) : IpcResult :=
  mkIpcResult false (Some message).

(** [sendRealtimeInput] on the attached session: the frame is handed over,
    and the call either returns or throws an error with a message
    ([send_error]). *)
Definition send (frame_ : frame) (send_error : option string)
  : IpcResult * list frame :=
  match send_error with
  | None => (ok, [frame_])
  | Some message => (failed message, [frame_])
  end.

Section WithDecoder.

(** The number of bytes of [Buffer.from(data, 'base64')]. *)
Variable base64_length : string -> nat.

(** ['send-image-content'] *)
Definition ipc_send_image_content (current : option session)
    (data : js_arg) (send_error : option string)
  : IpcResult * list frame :=
  match current with
  | None => (failed "No active Gemini session", [])
  | Some _ =>
      match data with
      | ArgString data =>
          if negb (Js.truthy data) then (failed "Invalid image data", [])
          else if Nat.ltb (base64_length data) 1000
               then (failed "Image buffer too small", [])
               else send (MediaFrame data "image/jpeg") send_error
      | _ => (failed "Invalid image data", [])
      end
  end.

End WithDecoder.

(** ['send-text-message'], second version of the file. *)
Definition ipc_send_text_message (current : option session)
    (text : js_arg) (send_error : option string)
  : IpcResult * list frame :=
  match current with
  | None => (failed "No active Gemini session", [])
  | Some _ =>
      match text with
      | ArgString text =>
          if negb (Js.truthy text)
             || Nat.eqb (String.length (Js.trim text)) 0
          then (failed "Invalid text message", [])
          else send (TextFrame (Js.trim text)) send_error
      | _ => (failed "Invalid text message", [])
      end
  end.

(** [sendTextMessage] of the renderer, which forwards to the handler
    above; an error of the invocation itself is not modelled. *)
Definition sendTextMessage (current : option session) (text : string)
    (send_error : option string) : IpcResult * list frame :=
  if negb (Js.truthy text) || Nat.eqb (String.length (Js.trim text)) 0
  then (failed "Empty message", [])
  else ipc_send_text_message current (ArgString text) send_error.

End Ipc.

(** ** The manually triggered response (second version of the file) *)

Module Manual.
Import Session Ipc.

Local Open Scope string_scope.
Local Open Scope list_scope.

(** [c.toLowerCase()] on a code unit of the 8-bit range: the letters A-Z
    and the capital letters of Latin-1 (0xC0 - 0xDE without the
    multiplication sign 0xD7) move up by 32. *)
Definition lower_char (c : ascii) : ascii :=
  let n := nat_of_ascii c in
  if (Nat.leb 65 n && Nat.leb n 90)
     || (Nat.leb 192 n && Nat.leb n 222 && negb (Nat.eqb n 215))
  then ascii_of_nat (n + 32)
  else c.

Fixpoint toLowerCase (s : string) : string :=
  match s with
  | EmptyString => EmptyString
  | String c rest => String (lower_char c) (toLowerCase rest)
  end.

Definition projectKeywords : list string :=
  ["project"; "projects"; "built"; "developed"; "created"; "worked on";
   "tell me about"; "describe"; "explain"; "walk me through";
   "experience with"; "portfolio"; "github"; "repository";
   "what have you made"; "what did you build"; "show me";
   "technical"; "coding"; "programming"; "development";
   "contentpulse"; "sentiment analysis"; "nlp"; "ai project"].

(** [detectProjectQuestion] on a string. *)
Definition detectProjectQuestion (question : string) : bool :=
  if negb (Js.truthy question) then false
  else
    let lowerQuestion := toLowerCase question in
    existsb (fun keyword => Js.includes lowerQuestion (toLowerCase keyword))
      projectKeywords.

Inductive ResponseType :=
| ProjectVoice
| Voice
| Mixed
| Screenshot
| General.

Definition voicePrompt (question : string) : string :=
  "Recent interview question: " +:+ question +:+ Js.LF +:+ Js.LF
  +:+ "Please provide a helpful answer to this interview question.".

Definition projectVoicePrompt (question projectsContext : string) : string :=
  "Recent interview question: " +:+ question +:+ Js.LF +:+ Js.LF
  +:+ projectsContext +:+ Js.LF +:+ Js.LF
  +:+ "Please provide a detailed answer about my project(s) based on the information above.".

Definition mixedPrompt (question : string) : string :=
  "Recent interview question: " +:+ question +:+ Js.LF +:+ Js.LF
  +:+ "Also analyze the current screenshot and provide the most relevant response. If the screen shows related content, incorporate it into your answer.".

Definition screenshotPrompt : string :=
  "Help me on this page, give me the answer no bs, complete answer."
  +:+ Js.LF
  +:+ "So if its a code question, give me the approach in few bullet points, then the entire code. Also if theres anything else i need to know, tell me."
  +:+ Js.LF
  +:+ "If its a question about the website, give me the answer no bs, complete answer."
  +:+ Js.LF
  +:+ "If its a mcq question, give me the answer no bs, complete answer.".

Definition generalPrompt : string :=
  "Please provide assistance based on the current context.".

Section WithEnvironment.

Variable Date_now : nat -> Z.

(** What the renderer answers when asked for the projects context of a
    question (the empty string when it cannot be asked). *)
Variable projects_context : string -> string.

(** The age of the recent voice question: [None] is [Infinity], when there
    is no question or no timestamp; the clock is read otherwise. *)
Definition voiceAge (s : state) : option Z * state :=
  match voiceQuestionTimestamp s with
  | Some stamp =>
      if Js.truthy (recentVoiceQuestion s) && negb (stamp =? 0)%Z
      then let (now, s) := read_clock Date_now s in (Some (now - stamp)%Z, s)
      else (None, s)
  | None => (None, s)
  end.

(** The choice of the prompt and its kind. *)
Definition choosePrompt (age : option Z) (hasScreenshotContext : bool)
    (question : string) : ResponseType * string :=
  let isVoiceRecent :=
    match age with Some a => (a <? 30000)%Z | None => false end in
  let hasProjectQuestion :=
    isVoiceRecent && detectProjectQuestion question in
  let projectsContext :=
    if hasProjectQuestion then projects_context question else "" in
  let veryRecent :=
    match age with Some a => (a <? 10000)%Z | None => false end in
  if isVoiceRecent && hasScreenshotContext then
    if veryRecent then
      if hasProjectQuestion
      then (ProjectVoice, projectVoicePrompt question projectsContext)
      else (Voice, voicePrompt question)
    else (Mixed, mixedPrompt question)
  else if isVoiceRecent then
    if hasProjectQuestion
    then (ProjectVoice, projectVoicePrompt question projectsContext)
    else (Voice, voicePrompt question)
  else if hasScreenshotContext then (Screenshot, screenshotPrompt)
  else (General, generalPrompt).

(** ['trigger-smart-response']; the result carries the response type when
    the call succeeded. *)
Definition ipc_trigger_smart_response (hasScreenshotContext : bool)
    (send_error : option string) (s : state)
  : IpcResult * option ResponseType * state :=
  match geminiSessionRef s with
  | Some (Some current) =>
      let (age, s) := voiceAge s in
      let (responseType, contextPrompt) :=
        choosePrompt age hasScreenshotContext (recentVoiceQuestion s) in
      let s := set_awaitingManualResponse true s in
      let s := emit (SendRealtimeInputText current contextPrompt) s in
      match send_error with
      | None => (ok, Some responseType, s)
      | Some message =>
          (failed message, None, set_awaitingManualResponse false s)
      end
  | _ => (failed "No active Gemini session", None, s)
  end.

End WithEnvironment.
End Manual.

(** ** Runs of the module *)

Module Run.
Import Session Ipc Manual.

(** What can happen to the main process: a callback of the transport, or a
    request of the renderer. *)
Inductive input :=
| InError (message : option string)
| InClose (reason : option string)
| InMessage (message : Message)
| InStart (params : SessionParams)
| InCloseSession
| InNewSession
| InTrigger (hasScreenshotContext : bool) (send_error : option string).

(** [manual] selects the second version of the file, the only one with
    the manual trigger. *)
Definition version_of (manual : bool) : Version :=
  if manual then SecondVersion else FirstVersion.

(** A request to start a session. *)
Definition starts (i : input) : bool :=
  match i with InStart _ => true | _ => false end.

Section WithEnvironment.

Variable Date_now : nat -> Z.
Variable live_connect : nat -> option session.
Variable projects_context : string -> string.

(** One input handled to its end, in the version that [manual] selects. *)
Definition step (manual : bool) (i : input) (s : state) : state :=
  match i with
  | InError message => onerror message s
  | InClose reason =>
      onclose Date_now live_connect (version_of manual) reason s
  | InMessage message =>
      if manual then onmessage_manual Date_now message s
      else onmessage Date_now message s
  | InStart params =>
      snd (ipc_initialize_gemini Date_now live_connect (version_of manual)
             params s)
  | InCloseSession => ipc_close_session s
  | InNewSession => initializeNewSession Date_now s
  | InTrigger hasScreenshotContext send_error =>
      if manual
      then snd (ipc_trigger_smart_response Date_now projects_context
                  hasScreenshotContext send_error s)
      else s
  end.

(** The inputs of a run, handled one after the other. *)
Definition run (manual : bool) (inputs : list input) (s : state) : state :=
  fold_left (fun s i => step manual i s) inputs s.

(** The module once [setupGeminiIpcHandlers] has run. *)
Definition started : state := setupGeminiIpcHandlers None initial_state.

End WithEnvironment.

(** The timers armed in a trace. *)
Definition timers_in (t : list event) : list Z :=
  omap (fun e => match e with SetTimeout ms => Some ms | _ => None end) t.

(** The conversation and the stored parameters are the same in two
    states. *)
Definition same_conversation (s s' : state) : Prop :=
  currentSessionId s' = currentSessionId s
  /\ currentTranscription s' = currentTranscription s
  /\ conversationHistory s' = conversationHistory s
  /\ messageBuffer s' = messageBuffer s
  /\ recentVoiceQuestion s' = recentVoiceQuestion s
  /\ voiceQuestionTimestamp s' = voiceQuestionTimestamp s
  /\ awaitingManualResponse s' = awaitingManualResponse s
  /\ lastSessionParams s' = lastSessionParams s.

(** A string that starts with an opening bracket, as every line of
    [formatSpeakerResults] does. *)
Definition bracketed (t : string) : bool :=
  match t with
  | String c _ => Ascii.eqb c "["%char
  | EmptyString => false
  end.

(** What holds of the module between two inputs of a run, in the version
    that [manual] selects and with [started_before] telling whether a
    start was requested earlier in the run.  The count of reconnection
    attempts is within its maximum, the ref object is published, and the
    transcriptions, the pending one and those of the saved turns, are made
    of speaker lines.  In the second version no initialization is in
    flight.  In the first the flag is set from the first start request
    on, parameters are only stored with the flag set, no handshake has
    been made and no session is stored. *)
Definition settled (manual started_before : bool) (s : state) : Prop :=
  (reconnectionAttempts s <= maxReconnectionAttempts)%nat
  /\ (if manual then isInitializingSession s = false
      else isInitializingSession s = started_before
           /\ (lastSessionParams s = None
               \/ isInitializingSession s = true)
           /\ handshakes s = 0%nat
           /\ geminiSessionRef s = Some None)
  /\ geminiSessionRef s <> None
  /\ (currentTranscription s = EmptyString
      \/ bracketed (currentTranscription s) = true)
  /\ Forall (fun turn => bracketed (transcription turn) = true)
       (conversationHistory s).

(** The texts of the parts that [appendParts] takes. *)
Definition texts_of (parts : list Part) : list string :=
  omap (fun part => if truthy_opt (text part) then text part else None) parts.

(** The response buffer after each of the texts appended to it. *)
Fixpoint growing (buffer : string) (texts : list string) : list string :=
  match texts with
  | [] => []
  | t :: texts => (buffer +:+ t) :: growing (buffer +:+ t) texts
  end.

(** A transcription result that [formatSpeakerResults] turns into a line. *)
Definition spoken (result : SpeakerResult) : bool :=
  match transcript result, speakerId result with
  | Some t, Some id => Js.truthy t && negb (id =? 0)%Z
  | _, _ => false
  end.

(** Speech of speaker 1, which [formatSpeakerResults] labels as the
    interviewer's. *)
Definition from_interviewer (result : SpeakerResult) : bool :=
  spoken result
  && match speakerId result with
     | Some id => (id =? 1)%Z
     | None => false
     end.

End Run.

(** ** The renderer's audio chunking (Linux and Windows capture) *)

Module RendererAudio.
Import Pcm.

Definition SAMPLE_RATE : Z := 24000.

(** The literal 0.1: the double nearest to one tenth, which is the
    correctly rounded quotient of 1 by 10. *)
Definition AUDIO_CHUNK_DURATION : double := SFdiv prec emax (of_Z 1) (of_Z 10).

Definition BUFFER_SIZE : Z := 4096.

(** [SAMPLE_RATE * AUDIO_CHUNK_DURATION] as the double it is computed to,
    and as the whole number it is (see [chunk_sizes_are_whole]) and is
    used as, in the comparison with a length and as a count of elements. *)
Definition samplesPerChunk_number : double :=
  SFmul prec emax (of_Z SAMPLE_RATE) AUDIO_CHUNK_DURATION.

Definition samplesPerChunk : Z := SAMPLE_RATE / 10.

(** [CHUNK_SIZE] of the main process as the double it is computed to. *)
Definition CHUNK_SIZE_number : double :=
  SFmul prec emax
    (SFmul prec emax
       (SFmul prec emax (of_Z AudioChunker.SAMPLE_RATE)
          (of_Z AudioChunker.BYTES_PER_SAMPLE))
       (of_Z AudioChunker.CHANNELS))
    AUDIO_CHUNK_DURATION.

(** [array.splice(0, deleteCount)]: the elements removed and the array as
    it is left. *)
Definition splice {A} (array : list A) (deleteCount : Z) : list A * list A :=
  let actualDeleteCount :=
    Z.min (Z.max deleteCount 0) (Z.of_nat (length array)) in
  (take (Z.to_nat actualDeleteCount) array,
   drop (Z.to_nat actualDeleteCount) array).

#[local] Opaque splice.

(** The [while (audioBuffer.length >= samplesPerChunk)] loop of the three
    processing set-ups: the chunks spliced off, in order, and the buffer
    the loop leaves. *)
Equations drain (audioBuffer : list double) : list (list double) * list double
  by wf (length audioBuffer) lt :=
drain audioBuffer
  with inspect (samplesPerChunk <=? Z.of_nat (length audioBuffer)) := {
  | exist _ true _ =>
      let chunk := fst (splice audioBuffer samplesPerChunk) in
      let rest := drain (snd (splice audioBuffer samplesPerChunk)) in
      (chunk :: fst rest, snd rest)
  | exist _ false _ => ([], audioBuffer) }.
Next Obligation.
  match goal with H : (_ <=? _) = true |- _ => apply Z.leb_le in H end.
  assert (samplesPerChunk = 2400) as Hc by reflexivity.
  with_strategy transparent [splice] (unfold splice). cbn [snd].
  rewrite length_drop. lia.
Qed.

#[local] Transparent splice.

(** One [onaudioprocess] event that runs to its end: the samples are
    pushed, and every chunk spliced off is converted and sent; the result
    is the payloads sent, in order, and the buffer left. *)
Definition onaudioprocess (audioBuffer inputData : list double)
  : list (list Z) * list double :=
  let audioBuffer := audioBuffer ++ inputData in
  let r := drain audioBuffer in
  (map convertFloat32ToInt16 (fst r), snd r).

(** The events of a capture, one after the other, from the empty buffer
    the set-up starts with. *)
Fixpoint process_all (audioBuffer : list double)
    (events : list (list double)) : list (list Z) * list double :=
  match events with
  | [] => ([], audioBuffer)
  | inputData :: events =>
      let r := onaudioprocess audioBuffer inputData in
      let r' := process_all (snd r) events in
      (fst r ++ fst r', snd r')
  end.

(** The chunks of a run before their conversion. *)
Fixpoint chunks_of (audioBuffer : list double) (events : list (list double))
  : list (list double) :=
  match events with
  | [] => []
  | inputData :: events =>
      fst (drain (audioBuffer ++ inputData))
      ++ chunks_of (snd (drain (audioBuffer ++ inputData))) events
  end.

End RendererAudio.

(** ** The renderer's token tracker *)

Module TokenTracker.
Import Pcm.

Local Open Scope string_scope.
Local Open Scope list_scope.

(** ['image'] or ['audio']. *)
Inductive token_type := image | audio.

Record token := mkToken {
  timestamp : Z;
  count : Z;
  type : token_type }.

(** The [tokenTracker] object, and the number of clock readings made so
    far.  [audioStartTime] is [None] for [null]. *)
Record tracker := mkTracker {
  tokens : list token;
  audioStartTime : option Z;
  clockReads : nat }.

Definition set_tokens (v : list token) (t : tracker) : tracker :=
  match t with mkTracker _ start clk => mkTracker v start clk end.

Definition set_audioStartTime (v : option Z) (t : tracker) : tracker :=
  match t with mkTracker toks _ clk => mkTracker toks v clk end.

(** The tracker the renderer starts with. *)
Definition tokenTracker : tracker := mkTracker [] None 0.

(** [Math.floor] and [Math.ceil] of a number as an integer; [None] for NaN
    and the infinities, which have none. *)
Definition Math_floor (d : double) : option Z :=
  match d with
  | S754_zero _ => Some 0%Z
  | S754_finite s m e =>
      let int := if s then Z.neg m else Z.pos m in
      Some (if (0 <=? e)%Z then int * 2 ^ e else int / 2 ^ (- e))%Z
  | _ => None
  end.

Definition Math_ceil (d : double) : option Z :=
  option_map Z.opp (Math_floor (SFopp d)).

(** A decimal digit. *)
Definition digit_of (c : ascii) : option Z :=
  let n := nat_of_ascii c in
  if Nat.leb 48 n && Nat.leb n 57 then Some (Z.of_nat n - 48)%Z else None.

(** The longest prefix of decimal digits, read as a number; [acc] is the
    value so far, [None] while no digit has been read. *)
Fixpoint parse_digits (acc : option Z) (s : string) : option Z :=
  match s with
  | EmptyString => acc
  | String c rest =>
      match digit_of c with
      | Some d => parse_digits (Some (10 * default 0 acc + d)%Z) rest
      | None => acc
      end
  end.

(** [parseInt(s, 10)]; [None] is NaN. *)
Definition parseInt (s : string) : option Z :=
  match Js.trimStart s with
  | String "-" rest => option_map Z.opp (parse_digits None rest)
  | String "+" rest => parse_digits None rest
  | s => parse_digits None s
  end.

(** [calculateImageTokens] on integral dimensions. *)
Definition calculateImageTokens (width height : Z) : option Z :=
  if (width <=? 384)%Z && (height <=? 384)%Z then Some 258%Z
  else
    match Math_ceil (SFdiv prec emax (of_Z width) (of_Z 768)),
          Math_ceil (SFdiv prec emax (of_Z height) (of_Z 768)) with
    | Some tilesX, Some tilesY =>
        let totalTiles := (tilesX * tilesY)%Z in
        Some (totalTiles * 258)%Z
    | _, _ => None
    end.

Section WithEnvironment.

(** The k-th reading of [Date.now()], and [localStorage.getItem]. *)
Variable Date_now : nat -> Z.
Variable localStorage_getItem : string -> option string.

Definition read_clock (t : tracker) : Z * tracker :=
  (Date_now (clockReads t),
   mkTracker (tokens t) (audioStartTime t) (S (clockReads t))).

Definition cleanOldTokens (t : tracker) : tracker :=
  let (now, t) := read_clock t in
  let oneMinuteAgo := (now - 60 * 1000)%Z in
  set_tokens
    (List.filter (fun token => (oneMinuteAgo <? timestamp token)%Z)
       (tokens t)) t.

Definition addTokens (count : Z) (type : token_type) (t : tracker)
  : tracker :=
  let (now, t) := read_clock t in
  let t := set_tokens (tokens t ++ [mkToken now count type]) t in
  cleanOldTokens t.

(** [trackAudioTokens]; a start time of 0 is as good as none. *)
Definition trackAudioTokens (t : tracker) : tracker :=
  let started :=
    match audioStartTime t with
    | Some start => negb (start =? 0)%Z
    | None => false
    end in
  if negb started then
    let (now, t) := read_clock t in
    set_audioStartTime (Some now) t
  else
    let (now, t) := read_clock t in
    let elapsedSeconds :=
      SFdiv prec emax (of_Z (now - default 0%Z (audioStartTime t)))
        (of_Z 1000) in
    let audioTokens := Math_floor (SFmul prec emax elapsedSeconds (of_Z 32)) in
    match audioTokens with
    | Some audioTokens =>
        if (0 <? audioTokens)%Z
        then set_audioStartTime (Some now) (addTokens audioTokens audio t)
        else t
    | None => t (* no whole number: not reached with clock readings that
                   are integers in the range of doubles *)
    end.

Definition getTokensInLastMinute (t : tracker) : Z * tracker :=
  let t := cleanOldTokens t in
  (fold_left (fun total token => (total + count token)%Z) (tokens t) 0%Z, t).

(** [a || b] on the result of [getItem]. *)
Definition or_default (item : option string) (d : string) : string :=
  match item with
  | Some s => if Js.truthy s then s else d
  | None => d
  end.

(** [shouldThrottle].  The threshold is NaN when a setting does not parse
    and can be infinite when the product overflows: NaN and [Infinity]
    are reached by no count, [-Infinity] by every one. *)
Definition shouldThrottle (t : tracker) : bool * tracker :=
  let throttleEnabled :=
    match localStorage_getItem "throttleTokens" with
    | Some s => String.eqb s "true"
    | None => false
    end in
  if negb throttleEnabled then (false, t)
  else
    let maxTokensPerMin :=
      parseInt (or_default (localStorage_getItem "maxTokensPerMin")
                  "1000000") in
    let throttleAtPercent :=
      parseInt (or_default (localStorage_getItem "throttleAtPercent")
                  "75") in
    let (currentTokens, t) := getTokensInLastMinute t in
    match maxTokensPerMin, throttleAtPercent with
    | Some m, Some p =>
        let quotient :=
          SFdiv prec emax (SFmul prec emax (of_Z m) (of_Z p)) (of_Z 100) in
        match quotient, Math_floor quotient with
        | _, Some throttleThreshold =>
            ((throttleThreshold <=? currentTokens)%Z, t)
        | S754_infinity true, None => (true, t)
        | _, None => (false, t)
        end
    | _, _ => (false, t)
    end.

Definition reset (t : tracker) : tracker :=
  set_audioStartTime None (set_tokens [] t).

(** What is done to the tracker: the screenshot path asks
    [shouldThrottle] and adds the tokens of an image, the interval timer
    calls [trackAudioTokens]. *)
Inductive operation :=
| AddTokens (count : Z) (type : token_type)
| TrackAudioTokens
| CleanOldTokens
| GetTokensInLastMinute
| ShouldThrottle.

Definition apply (o : operation) (t : tracker) : tracker :=
  match o with
  | AddTokens count type => addTokens count type t
  | TrackAudioTokens => trackAudioTokens t
  | CleanOldTokens => cleanOldTokens t
  | GetTokensInLastMinute => snd (getTokensInLastMinute t)
  | ShouldThrottle => snd (shouldThrottle t)
  end.

Definition run (operations : list operation) (t : tracker) : tracker :=
  fold_left (fun t o => apply o t) operations t.

(** Every reading of the clock that [t'] has made and [t] has not leaves
    the token within its minute. *)
Definition within_minute (tok : token) (t t' : tracker) : Prop :=
  forall k : nat,
    (clockReads t <= k < clockReads t')%nat ->
    Date_now k - 60 * 1000 < timestamp tok.

End WithEnvironment.

End TokenTracker.

(** ** The registry of analyzed and active projects (main process) *)

Module Projects.

Local Open Scope string_scope.
Local Open Scope list_scope.

(** A JavaScript [Map] and [Set] with string keys keep their entries in
    insertion order, which is the order [Array.from] lists them in. *)
Definition Map_has {V} (m : list (string * V)) (key : string) : bool :=
  existsb (fun entry => String.eqb (fst entry) key) m.

Definition Map_get {V} (m : list (string * V)) (key : string) : option V :=
  option_map snd (List.find (fun entry => String.eqb (fst entry) key) m).

Fixpoint Map_set {V} (m : list (string * V)) (key : string) (value : V)
  : list (string * V) :=
  match m with
  | [] => [(key, value)]
  | entry :: m =>
      if String.eqb (fst entry) key then (key, value) :: m
      else entry :: Map_set m key value
  end.

Definition Map_delete {V} (m : list (string * V)) (key : string)
  : list (string * V) :=
  List.filter (fun entry => negb (String.eqb (fst entry) key)) m.

Definition Set_has (s : list string) (value : string) : bool :=
  existsb (fun x => String.eqb x value) s.

Definition Set_add (s : list string) (value : string) : list string :=
  if Set_has s value then s else s ++ [value].

Definition Set_delete (s : list string) (value : string) : list string :=
  List.filter (fun x => negb (String.eqb x value)) s.

(** The item ['activeProjects'] of the renderer's [localStorage] as
    ['restore-active-project'] reads it: missing or empty; not JSON; JSON
    that cannot be iterated; or JSON whose iteration yields the strings
    [names] (anything else it yields is the name of no project). *)
Inductive stored_item :=
| NoItem
| Malformed
| NotIterable
| Names (names : list string).

(** What a handler returns. *)
Record reply := mkReply {
  success : bool;
  error : option string;
  activeProjectsList : option (list string) }.

Definition ok (active : list string) : reply := mkReply true None (Some active).
Definition done : reply := mkReply true None None.
Definition failed (message : string) : reply :=
  mkReply false (Some message) None.

Section WithData.

Variables ProjectData SearchIndex : Type.

(** [codeAnalyzer.projects], [codeAnalyzer.codeIndices], the module's
    [activeProjects] and the stored item. *)
Record registry := mkRegistry {
  projects : list (string * ProjectData);
  codeIndices : list (string * SearchIndex);
  activeProjects : list string;
  stored : stored_item }.

(** The main process as it starts, with whatever an earlier run left in
    the renderer's storage. *)
Definition started (left_over : stored_item) : registry :=
  mkRegistry [] [] [] left_over.

(** The update of the stored item that follows a change of the active
    set when a window is open (the script is taken to run in the
    renderer); [removeWhenEmpty] is the variant of ['deactivate-project']
    and ['delete-project']. *)
Definition store (windowOpen removeWhenEmpty : bool) (r : registry)
  : registry :=
  if windowOpen then
    let activeProjectNames := activeProjects r in
    mkRegistry (projects r) (codeIndices r) (activeProjects r)
      (if removeWhenEmpty && Nat.eqb (length activeProjectNames) 0
       then NoItem else Names activeProjectNames)
  else r.

(** ['analyze-project']: [outcome] is what the analysis produces, or the
    message of the error it throws. *)
Definition ipc_analyze_project (name : string)
    (outcome : ProjectData * SearchIndex + string) (r : registry)
  : reply * registry :=
  match outcome with
  | inl (projectData, searchIndex) =>
      (done,
       mkRegistry (Map_set (projects r) name projectData)
         (Map_set (codeIndices r) name searchIndex)
         (activeProjects r) (stored r))
  | inr message => (failed ("Failed to analyze project: " ++ message), r)
  end.

(** ['activate-project'] *)
Definition ipc_activate_project (windowOpen : bool) (projectName : string)
    (r : registry) : reply * registry :=
  match Map_get (projects r) projectName with
  | None => (failed ("Project " ++ projectName ++ " not found"), r)
  | Some _ =>
      let r := mkRegistry (projects r) (codeIndices r)
                 (Set_add (activeProjects r) projectName) (stored r) in
      let r := store windowOpen false r in
      (ok (activeProjects r), r)
  end.

(** ['deactivate-project']; an empty name deactivates every project. *)
Definition ipc_deactivate_project (windowOpen : bool) (projectName : string)
    (r : registry) : reply * registry :=
  let active :=
    if negb (Js.truthy projectName) then []
    else Set_delete (activeProjects r) projectName in
  let r := mkRegistry (projects r) (codeIndices r) active (stored r) in
  let r := store windowOpen true r in
  (ok (activeProjects r), r).

(** ['delete-project'].  [CodeAnalyzer] has no method [deleteProjectData]:
    the call that follows the removal throws a [TypeError], which the
    handler reports. *)
Definition ipc_delete_project (windowOpen : bool) (projectName : string)
    (r : registry) : reply * registry :=
  let r :=
    if Set_has (activeProjects r) projectName then
      store windowOpen true
        (mkRegistry (projects r) (codeIndices r)
           (Set_delete (activeProjects r) projectName) (stored r))
    else r in
  let r := mkRegistry (Map_delete (projects r) projectName)
             (Map_delete (codeIndices r) projectName)
             (activeProjects r) (stored r) in
  (failed "codeAnalyzer.deleteProjectData is not a function", r).

(** The loop of ['restore-active-project'] over the stored names. *)
Definition restore_names (names : list string) (r : registry) : list string :=
  fold_left
    (fun active projectName =>
       if Map_has (projects r) projectName
       then Set_add active projectName else active)
    names [].

(** ['restore-active-project'] *)
Definition ipc_restore_active_project (windowOpen : bool) (r : registry)
  : reply * registry :=
  if windowOpen then
    match stored r with
    | Names names =>
        let active := restore_names names r in
        (ok active,
         mkRegistry (projects r) (codeIndices r) active (stored r))
    | NotIterable =>
        (ok [], mkRegistry (projects r) (codeIndices r) [] (stored r))
    | Malformed => (ok [], r)
    | NoItem => (ok [], r)
    end
  else (ok [], r).

(** ['get-active-projects'] *)
Definition ipc_get_active_projects (r : registry) : reply :=
  ok (activeProjects r).

(** [activeProjectsList] of [initializeGeminiSession]: the data of the
    active projects, without those that have none. *)
Definition activeProjectsData (r : registry) : list ProjectData :=
  omap (fun name => Map_get (projects r) name) (activeProjects r).

(** A request to the registry; each is handled with a window open or
    not. *)
Inductive request :=
| Analyze (name : string) (outcome : ProjectData * SearchIndex + string)
| Activate (windowOpen : bool) (projectName : string)
| Deactivate (windowOpen : bool) (projectName : string)
| Delete (windowOpen : bool) (projectName : string)
| Restore (windowOpen : bool).

Definition handle (q : request) (r : registry) : reply * registry :=
  match q with
  | Analyze name outcome => ipc_analyze_project name outcome r
  | Activate windowOpen projectName =>
      ipc_activate_project windowOpen projectName r
  | Deactivate windowOpen projectName =>
      ipc_deactivate_project windowOpen projectName r
  | Delete windowOpen projectName =>
      ipc_delete_project windowOpen projectName r
  | Restore windowOpen => ipc_restore_active_project windowOpen r
  end.

Definition serve (requests : list request) (r : registry) : registry :=
  fold_left (fun r q => snd (handle q r)) requests r.

(** The registry is consistent: the active set and the map of projects
    list no name twice, every active project has been analyzed, and the
    two maps of the analyzer have the same keys in the same order. *)
Definition consistent (r : registry) : Prop :=
  List.NoDup (activeProjects r)
  /\ (forall name : string,
        In name (activeProjects r) -> Map_has (projects r) name = true)
  /\ map fst (projects r) = map fst (codeIndices r)
  /\ List.NoDup (map fst (projects r)).

End WithData.

Arguments projects {ProjectData SearchIndex} _.
Arguments codeIndices {ProjectData SearchIndex} _.
Arguments activeProjects {ProjectData SearchIndex} _.
Arguments stored {ProjectData SearchIndex} _.
Arguments mkRegistry {ProjectData SearchIndex} _ _ _ _.
Arguments started {ProjectData SearchIndex} _.
Arguments consistent {ProjectData SearchIndex} _.
Arguments handle {ProjectData SearchIndex} _ _.
Arguments serve {ProjectData SearchIndex} _ _.
Arguments ipc_analyze_project {ProjectData SearchIndex} _ _ _.
Arguments ipc_activate_project {ProjectData SearchIndex} _ _ _.
Arguments ipc_deactivate_project {ProjectData SearchIndex} _ _ _.
Arguments ipc_delete_project {ProjectData SearchIndex} _ _ _.
Arguments ipc_restore_active_project {ProjectData SearchIndex} _ _.
Arguments ipc_get_active_projects {ProjectData SearchIndex} _.
Arguments activeProjectsData {ProjectData SearchIndex} _.
Arguments restore_names {ProjectData SearchIndex} _ _.
Arguments store {ProjectData SearchIndex} _ _ _.
Arguments Analyze {ProjectData SearchIndex} _ _.
Arguments Activate {ProjectData SearchIndex} _ _.
Arguments Deactivate {ProjectData SearchIndex} _ _.
Arguments Delete {ProjectData SearchIndex} _ _.
Arguments Restore {ProjectData SearchIndex} _.

End Projects.

(** ** Looking a project up by name (renderer) *)

Module RendererProjects.
Import Manual.

Local Open Scope string_scope.
Local Open Scope list_scope.

(** A project as [getProjectsData] returns it, as far as the lookup reads
    it: its name, and the rest of its fields. *)
Record Project := mkProject {
  name : string;
  fields : list (string * string) }.

(** [getProjectByName] over the projects that [getProjectsData] returned;
    [None] is [undefined]. *)
Definition getProjectByName (projects : list Project) (projectName : string)
  : option Project :=
  List.find
    (fun project =>
       Js.includes (toLowerCase (name project)) (toLowerCase projectName)
       || Js.includes (toLowerCase projectName) (toLowerCase (name project)))
    projects.

End RendererProjects.

(** ** Interleavings

    An [async] function gives the event loop back at an [await] on the
    outside: the timer of [attemptReconnection], the settings that
    [initializeGeminiSession] fetches first, and the handshake.  Between
    any two of these, callbacks of the transport and requests of the
    renderer may run, and other suspended calls may resume.  Here every
    suspended call is a pending task, and a schedule picks what happens
    next.  A continuation that resumes without waiting for the outside (a
    caller of [initializeGeminiSession] when that returns) runs in the
    same step. *)

Module Interleaving.
Import Session Ipc Manual Run.

Local Open Scope string_scope.
Local Open Scope list_scope.

(** A suspended call: [attemptReconnection] at its timer, or
    [initializeGeminiSession] at [getEnabledTools] or at the handshake,
    called by [attemptReconnection] ([isReconnection]) or by the
    ['initialize-gemini'] handler. *)
Inductive task :=
| Sleeping
| Fetching (params : SessionParams) (isReconnection : bool)
| Connecting (outcome : option session) (isReconnection : bool).

Record world := mkWorld {
  module_state : state;
  pending : list task }.

Section WithEnvironment.

Variable Date_now : nat -> Z.
Variable live_connect : nat -> option session.
Variable projects_context : string -> string.

(** [attemptReconnection] up to its timer. *)
Definition attempt_start (s : state) : state * list task :=
  if reconnection_refused s
  then (emit (UpdateStatus "Session closed") s, [])
  else (reconnection_begin s, [Sleeping]).

(** What [attemptReconnection] does after an attempt that failed. *)
Definition attempt_retry (s : state) : state * list task :=
  if Nat.ltb (reconnectionAttempts s) maxReconnectionAttempts
  then attempt_start s
  else (emit (UpdateStatus "Session closed") s, []).

(** The timer fired: the [try] block up to the first [await] of
    [initializeGeminiSession], or past the call when that returns
    [false] at once, or past the [catch] when reading the parameters
    throws. *)
Definition attempt_wake (s : state) : state * list task :=
  match lastSessionParams s with
  | None => attempt_retry s
  | Some params =>
      match initialize_enter params true s with
      | None => attempt_retry s
      | Some s => (s, [Fetching params true])
      end
  end.

(** The settings are there: [getSystemPrompt] is called, and when it
    returns the stretch goes up to the handshake.  When it throws, the
    call of [initializeGeminiSession] ends there: [attemptReconnection]
    catches and goes on to its next attempt, the ['initialize-gemini']
    handler throws as well. *)
Definition initialize_fetched (version : Version) (params : SessionParams)
    (isReconnection : bool) (s : state) : state * list task :=
  match
    initialize_connect Date_now live_connect version params isReconnection s
  with
  | None => if isReconnection then attempt_retry s else (s, [])
  | Some (outcome, s) => (s, [Connecting outcome isReconnection])
  end.

(** The handshake settled: [initializeGeminiSession] returns, and its
    caller goes on. *)
Definition initialize_returned (outcome : option session)
    (isReconnection : bool) (s : state) : state * list task :=
  let (result, s) := initialize_settle outcome s in
  if isReconnection then
    match result, geminiSessionRef s with
    | InitSession session, Some _ => (reconnection_succeeded session s, [])
    | _, _ => attempt_retry s
    end
  else
    match result with
    | InitSession session =>
        (set_geminiSessionRef (Some (Some session)) s, [])
    | _ => (s, [])
    end.

(** [onclose] up to the timer of the reconnection it starts. *)
Definition onclose_start (reason : option string) (s : state)
  : state * list task :=
  if isApiKeyError reason then
    let s := set_lastSessionParams None s in
    let s := set_reconnectionAttempts maxReconnectionAttempts s in
    (emit (UpdateStatus "Session closed: Invalid API key") s, [])
  else
    match lastSessionParams s with
    | Some _ =>
        if Nat.ltb (reconnectionAttempts s) maxReconnectionAttempts
        then attempt_start s
        else (emit (UpdateStatus "Session closed") s, [])
    | None => (emit (UpdateStatus "Session closed") s, [])
    end.

(** An input from the outside, handled up to the first [await] on the
    outside. *)
Definition receive (manual : bool) (i : input) (s : state)
  : state * list task :=
  match i with
  | InClose reason => onclose_start reason s
  | InStart params =>
      match initialize_enter params false s with
      | None => (s, [])
      | Some s => (s, [Fetching params false])
      end
  | _ => (step Date_now live_connect projects_context manual i s, [])
  end.

(** A pending task resumes. *)
Definition resume (manual : bool) (t : task) (s : state)
  : state * list task :=
  match t with
  | Sleeping => attempt_wake s
  | Fetching params isReconnection =>
      initialize_fetched (version_of manual) params isReconnection s
  | Connecting outcome isReconnection =>
      initialize_returned outcome isReconnection s
  end.

(** What happens next: an input arrives, or the pending task at [index]
    resumes (nothing happens if there is none). *)
Inductive action :=
| Receive (i : input)
| Resume (index : nat).

Definition act (manual : bool) (a : action) (w : world) : world :=
  match a with
  | Receive i =>
      let (s, tasks) := receive manual i (module_state w) in
      mkWorld s (pending w ++ tasks)
  | Resume index =>
      match pending w !! index with
      | Some t =>
          let (s, tasks) := resume manual t (module_state w) in
          mkWorld s (delete index (pending w) ++ tasks)
      | None => w
      end
  end.

Definition schedule (manual : bool) (actions : list action) (w : world)
  : world :=
  fold_left (fun w a => act manual a w) actions w.

(** The schedule in which nothing else happens while a call is
    suspended: the pending task resumes at once, [fuel] times at most. *)
Fixpoint eager (manual : bool) (fuel : nat) (w : world) : world :=
  match fuel, pending w with
  | S fuel, _ :: _ => eager manual fuel (act manual (Resume 0) w)
  | _, _ => w
  end.

End WithEnvironment.

(** The module once [setupGeminiIpcHandlers] has run, nothing pending. *)
Definition booted : world := mkWorld started [].

(** How far the one initialization that can be under way has come,
    read off a trace: [None] when the trace is not one of initializations
    that follow each other, each with one handshake. *)
Inductive phase := Idle | Entered | Handshaking.

Fixpoint phase_after (ph : phase) (t : list event) : option phase :=
  match t with
  | [] => Some ph
  | SessionInitializing true :: t =>
      match ph with Idle => phase_after Entered t | _ => None end
  | LiveConnect _ :: t =>
      match ph with Entered => phase_after Handshaking t | _ => None end
  | SessionInitializing false :: t =>
      match ph with Handshaking => phase_after Idle t | _ => None end
  | _ :: t => phase_after ph t
  end.

(** The same, read off the pending tasks. *)
Definition initializing (t : task) : bool :=
  match t with Sleeping => false | _ => true end.

Definition phase_of (tasks : list task) : option phase :=
  match List.filter initializing tasks with
  | [] => Some Idle
  | [Fetching _ _] => Some Entered
  | [Connecting _ _] => Some Handshaking
  | _ => None
  end.

Definition busy (ph : phase) : bool :=
  match ph with Idle => false | _ => true end.

(** An event that is no part of an initialization's bracket. *)
Definition quiet_event (e : event) : bool :=
  match e with
  | SessionInitializing _ | LiveConnect _ => false
  | _ => true
  end.

(** A stretch that takes no part in an initialization: it leaves the flag
    alone, keeps the count of attempts within the maximum, and adds only
    quiet events to the trace. *)
Definition calm (s s' : state) : Prop :=
  isInitializingSession s' = isInitializingSession s
  /\ ((reconnectionAttempts s <= maxReconnectionAttempts)%nat ->
      (reconnectionAttempts s' <= maxReconnectionAttempts)%nat)
  /\ exists extra : list event,
       trace s' = trace s ++ extra /\ forallb quiet_event extra = true.

(** What holds of the module and its suspended calls at every point of
    every schedule. *)
Definition orderly (w : world) : Prop :=
  (reconnectionAttempts (module_state w) <= maxReconnectionAttempts)%nat
  /\ exists ph : phase,
       phase_after Idle (trace (module_state w)) = Some ph
       /\ phase_of (pending w) = Some ph
       /\ isInitializingSession (module_state w) = busy ph.

Definition world_of (r : state * list task) : world :=
  mkWorld (fst r) (snd r).

End Interleaving.

(** * Properties of the chunk-extraction loop *)

Module ChunkerProofs.
Import AudioChunker.

(** *** Facts about [slice] as the handler uses it *)

Lemma CHUNK_SIZE_eq : CHUNK_SIZE = 9600.
Proof. reflexivity. Qed.

Lemma maxBufferSize_eq : maxBufferSize = 48000.
Proof. reflexivity. Qed.

Lemma adjustOffset_in_range (offset length : Z) :
  0 <= offset <= length -> adjustOffset offset length = offset.
Proof.
  intros H. unfold adjustOffset.
  destruct (offset =? 0) eqn:E0; [apply Z.eqb_eq in E0; lia|].
  destruct (offset <? 0) eqn:E1; [apply Z.ltb_lt in E1; lia|].
  destruct (offset <? length) eqn:E2; [reflexivity|].
  apply Z.ltb_ge in E2. lia.
Qed.

Lemma slice_front (buf : Buffer) :
  CHUNK_SIZE <= Z.of_nat (length buf) ->
  slice buf 0 (Some CHUNK_SIZE) = take (Z.to_nat CHUNK_SIZE) buf.
Proof.
  intros H. pose proof CHUNK_SIZE_eq as Hc. unfold slice.
  rewrite !adjustOffset_in_range by lia.
  destruct (0 <? CHUNK_SIZE) eqn:E; [|apply Z.ltb_ge in E; lia].
  rewrite Z.sub_0_r. reflexivity.
Qed.

Lemma slice_rest (buf : Buffer) :
  CHUNK_SIZE <= Z.of_nat (length buf) ->
  slice buf CHUNK_SIZE None = drop (Z.to_nat CHUNK_SIZE) buf.
Proof.
  intros H. pose proof CHUNK_SIZE_eq as Hc. unfold slice.
  rewrite adjustOffset_in_range by lia.
  apply take_ge. rewrite length_drop.
  destruct (CHUNK_SIZE <? Z.of_nat (length buf)) eqn:E; lia.
Qed.

Lemma slice_last (buf : Buffer) (n : Z) :
  0 < n < Z.of_nat (length buf) ->
  slice buf (- n) None = drop (length buf - Z.to_nat n) buf.
Proof.
  intros H. unfold slice, adjustOffset.
  destruct (- n =? 0) eqn:E0; [apply Z.eqb_eq in E0; lia|].
  destruct (- n <? 0) eqn:E1; [|apply Z.ltb_ge in E1; lia].
  destruct (0 <? - n + Z.of_nat (length buf)) eqn:E2;
    [|apply Z.ltb_ge in E2; lia].
  replace (Z.to_nat (- n + Z.of_nat (length buf)))
    with (length buf - Z.to_nat n)%nat by lia.
  apply take_ge. rewrite length_drop.
  destruct (- n + Z.of_nat (length buf) <? Z.of_nat (length buf)) eqn:E3;
    [lia|apply Z.ltb_ge in E3; lia].
Qed.

(** *** The loop *)

Lemma extract_chunks_clause (buf : Buffer)
    (r : {b : bool | (CHUNK_SIZE <=? Z.of_nat (length buf)) = b}) :
  extract_chunks_unfold_clause_1 buf r =
    if proj1_sig r
    then (slice buf 0 (Some CHUNK_SIZE)
            :: fst (extract_chunks (slice buf CHUNK_SIZE None)),
          snd (extract_chunks (slice buf CHUNK_SIZE None)))
    else ([], buf).
Proof. destruct r as [[|] e]; reflexivity. Qed.

Lemma extract_chunks_step (buf : Buffer) :
  extract_chunks buf =
    if CHUNK_SIZE <=? Z.of_nat (length buf)
    then (slice buf 0 (Some CHUNK_SIZE)
            :: fst (extract_chunks (slice buf CHUNK_SIZE None)),
          snd (extract_chunks (slice buf CHUNK_SIZE None)))
    else ([], buf).
Proof.
  rewrite extract_chunks_equation_1 at 1.
  rewrite extract_chunks_clause. reflexivity.
Qed.

Lemma extract_chunks_ge (buf : Buffer) :
  CHUNK_SIZE <= Z.of_nat (length buf) ->
  extract_chunks buf =
    (take (Z.to_nat CHUNK_SIZE) buf
       :: fst (extract_chunks (drop (Z.to_nat CHUNK_SIZE) buf)),
     snd (extract_chunks (drop (Z.to_nat CHUNK_SIZE) buf))).
Proof.
  intros H. rewrite extract_chunks_step at 1.
  destruct (CHUNK_SIZE <=? Z.of_nat (length buf)) eqn:E.
  - rewrite slice_front, slice_rest by exact H. reflexivity.
  - apply Z.leb_gt in E. lia.
Qed.

Lemma extract_chunks_lt (buf : Buffer) :
  Z.of_nat (length buf) < CHUNK_SIZE ->
  extract_chunks buf = ([], buf).
Proof.
  intros H. rewrite extract_chunks_step at 1.
  destruct (CHUNK_SIZE <=? Z.of_nat (length buf)) eqn:E.
  - apply Z.leb_le in E. lia.
  - reflexivity.
Qed.

(** What the loop establishes: every chunk has the configured size, the
    chunks followed by the remainder are the buffer it started from, and
    less than a chunk remains. *)
Lemma extract_chunks_spec (buf : Buffer) :
  Forall (fun c => Z.of_nat (length c) = CHUNK_SIZE) (fst (extract_chunks buf))
  /\ concat (fst (extract_chunks buf)) ++ snd (extract_chunks buf) = buf
  /\ Z.of_nat (length (snd (extract_chunks buf))) < CHUNK_SIZE.
Proof.
  remember (length buf) as n eqn:Hn. revert buf Hn.
  induction n as [n IH] using lt_wf_ind. intros buf ->.
  destruct (Z_lt_ge_dec (Z.of_nat (length buf)) CHUNK_SIZE) as [Hlt|Hge].
  - rewrite extract_chunks_lt by exact Hlt. cbn. auto.
  - apply Z.ge_le in Hge. rewrite extract_chunks_ge by exact Hge.
    pose proof CHUNK_SIZE_eq as Hc.
    destruct (IH (length (drop (Z.to_nat CHUNK_SIZE) buf))
                 ltac:(rewrite length_drop; lia)
                 (drop (Z.to_nat CHUNK_SIZE) buf) eq_refl)
      as (Hall & Hcat & Hrem).
    cbn [fst snd]. repeat split.
    + constructor; [|exact Hall]. rewrite length_take. lia.
    + cbn [concat]. rewrite <- app_assoc, Hcat. apply take_drop.
    + exact Hrem.
Qed.

(** After the loop less than one chunk is buffered, which is below the
    retention cap: the retention step leaves the buffer as it is. *)
Lemma truncate_short (buf : Buffer) :
  Z.of_nat (length buf) <= maxBufferSize -> truncate buf = buf.
Proof.
  intros H. unfold truncate.
  destruct (maxBufferSize <? Z.of_nat (length buf)) eqn:E; [|reflexivity].
  apply Z.ltb_lt in E. lia.
Qed.

Lemma truncate_long (buf : Buffer) :
  maxBufferSize < Z.of_nat (length buf) ->
  truncate buf = drop (length buf - Z.to_nat maxBufferSize) buf.
Proof.
  intros H. unfold truncate.
  destruct (maxBufferSize <? Z.of_nat (length buf)) eqn:E.
  - apply slice_last. rewrite maxBufferSize_eq in *. lia.
  - apply Z.ltb_ge in E. lia.
Qed.

Lemma on_data_spec (audioBuffer data : Buffer) :
  Forall (fun c => Z.of_nat (length c) = CHUNK_SIZE)
         (fst (on_data audioBuffer data))
  /\ concat (fst (on_data audioBuffer data)) ++ snd (on_data audioBuffer data)
     = audioBuffer ++ data
  /\ Z.of_nat (length (snd (on_data audioBuffer data))) < CHUNK_SIZE.
Proof.
  unfold on_data. cbn [fst snd].
  destruct (extract_chunks_spec (audioBuffer ++ data)) as (Hall & Hcat & Hrem).
  rewrite truncate_short
    by (rewrite CHUNK_SIZE_eq in Hrem; rewrite maxBufferSize_eq; lia).
  auto.
Qed.

Lemma ingest_all_spec (deliveries : list Buffer) : forall audioBuffer,
  Z.of_nat (length audioBuffer) < CHUNK_SIZE ->
  Forall (fun c => Z.of_nat (length c) = CHUNK_SIZE)
         (fst (ingest_all audioBuffer deliveries))
  /\ concat (fst (ingest_all audioBuffer deliveries))
       ++ snd (ingest_all audioBuffer deliveries)
     = audioBuffer ++ concat deliveries
  /\ Z.of_nat (length (snd (ingest_all audioBuffer deliveries))) < CHUNK_SIZE.
Proof.
  induction deliveries as [|d ds IH]; intros buf Hbuf.
  - cbn. rewrite app_nil_r. auto.
  - cbn [ingest_all fst snd concat].
    destruct (on_data_spec buf d) as (Hall & Hcat & Hrem).
    destruct (IH _ Hrem) as (Hall' & Hcat' & Hrem').
    repeat split.
    + apply Forall_app; auto.
    + rewrite concat_app, <- app_assoc, Hcat', app_assoc, Hcat.
      rewrite <- app_assoc. reflexivity.
    + exact Hrem'.
Qed.

(** Equal-sized pieces sit at multiples of their size in their
    concatenation. *)
Lemma chunk_position (n : nat) (cs : list Buffer) :
  Forall (fun c => length c = n) cs ->
  forall (i : nat) (c : Buffer), cs !! i = Some c ->
    c = take n (drop (i * n) (concat cs)).
Proof.
  induction 1 as [|c0 cs Hc0 Hcs IH]; intros i c Hi.
  - discriminate.
  - destruct i as [|i]; cbn in Hi.
    + injection Hi as <-. cbn [concat]. rewrite Nat.mul_0_l, drop_0.
      rewrite take_app_length' by (symmetry; exact Hc0). reflexivity.
    + cbn [concat]. replace (S i * n)%nat with (length c0 + i * n)%nat by lia.
      rewrite drop_app_add. apply IH. exact Hi.
Qed.

Lemma truncate_is_tail (buf : Buffer) :
  truncate buf = drop (length buf - Z.to_nat maxBufferSize) buf.
Proof.
  destruct (Z_lt_ge_dec maxBufferSize (Z.of_nat (length buf))) as [Hlt|Hge].
  - apply truncate_long. exact Hlt.
  - rewrite truncate_short by lia.
    replace (length buf - Z.to_nat maxBufferSize)%nat with 0%nat by lia.
    reflexivity.
Qed.

(** C1: when the deliveries of the capture source add up to a multiple of
    the chunk size (9600 bytes), the chunks the handler cuts off,
    concatenated in the order they are emitted, are the delivered bytes
    concatenated in the order they arrived, and nothing is left in the
    buffer.  Every chunk has exactly the chunk size, and the i-th chunk is
    the stretch of the input that starts at offset i * 9600: chunks come
    off the front, contiguous and without overlap.  No assumption on the
    backlog is needed: the handler never lets it reach the retention cap. *)
Theorem chunks_reassemble_deliveries (deliveries : list Buffer) :
  Z.of_nat (length (concat deliveries)) mod CHUNK_SIZE = 0 ->
  CHUNK_SIZE = 9600
  /\ concat (fst (ingest_all empty_buffer deliveries)) = concat deliveries
  /\ snd (ingest_all empty_buffer deliveries) = []
  /\ Forall (fun chunk => Z.of_nat (length chunk) = CHUNK_SIZE)
            (fst (ingest_all empty_buffer deliveries))
  /\ (forall (i : nat) (chunk : Buffer),
        fst (ingest_all empty_buffer deliveries) !! i = Some chunk ->
        chunk = take (Z.to_nat CHUNK_SIZE)
                     (drop (i * Z.to_nat CHUNK_SIZE) (concat deliveries))).
Proof.
  intros Hmul. pose proof CHUNK_SIZE_eq as Hc.
  destruct (ingest_all_spec deliveries empty_buffer) as (Hall & Hcat & Hrem).
  { cbn. lia. }
  cbn [empty_buffer app] in Hcat.
  set (chunks := fst (ingest_all empty_buffer deliveries)) in *.
  set (rest := snd (ingest_all empty_buffer deliveries)) in *.
  assert (Hlen : Forall (fun c : Buffer => length c = Z.to_nat CHUNK_SIZE) chunks).
  { eapply Forall_impl; [exact Hall|]. cbn. intros c Hcl. lia. }
  assert (Hsum : Z.of_nat (length (concat chunks))
                 = CHUNK_SIZE * Z.of_nat (length chunks)).
  { clear -Hall. induction Hall as [|c cs Hc0 _ IH]; cbn [concat length].
    - lia.
    - rewrite length_app. lia. }
  assert (Hrest : rest = []).
  { apply (f_equal (@length byte)) in Hcat. rewrite length_app in Hcat.
    rewrite <- Hcat in Hmul.
    rewrite Nat2Z.inj_add, Hsum in Hmul.
    rewrite Z.add_comm, Z.mul_comm, Z_mod_plus_full in Hmul.
    rewrite Z.mod_small in Hmul by lia.
    destruct rest; [reflexivity|cbn in Hmul; lia]. }
  rewrite Hrest, app_nil_r in Hcat.
  repeat split; auto.
  intros i chunk Hi. rewrite <- Hcat.
  apply (chunk_position _ _ Hlen). exact Hi.
Qed.

(** The claim at work: two deliveries of 4800 bytes make one chunk. *)
Lemma chunks_reassemble_deliveries_witness :
  let deliveries := [replicate 4800 x01; replicate 4800 x02] in
  fst (ingest_all empty_buffer deliveries)
    = [replicate 4800 x01 ++ replicate 4800 x02]
  /\ concat (fst (ingest_all empty_buffer deliveries)) = concat deliveries.
Proof.
  split.
  - vm_compute. reflexivity.
  - apply (chunks_reassemble_deliveries
             [replicate 4800 x01; replicate 4800 x02]).
    vm_compute. reflexivity.
Defined.

(** C2: after every ['data'] event the capture buffer is no longer than the
    retention cap [maxBufferSize] (24000 Hz * 2 bytes * 1 s = 48000 bytes,
    one second of a 16-bit channel), and it is a suffix of what was
    buffered plus what arrived.  The retention step itself keeps, of any
    buffer, exactly its last [maxBufferSize] bytes (the whole buffer when
    it is shorter): the oldest bytes go first. *)
Theorem capture_buffer_capped (audioBuffer data buf : Buffer) :
  maxBufferSize = SAMPLE_RATE * BYTES_PER_SAMPLE * 1
  /\ maxBufferSize = 48000
  /\ Z.of_nat (length (snd (on_data audioBuffer data))) <= maxBufferSize
  /\ snd (on_data audioBuffer data) `suffix_of` (audioBuffer ++ data)
  /\ truncate buf = drop (length buf - Z.to_nat maxBufferSize) buf
  /\ Z.of_nat (length (truncate buf))
     = Z.min (Z.of_nat (length buf)) maxBufferSize.
Proof.
  pose proof CHUNK_SIZE_eq as Hc. pose proof maxBufferSize_eq as Hm.
  destruct (on_data_spec audioBuffer data) as (_ & Hcat & Hrem).
  split; [reflexivity|]. repeat split.
  - lia.
  - exists (concat (fst (on_data audioBuffer data))). symmetry. exact Hcat.
  - apply truncate_is_tail.
  - rewrite truncate_is_tail, length_drop. lia.
Qed.

End ChunkerProofs.

(** * Properties of the float to 16-bit conversion *)

Module PcmProofs.
Import Pcm.

(** The literals of the loop body. *)
Lemma one_eq : of_Z 1 = S754_finite false 4503599627370496 (-52).
Proof. vm_compute. reflexivity. Qed.

Lemma minus_one_eq : of_Z (-1) = S754_finite true 4503599627370496 (-52).
Proof. vm_compute. reflexivity. Qed.

(** The loop writes every index once: the result is the map of the body. *)
Lemma convert_prefix (xs : list double) (k : nat) :
  (k <= length xs)%nat ->
  fold_left
    (fun int16Array i =>
       match xs !! i with
       | Some x => <[i := convert_sample x]> int16Array
       | None => int16Array
       end)
    (seq 0 k) (replicate (length xs) 0)
  = map convert_sample (take k xs) ++ replicate (length xs - k) 0.
Proof.
  induction k as [|k IH]; intros Hk.
  - cbn. rewrite Nat.sub_0_r. reflexivity.
  - rewrite seq_S, fold_left_app, IH by lia. cbn [fold_left Nat.add].
    destruct (lookup_lt_is_Some_2 xs k ltac:(lia)) as [x Hx].
    rewrite Hx. rewrite (take_S_r _ _ _ Hx), map_app. cbn [map].
    replace (length xs - k)%nat with (S (length xs - S k)) by lia.
    cbn [replicate]. rewrite <- app_assoc. cbn [app].
    rewrite insert_app_r_alt
      by (rewrite length_map, length_take; lia).
    rewrite length_map, length_take.
    replace (k - k `min` length xs)%nat with 0%nat by lia.
    reflexivity.
Qed.

Lemma convert_is_map (xs : list double) :
  convertFloat32ToInt16 xs = map convert_sample xs.
Proof.
  unfold convertFloat32ToInt16. rewrite convert_prefix by lia.
  rewrite firstn_all, Nat.sub_diag. cbn. apply app_nil_r.
Qed.

(** Above 1 the minimum with 1 is 1. *)
Lemma min_above_one (x : double) :
  SFltb (of_Z 1) x = true -> Math_min (of_Z 1) x = of_Z 1.
Proof.
  unfold SFltb, Math_min.
  destruct (SFcompare (of_Z 1) x) as [[| |]|]; try discriminate.
  reflexivity.
Qed.

(** Below -1 the minimum with 1 is the input, and the maximum with -1 is
    -1. *)
Lemma clamp_below_minus_one (x : double) :
  SFltb x (of_Z (-1)) = true ->
  Math_max (of_Z (-1)) (Math_min (of_Z 1) x) = of_Z (-1).
Proof.
  rewrite one_eq, minus_one_eq. unfold SFltb.
  destruct x as [s|s| |s m e]; cbn [SFcompare].
  - destruct s; discriminate.
  - destruct s; [reflexivity|discriminate].
  - discriminate.
  - destruct s; [|discriminate].
    intros H. unfold Math_min. cbn [SFcompare]. unfold Math_max.
    cbn [SFcompare].
    rewrite (Z.compare_antisym e (-52)).
    destruct (e ?= -52) eqn:Ee; cbn [CompOpp] in *; try discriminate.
    + assert (Pos.compare_cont Eq 4503599627370496 m
              = CompOpp (Pos.compare_cont Eq m 4503599627370496)) as ->
        by (symmetry; apply (Pos.compare_cont_antisym m _ Eq)).
      destruct (Pos.compare_cont Eq m 4503599627370496);
        cbn [CompOpp] in *; try discriminate; reflexivity.
    + reflexivity.
Qed.

Lemma ToInt16_range (d : double) : -32768 <= ToInt16 d <= 32767.
Proof.
  unfold ToInt16. destruct d as [s|s| |s m e]; try lia.
  set (magnitude := if 0 <=? e then _ else _).
  set (int := if s then _ else _).
  pose proof (Z.mod_pos_bound int 65536 ltac:(lia)).
  destruct (32768 <=? int mod 65536) eqn:E;
    [apply Z.leb_le in E|apply Z.leb_gt in E]; lia.
Qed.

(** C9: the converted array has the length of the input and holds, at every
    index, the conversion of the sample there.  The conversion of a sample
    sends 1.0 to 0x7FFF, -1.0 to -0x8000 and 0.0 to 0; every input above 1
    (1.5, say, or +infinity) gives what 1.0 gives and every input below -1
    gives what -1.0 gives, so out-of-range input is clamped to the nearest
    endpoint and does not wrap; and every result is a 16-bit value. *)
Theorem convertFloat32ToInt16_clamps (float32Array : list double) :
  length (convertFloat32ToInt16 float32Array) = length float32Array
  /\ (forall (i : nat) (x : double),
        float32Array !! i = Some x ->
        convertFloat32ToInt16 float32Array !! i = Some (convert_sample x))
  /\ convert_sample (of_Z 1) = 0x7FFF
  /\ convert_sample (of_Z (-1)) = - 0x8000
  /\ convert_sample (of_Z 0) = 0
  /\ convert_sample (of_dyadic 3 (-1)) = convert_sample (of_Z 1)
  /\ (forall x : double,
        SFltb (of_Z 1) x = true -> convert_sample x = convert_sample (of_Z 1))
  /\ (forall x : double,
        SFltb x (of_Z (-1)) = true ->
        convert_sample x = convert_sample (of_Z (-1)))
  /\ (forall x : double, -32768 <= convert_sample x <= 32767).
Proof.
  rewrite convert_is_map.
  split; [apply length_map|].
  split; [intros i x Hx; rewrite list_lookup_fmap, Hx; reflexivity|].
  split; [vm_compute; reflexivity|].
  split; [vm_compute; reflexivity|].
  split; [vm_compute; reflexivity|].
  split; [vm_compute; reflexivity|].
  split; [|split].
  - intros x Hx. unfold convert_sample at 1.
    rewrite (min_above_one x Hx). reflexivity.
  - intros x Hx. unfold convert_sample at 1.
    rewrite (clamp_below_minus_one x Hx). reflexivity.
  - intros x. apply ToInt16_range.
Qed.

End PcmProofs.

(** * Properties of the session controller *)

Module SessionProofs.
Import Session Trace SessionSpec Examples.

Local Open Scope string_scope.
Local Open Scope list_scope.

#[local] Arguments reconnectionContextHeader : simpl never.
#[local] Arguments sendReconnectionContext : simpl never.
#[local] Arguments Js.truthy : simpl never.
#[local] Arguments Js.trim : simpl never.

(** Brings a state to its fields, so that updates and reads compute. *)
Ltac fields s :=
  destruct s as [id tr hist init rvq vqt amr buf att par ref tc clk hs];
  cbn [currentSessionId currentTranscription conversationHistory
       isInitializingSession recentVoiceQuestion voiceQuestionTimestamp
       awaitingManualResponse messageBuffer reconnectionAttempts
       lastSessionParams geminiSessionRef trace clockReads handshakes] in *.

Section WithEnvironment.

Variable Date_now : nat -> Z.
Variable live_connect : nat -> option session.
Variable version : Version.

#[local] Abbreviation attemptReconnection :=
  (attemptReconnection Date_now live_connect version).
#[local] Abbreviation attemptReconnection_resume :=
  (attemptReconnection_resume Date_now live_connect version).
#[local] Abbreviation reconnection_try :=
  (reconnection_try Date_now live_connect version).
#[local] Abbreviation initializeGeminiSession :=
  (initializeGeminiSession Date_now live_connect version).
#[local] Abbreviation initialize_connect :=
  (initialize_connect Date_now live_connect version).
#[local] Abbreviation onclose := (onclose Date_now live_connect version).
#[local] Abbreviation after_failed_attempt := (after_failed_attempt version).
#[local] Abbreviation failed_attempt := (failed_attempt version).
#[local] Abbreviation onmessage := (onmessage Date_now).
#[local] Abbreviation onmessage_manual := (onmessage_manual Date_now).
#[local] Abbreviation completeGeneration := (completeGeneration Date_now).
#[local] Abbreviation saveConversationTurn := (saveConversationTurn Date_now).
#[local] Abbreviation completion_outcome := (completion_outcome Date_now).
#[local] Abbreviation saved_turn := (saved_turn Date_now).
#[local] Abbreviation ipc_initialize_gemini :=
  (ipc_initialize_gemini Date_now live_connect version).

(** *** The equation of [attemptReconnection] *)

Lemma attemptReconnection_clause_3 (s s1 : state)
    (r : {b : bool | Nat.ltb (reconnectionAttempts s1)
                             maxReconnectionAttempts = b})
    e4 e5 :
  attemptReconnection_unfold_clause_1_clause_2_clause_2
    Date_now live_connect version s s1 r e4 e5
  = if proj1_sig r then attemptReconnection s1
    else (false, emit (UpdateStatus "Session closed") s1).
Proof. destruct r as [[|] e]; reflexivity. Qed.

Lemma attemptReconnection_clause_2 (s : state)
    (r : {b : bool * state
         | reconnection_try (reconnection_begin s) = b}) e :
  attemptReconnection_unfold_clause_1_clause_2
    Date_now live_connect version s r e
  = if fst (proj1_sig r) then (true, snd (proj1_sig r))
    else if Nat.ltb (reconnectionAttempts (snd (proj1_sig r)))
                    maxReconnectionAttempts
         then attemptReconnection (snd (proj1_sig r))
         else (false,
               emit (UpdateStatus "Session closed") (snd (proj1_sig r))).
Proof.
  destruct r as [[[|] s1] e1]; cbn [proj1_sig fst snd].
  - reflexivity.
  - unfold attemptReconnection_unfold_clause_1_clause_2.
    rewrite attemptReconnection_clause_3. reflexivity.
Qed.

Lemma attemptReconnection_clause_1 (s : state)
    (r : {b : bool | reconnection_refused s = b}) :
  attemptReconnection_unfold_clause_1 Date_now live_connect version s r
  = if proj1_sig r
    then (false, emit (UpdateStatus "Session closed") s)
    else attemptReconnection_resume (reconnection_begin s).
Proof.
  destruct r as [[|] e]; cbn [proj1_sig].
  - reflexivity.
  - unfold attemptReconnection_unfold_clause_1.
    rewrite attemptReconnection_clause_2. cbn [proj1_sig inspect].
    unfold Session.attemptReconnection_resume.
    destruct (reconnection_try (reconnection_begin s)) as [[|] s1];
      reflexivity.
Qed.

(** One attempt: refuse at the guard, or count the attempt, sleep and go
    on. *)
Lemma attemptReconnection_unfold (s : state) :
  attemptReconnection s
  = if reconnection_refused s
    then (false, emit (UpdateStatus "Session closed") s)
    else attemptReconnection_resume (reconnection_begin s).
Proof.
  rewrite attemptReconnection_equation_1, attemptReconnection_clause_1.
  reflexivity.
Qed.

(** *** Running the controller on a given state *)

#[local] Opaque Session.attemptReconnection.

(** An attempt fails when its initialization throws (first version), is
    refused, or has its handshake rejected. *)
Lemma reconnection_try_fails (p : SessionParams) (s : state) :
  lastSessionParams s = Some p ->
  version = FirstVersion
  \/ isInitializingSession s = true
  \/ live_connect (handshakes s) = None ->
  reconnection_try (reconnection_begin s) = (false, after_failed_attempt p s).
Proof.
  intros Hp Hfail. fields s. subst par.
  unfold Session.reconnection_try, Session.initializeGeminiSession,
    initialize_enter, Session.initialize_connect, initialize_settle,
    reconnection_begin, SessionSpec.after_failed_attempt,
    SessionSpec.failed_attempt, failed_initialization, leaves_flag_set,
    emit in *.
  cbn in *. destruct init; cbn.
  - destruct ref; reflexivity.
  - destruct version; cbn.
    + rewrite <- !app_assoc. cbn. destruct ref; reflexivity.
    + destruct Hfail as [Hv|[Hbusy|Hc]]; [discriminate|discriminate|].
      rewrite Hc. cbn. rewrite <- !app_assoc. cbn.
      destruct ref; reflexivity.
Qed.

(** The guard at the top of an attempt turns the run into the terminal
    status and nothing else. *)
Lemma attemptReconnection_refused (s : state) :
  reconnection_refused s = true ->
  attemptReconnection s = (false, emit (UpdateStatus "Session closed") s).
Proof. intros H. rewrite attemptReconnection_unfold, H. reflexivity. Qed.

Lemma refused_without_params (s : state) :
  lastSessionParams s = None -> reconnection_refused s = true.
Proof. unfold reconnection_refused. intros ->. reflexivity. Qed.

Lemma refused_at_maximum (s : state) :
  (maxReconnectionAttempts <= reconnectionAttempts s)%nat ->
  reconnection_refused s = true.
Proof.
  unfold reconnection_refused. intros H.
  destruct (lastSessionParams s); [apply Nat.leb_le; exact H|reflexivity].
Qed.

(** With every initialization failing, a run that starts with [n] attempts
    left makes [n] attempts and then reports the closure. *)
Lemma attemptReconnection_all_fail (p : SessionParams) (n : nat) :
  forall s : state,
    lastSessionParams s = Some p ->
    version = FirstVersion
    \/ isInitializingSession s = true
    \/ (forall k, live_connect k = None) ->
    (reconnectionAttempts s + n = maxReconnectionAttempts)%nat ->
    attemptReconnection s
    = (false, emit (UpdateStatus "Session closed")
                (Nat.iter n (after_failed_attempt p) s)).
Proof.
  induction n as [|n IH]; intros s Hp Hfail Hn.
  - change (Nat.iter 0 (after_failed_attempt p) s) with s.
    apply attemptReconnection_refused, refused_at_maximum. lia.
  - rewrite attemptReconnection_unfold.
    assert (reconnection_refused s = false) as ->.
    { unfold reconnection_refused. rewrite Hp. apply Nat.leb_gt. lia. }
    unfold Session.attemptReconnection_resume.
    rewrite (reconnection_try_fails p s Hp)
      by (destruct Hfail as [Hv|[Hb|Hc]];
          [left; exact Hv|right; left; exact Hb|right; right; apply Hc]).
    assert (Hatt : reconnectionAttempts (after_failed_attempt p s)
                   = S (reconnectionAttempts s)) by (fields s; reflexivity).
    assert (Hp' : lastSessionParams (after_failed_attempt p s) = Some p)
      by (fields s; exact Hp).
    assert (Hi' : isInitializingSession s = true ->
                  isInitializingSession (after_failed_attempt p s) = true)
      by (fields s; intros ->; reflexivity).
    replace (Nat.iter (S n) (after_failed_attempt p) s)
      with (Nat.iter n (after_failed_attempt p) (after_failed_attempt p s))
      by (symmetry; apply Nat.iter_succ_r).
    destruct (Nat.ltb (reconnectionAttempts (after_failed_attempt p s))
                      maxReconnectionAttempts) eqn:E.
    + apply IH; [exact Hp'| |lia].
      destruct Hfail as [Hv|[Hb|Hc]];
        [left; exact Hv|right; left; apply Hi', Hb|right; right; exact Hc].
    + apply Nat.ltb_ge in E. assert (n = 0%nat) as -> by lia. reflexivity.
Qed.

Lemma trace_after_failed_attempt (p : SessionParams) (s : state) :
  trace (after_failed_attempt p s)
  = trace s ++ failed_attempt (isInitializingSession s) p.
Proof. fields s. reflexivity. Qed.

Lemma attempts_after_failed_attempt (p : SessionParams) (s : state) :
  reconnectionAttempts (after_failed_attempt p s)
  = S (reconnectionAttempts s).
Proof. fields s. reflexivity. Qed.

Lemma busy_after_failed_attempt (p : SessionParams) (s : state) :
  isInitializingSession (after_failed_attempt p s)
  = isInitializingSession s || leaves_flag_set version.
Proof. fields s. reflexivity. Qed.

Lemma busy_emit (e : event) (s : state) :
  isInitializingSession (emit e s) = isInitializingSession s.
Proof. fields s. reflexivity. Qed.

Lemma trace_emit (e : event) (s : state) : trace (emit e s) = trace s ++ [e].
Proof. fields s. reflexivity. Qed.

Lemma attempts_emit (e : event) (s : state) :
  reconnectionAttempts (emit e s) = reconnectionAttempts s.
Proof. fields s. reflexivity. Qed.

Lemma params_emit (e : event) (s : state) :
  lastSessionParams (emit e s) = lastSessionParams s.
Proof. fields s. reflexivity. Qed.

(** C4: a reconnection run that starts with stored parameters and a zero
    attempt count (as a fresh start and a successful reconnection leave
    it), in which every reinitialization fails, makes exactly
    [maxReconnectionAttempts] = 3 attempts, each one after a timer of
    [reconnectionDelay] = 2000 ms, then reports "Session closed" and
    returns [false]; started again from the state it leaves, it makes no
    attempt.  A reinitialization fails when it is refused because another
    one is in progress, in the second version when its handshake is
    rejected, and in the first version always: there it throws before any
    handshake and leaves the flag set, so the attempts after it are
    refused.  [onclose] enters this run on a closure that is not an
    authentication failure.  Whenever no parameters are stored or the
    count has reached the maximum, the run consists of the terminal status
    alone. *)
Theorem reconnection_gives_up_after_three_failures
    (p : SessionParams) (s : state) :
  lastSessionParams s = Some p ->
  reconnectionAttempts s = 0%nat ->
  version = FirstVersion
  \/ isInitializingSession s = true
  \/ (forall k, live_connect k = None) ->
  let initialization :=
    match version with
    | FirstVersion => [SessionInitializing true; NewClient (apiKey p)]
    | SecondVersion =>
        [SessionInitializing true; NewClient (apiKey p); LiveConnect p;
         SessionInitializing false]
    end in
  let left_busy :=
    isInitializingSession s
    || match version with FirstVersion => true | SecondVersion => false end in
  let first :=
    SetTimeout 2000
    :: if isInitializingSession s then [] else initialization in
  let later := SetTimeout 2000 :: if left_busy then [] else initialization in
  let final := snd (attemptReconnection s) in
  maxReconnectionAttempts = 3%nat
  /\ fst (attemptReconnection s) = false
  /\ trace final
     = trace s ++ first ++ later ++ later ++ [UpdateStatus "Session closed"]
  /\ reconnectionAttempts final = maxReconnectionAttempts
  /\ isInitializingSession final = left_busy
  /\ attemptReconnection final
     = (false, emit (UpdateStatus "Session closed") final)
  /\ (forall reason : option string,
        isApiKeyError reason = false ->
        onclose reason s = final)
  /\ (forall s0 : state,
        lastSessionParams s0 = None
        \/ (maxReconnectionAttempts <= reconnectionAttempts s0)%nat ->
        attemptReconnection s0
        = (false, emit (UpdateStatus "Session closed") s0)).
Proof.
  intros Hp Ha Hfail initialization left_busy first later final.
  assert (Hrun := attemptReconnection_all_fail p 3 s Hp Hfail
                    ltac:(rewrite Ha; reflexivity)).
  assert (Hfinal : final
                   = emit (UpdateStatus "Session closed")
                       (Nat.iter 3 (after_failed_attempt p) s))
    by (unfold final; rewrite Hrun; reflexivity).
  assert (Hatt : reconnectionAttempts final = 3%nat).
  { rewrite Hfinal, attempts_emit. cbn [Nat.iter nat_rect].
    rewrite !attempts_after_failed_attempt, Ha. reflexivity. }
  split; [reflexivity|].
  split; [rewrite Hrun; reflexivity|].
  split.
  { rewrite Hfinal, trace_emit. cbn [Nat.iter nat_rect].
    rewrite !trace_after_failed_attempt, !busy_after_failed_attempt.
    rewrite <- !app_assoc.
    unfold first, later, left_busy, initialization,
      SessionSpec.failed_attempt, failed_initialization, leaves_flag_set.
    destruct (isInitializingSession s), version; reflexivity. }
  split; [exact Hatt|].
  split.
  { rewrite Hfinal, busy_emit. cbn [Nat.iter nat_rect].
    rewrite !busy_after_failed_attempt.
    unfold left_busy, leaves_flag_set.
    destruct (isInitializingSession s), version; reflexivity. }
  split.
  { apply attemptReconnection_refused, refused_at_maximum.
    rewrite Hatt. reflexivity. }
  split.
  { intros reason Hr. unfold Session.onclose. rewrite Hr, Hp, Ha.
    reflexivity. }
  intros s0 [H0|H0]; apply attemptReconnection_refused.
  - apply refused_without_params, H0.
  - apply refused_at_maximum, H0.
Qed.

(** *** Authentication failures *)

Lemma includes_nonempty (hay needle : string) :
  Js.includes hay needle = true ->
  Js.truthy needle = true ->
  Js.truthy hay = true.
Proof.
  destruct hay as [|c hay]; [|reflexivity].
  destruct needle as [|d needle]; [discriminate|].
  cbn. discriminate.
Qed.

Lemma isApiKeyError_phrase (text phrase : string) :
  In phrase auth_failure_phrases ->
  Js.includes text phrase = true ->
  isApiKeyError (Some text) = true.
Proof.
  intros Hin Hinc. unfold isApiKeyError.
  assert (Js.truthy text = true) as ->.
  { apply (includes_nonempty text phrase Hinc).
    cbn in Hin. destruct Hin as [<-|[<-|[<-|[<-|[]]]]]; reflexivity. }
  cbn [andb].
  cbn in Hin. destruct Hin as [<-|[<-|[<-|[<-|[]]]]]; rewrite Hinc;
    rewrite ?orb_true_r; reflexivity.
Qed.

(** A retry that wakes up without stored parameters does nothing but
    report the closure. *)
Lemma resume_without_params (s : state) :
  lastSessionParams s = None ->
  attemptReconnection_resume s
  = (false, emit (UpdateStatus "Session closed") s).
Proof.
  intros Hp. unfold Session.attemptReconnection_resume,
    Session.reconnection_try.
  rewrite Hp.
  destruct (Nat.ltb (reconnectionAttempts s) maxReconnectionAttempts);
    [|reflexivity].
  apply attemptReconnection_refused, refused_without_params, Hp.
Qed.

Lemma locked_out_fields (status : string) (s : state) :
  lastSessionParams (locked_out status s) = None
  /\ reconnectionAttempts (locked_out status s) = maxReconnectionAttempts
  /\ trace (locked_out status s) = trace s ++ [UpdateStatus status]
  /\ handshakes (locked_out status s) = handshakes s
  /\ geminiSessionRef (locked_out status s) = geminiSessionRef s
  /\ isInitializingSession (locked_out status s) = isInitializingSession s.
Proof. fields s. repeat split. Qed.

(** C5: when the message of a transport error, or the reason of a closure,
    contains one of the authentication-failure phrases, the callback clears
    the stored parameters, sets the attempt count to the maximum and shows
    a status that names the invalid API key ("Error: Invalid API key" from
    [onerror], "Session closed: Invalid API key" from [onclose]) and is not
    the plain "Session closed"; it arms no timer and makes no handshake,
    whatever the attempt count was.  From the state it leaves, neither a
    new reconnection run nor a retry that was already sleeping makes an
    attempt: each only reports the closure. *)
Theorem authentication_failure_stops_reconnection
    (text phrase : string) (s : state) :
  In phrase auth_failure_phrases ->
  Js.includes text phrase = true ->
  let after_error := onerror (Some text) s in
  let after_close := onclose (Some text) s in
  (lastSessionParams after_error = None
   /\ reconnectionAttempts after_error = maxReconnectionAttempts
   /\ trace after_error = trace s ++ [UpdateStatus "Error: Invalid API key"]
   /\ handshakes after_error = handshakes s)
  /\ (lastSessionParams after_close = None
      /\ reconnectionAttempts after_close = maxReconnectionAttempts
      /\ trace after_close
         = trace s ++ [UpdateStatus "Session closed: Invalid API key"]
      /\ handshakes after_close = handshakes s)
  /\ (forall s' : state,
        s' = after_error \/ s' = after_close ->
        attemptReconnection s'
        = (false, emit (UpdateStatus "Session closed") s')
        /\ attemptReconnection_resume s'
           = (false, emit (UpdateStatus "Session closed") s')).
Proof.
  intros Hin Hinc after_error after_close.
  pose proof (isApiKeyError_phrase text phrase Hin Hinc) as Hauth.
  assert (He : after_error = locked_out "Error: Invalid API key" s)
    by (unfold after_error, onerror; rewrite Hauth; reflexivity).
  assert (Hc : after_close = locked_out "Session closed: Invalid API key" s)
    by (unfold after_close, Session.onclose; rewrite Hauth; reflexivity).
  destruct (locked_out_fields "Error: Invalid API key" s)
    as (E1 & E2 & E3 & E4 & _).
  destruct (locked_out_fields "Session closed: Invalid API key" s)
    as (C1 & C2 & C3 & C4 & _).
  rewrite He, Hc.
  split; [auto|]. split; [auto|].
  intros s' [-> | ->]; split;
    first [ apply attemptReconnection_refused, refused_without_params; assumption
          | apply resume_without_params; assumption ].
Qed.

(** *** Closing a session *)

Lemma sendReconnectionContext_cases (s : state) :
  sendReconnectionContext s = s
  \/ exists (current : session) (message : string),
       sendReconnectionContext s
       = emit (SendRealtimeInputText current message) s.
Proof.
  unfold sendReconnectionContext.
  destruct (geminiSessionRef s) as [[current|]|]; auto.
  destruct (Nat.eqb _ 0); auto.
  destruct (Nat.eqb _ 0); auto.
  right. eauto.
Qed.

(** An initialization of the second version that is under way when the
    session is closed goes on: resumed after the close it issues its
    handshake, and when the handshake is accepted the reconnection
    attempt that called it stores the new session. *)
Lemma started_attempt_survives_close
    (params : SessionParams) (session_ : session) (s : state) :
  geminiSessionRef s <> None ->
  let closed := ipc_close_session s in
  let fetched :=
    Interleaving.resume Date_now live_connect true
      (Interleaving.Fetching params true) closed in
  let returned :=
    Interleaving.resume Date_now live_connect true
      (Interleaving.Connecting (Some session_) true) closed in
  geminiSessionRef closed = Some None
  /\ lastSessionParams closed = None
  /\ handshakes_in (trace (fst fetched))
     = handshakes_in (trace s) ++ [params]
  /\ snd fetched
     = [Interleaving.Connecting (live_connect (handshakes s)) true]
  /\ geminiSessionRef (fst returned) = Some (Some session_)
  /\ lastSessionParams (fst returned) = None
  /\ reconnectionAttempts (fst returned) = 0%nat
  /\ snd returned = [].
Proof.
  intros Href. cbv zeta. cbn [Interleaving.resume Run.version_of].
  unfold Interleaving.initialize_fetched, Interleaving.initialize_returned,
    Session.initialize_connect, initialize_settle, reconnection_succeeded.
  fields s. unfold ipc_close_session, emit, handshakes_in. cbn.
  destruct ref as [[current|]|]; [| |contradiction]; cbn;
    (destruct (live_connect hs); cbn;
     rewrite ?omap_app; cbn; rewrite ?app_nil_r;
     repeat (split; [reflexivity|]));
    match goal with
    | |- context [sendReconnectionContext ?x] =>
        destruct (sendReconnectionContext_cases x) as [-> |(c & m & ->)]
    end; repeat split.
Qed.

Lemma params_after_close (s : state) :
  lastSessionParams (ipc_close_session s) = None.
Proof. fields s. cbn. destruct ref as [[c|]|]; reflexivity. Qed.

(** C6 (amended): the ['close-session'] handler clears the stored
    parameters; the guard at the top of every attempt refuses when they
    are cleared; and a retry that had already counted its attempt and was
    sleeping on its timer when the session was closed wakes up, makes no
    handshake, creates no client, leaves the session slot empty and only
    reports the closure, as does every retry that wakes up with the
    parameters cleared.  An attempt that is past its timer is not called
    off: in the second version its initialization, resumed after the
    close, issues its handshake with the parameters it was called with,
    and when the handshake is accepted the attempt stores the new
    session. *)
Theorem close_session_cancels_pending_retry (s : state) :
  let closed_while_sleeping := ipc_close_session (reconnection_begin s) in
  let woken := attemptReconnection_resume closed_while_sleeping in
  lastSessionParams (ipc_close_session s) = None
  /\ (forall s0 : state,
        lastSessionParams s0 = None -> reconnection_refused s0 = true)
  /\ (forall s0 : state,
        reconnection_refused s0 = true ->
        attemptReconnection s0
        = (false, emit (UpdateStatus "Session closed") s0))
  /\ (forall s0 : state,
        lastSessionParams s0 = None ->
        attemptReconnection_resume s0
        = (false, emit (UpdateStatus "Session closed") s0))
  /\ woken
     = (false, emit (UpdateStatus "Session closed") closed_while_sleeping)
  /\ handshakes_in (trace (snd woken)) = handshakes_in (trace s)
  /\ clients_in (trace (snd woken)) = clients_in (trace s)
  /\ handshakes (snd woken) = handshakes s
  /\ geminiSessionRef (snd woken)
     = match geminiSessionRef s with
       | Some _ => Some None
       | None => None
       end
  /\ (forall (params : SessionParams) (fresh : session),
        geminiSessionRef s <> None ->
        let closed := ipc_close_session s in
        let fetched :=
          Interleaving.resume Date_now live_connect true
            (Interleaving.Fetching params true) closed in
        let returned :=
          Interleaving.resume Date_now live_connect true
            (Interleaving.Connecting (Some fresh) true) closed in
        handshakes_in (trace (fst fetched))
        = handshakes_in (trace s) ++ [params]
        /\ geminiSessionRef (fst returned) = Some (Some fresh)
        /\ lastSessionParams (fst returned) = None).
Proof.
  intros closed_while_sleeping woken.
  assert (Hw : woken
               = (false, emit (UpdateStatus "Session closed")
                           closed_while_sleeping))
    by (apply resume_without_params, params_after_close).
  split; [apply params_after_close|].
  split; [exact refused_without_params|].
  split; [exact attemptReconnection_refused|].
  split; [exact resume_without_params|].
  split; [exact Hw|].
  assert (Hgoes : forall (params : SessionParams) (fresh : session),
             geminiSessionRef s <> None ->
             let closed := ipc_close_session s in
             let fetched :=
               Interleaving.resume Date_now live_connect true
                 (Interleaving.Fetching params true) closed in
             let returned :=
               Interleaving.resume Date_now live_connect true
                 (Interleaving.Connecting (Some fresh) true) closed in
             handshakes_in (trace (fst fetched))
             = handshakes_in (trace s) ++ [params]
             /\ geminiSessionRef (fst returned) = Some (Some fresh)
             /\ lastSessionParams (fst returned) = None).
  { intros params fresh Href.
    destruct (started_attempt_survives_close params fresh s Href)
      as (_ & _ & H3 & _ & H5 & H6 & _).
    cbv zeta. split; [exact H3|]. split; [exact H5|exact H6]. }
  rewrite Hw. unfold closed_while_sleeping. clear - Hgoes.
  repeat match goal with |- _ /\ _ => split end; try exact Hgoes;
    clear Hgoes; fields s;
    unfold ipc_close_session, reconnection_begin, emit; cbn;
    unfold handshakes_in, clients_in;
    destruct ref as [[c|]|]; cbn;
    rewrite ?omap_app; cbn; rewrite ?app_nil_r; reflexivity.
Qed.

(** *** A reconnection that succeeds *)

Lemma replayed_transcriptions_nonblank (history : list ConversationTurn) :
  replayed_transcriptions history
  = List.filter (fun t => negb (String.eqb (Js.trim t) ""))
      (map transcription history).
Proof.
  unfold replayed_transcriptions.
  induction (map transcription history) as [|t ts IH]; [reflexivity|].
  cbn [List.filter]. rewrite IH.
  assert (Js.truthy t && Nat.ltb 0 (String.length (Js.trim t))
          = negb (String.eqb (Js.trim t) "")) as ->; [|reflexivity].
  destruct t as [|c t]; [reflexivity|].
  cbn [Js.truthy String.eqb negb andb].
  destruct (Js.trim (String c t)); reflexivity.
Qed.

Lemma sendReconnectionContext_frames (current : session) (s : state) :
  geminiSessionRef s = Some (Some current) ->
  sendReconnectionContext s
  = match replayed_transcriptions (conversationHistory s) with
    | [] => s
    | questions =>
        emit (SendRealtimeInputText current
                (reconnectionContextHeader +:+ Js.join questions Js.LF)) s
    end.
Proof.
  intros Href. unfold sendReconnectionContext. rewrite Href.
  destruct (conversationHistory s) as [|turn history]; [reflexivity|].
  cbn [length Nat.eqb].
  destruct (replayed_transcriptions (turn :: history)); reflexivity.
Qed.

Lemma reconnection_succeeded_fields (fresh : session) (s : state) :
  reconnectionAttempts (reconnection_succeeded fresh s) = 0%nat
  /\ geminiSessionRef (reconnection_succeeded fresh s) = Some (Some fresh)
  /\ conversationHistory (reconnection_succeeded fresh s)
     = conversationHistory s
  /\ trace (reconnection_succeeded fresh s)
     = trace s ++ replayed_frame fresh (conversationHistory s).
Proof.
  unfold reconnection_succeeded, replayed_frame.
  rewrite (sendReconnectionContext_frames fresh) by (fields s; reflexivity).
  rewrite <- replayed_transcriptions_nonblank.
  replace (conversationHistory
             (set_reconnectionAttempts 0
                (set_geminiSessionRef (Some (Some fresh)) s)))
    with (conversationHistory s) by (fields s; reflexivity).
  destruct (replayed_transcriptions (conversationHistory s)) as [|q qs];
    fields s; unfold emit; cbn; rewrite ?app_nil_r; repeat split.
Qed.

(** An attempt returns [true] only through the branch that follows an
    initialization that returned a session. *)
Lemma reconnection_try_succeeds (s : state) :
  fst (reconnection_try s) = true ->
  exists (p : SessionParams) (fresh : session) (s1 : state),
    lastSessionParams s = Some p
    /\ initializeGeminiSession p true s = (InitSession fresh, s1)
    /\ snd (reconnection_try s) = reconnection_succeeded fresh s1.
Proof.
  unfold Session.reconnection_try.
  destruct (lastSessionParams s) as [p|]; [|discriminate].
  destruct (initializeGeminiSession p true s) as [result s1] eqn:Hinit.
  destruct result as [| |fresh|]; try discriminate.
  destruct (geminiSessionRef s1); [|discriminate].
  intros _. exists p, fresh, s1.
  split; [reflexivity|]. split; [exact Hinit|reflexivity].
Qed.

(** *** Refused initializations *)

Lemma initialization_refused (p : SessionParams) (isReconnection : bool)
    (s : state) :
  isInitializingSession s = true ->
  initializeGeminiSession p isReconnection s = (InitRefused, s).
Proof.
  intros H. unfold Session.initializeGeminiSession, initialize_enter.
  rewrite H. reflexivity.
Qed.

Lemma settle_clears_flag (outcome : option session) (s : state) :
  isInitializingSession (snd (initialize_settle outcome s)) = false.
Proof. fields s. destruct outcome; reflexivity. Qed.

(** *** A fresh start *)

(** C10: a fresh start (not a reconnection) that passes the guard stores
    the parameters it is given and sets the attempt count to zero before
    any handshake is made, and both still hold when the call has settled,
    whether the connection succeeded or not.  This also holds right after
    an authentication failure has cleared the parameters and exhausted the
    attempts: the next fresh start lifts the lockout, and the guard of the
    reconnection controller no longer refuses. *)
Theorem fresh_start_resets_reconnection_state
    (p : SessionParams) (s : state) :
  isInitializingSession s = false ->
  (exists entered : state,
      initialize_enter p false s = Some entered
      /\ lastSessionParams entered = Some p
      /\ reconnectionAttempts entered = 0%nat
      /\ handshakes entered = handshakes s
      /\ handshakes_in (trace entered) = handshakes_in (trace s))
  /\ lastSessionParams (snd (initializeGeminiSession p false s)) = Some p
  /\ reconnectionAttempts (snd (initializeGeminiSession p false s)) = 0%nat
  /\ reconnection_refused (snd (initializeGeminiSession p false s)) = false
  /\ (forall (message : option string),
        isApiKeyError message = true ->
        let locked := onerror message s in
        lastSessionParams locked = None
        /\ reconnectionAttempts locked = maxReconnectionAttempts
        /\ lastSessionParams (snd (initializeGeminiSession p false locked))
           = Some p
        /\ reconnectionAttempts (snd (initializeGeminiSession p false locked))
           = 0%nat).
Proof.
  intros Hi.
  assert (Hgen : forall s0 : state,
             isInitializingSession s0 = false ->
             lastSessionParams (snd (initializeGeminiSession p false s0))
             = Some p
             /\ reconnectionAttempts (snd (initializeGeminiSession p false s0))
                = 0%nat).
  { intros s0 H0. fields s0. subst init.
    unfold Session.initializeGeminiSession, initialize_enter,
      Session.initialize_connect, initialize_settle,
      Session.initializeNewSession, read_clock, emit.
    cbn. destruct version; cbn; [split; reflexivity|].
    destruct (live_connect hs); cbn; split; reflexivity. }
  split.
  { unfold initialize_enter. rewrite Hi. eexists. split; [reflexivity|].
    clear. fields s. unfold emit, handshakes_in. cbn.
    rewrite !omap_app. cbn. rewrite !app_nil_r. repeat split. }
  destruct (Hgen s Hi) as [H1 H2].
  split; [exact H1|]. split; [exact H2|].
  split.
  { unfold reconnection_refused. rewrite H1, H2. reflexivity. }
  intros message Hm locked.
  assert (Hl : locked = locked_out "Error: Invalid API key" s)
    by (unfold locked, onerror; rewrite Hm; reflexivity).
  destruct (locked_out_fields "Error: Invalid API key" s)
    as (L1 & L2 & _ & _ & _ & L6).
  rewrite Hl. split; [exact L1|]. split; [exact L2|].
  apply Hgen. rewrite L6. exact Hi.
Qed.

(** *** Completed generations *)

Lemma completeGeneration_outcome (pending : state) :
  completion_outcome pending (completeGeneration pending)
  /\ completion_outcome pending
       (emit (UpdateStatus "Listening...") (completeGeneration pending))
  /\ completion_outcome pending
       (set_awaitingManualResponse false (completeGeneration pending))
  /\ completion_outcome pending
       (emit (UpdateStatus "Listening...")
          (set_awaitingManualResponse false (completeGeneration pending))).
Proof.
  unfold SessionSpec.completion_outcome, SessionSpec.saved_turn.
  fields pending.
  unfold Session.completeGeneration, Session.saveConversationTurn,
    Session.initializeNewSession, read_clock, emit.
  cbn. destruct (Js.truthy tr), (Js.truthy buf), id; cbn; repeat split.
Qed.

(** A message that only carries [turnComplete] shows the listening status
    and changes nothing else: the handler saves turns on
    [generationComplete]. *)
Lemma turn_complete_alone_only_updates_status (s : state) :
  onmessage (mkMessage (Some (mkContent None None false true))) s
  = emit (UpdateStatus "Listening...") s.
Proof. reflexivity. Qed.

(** C3 (amended): a message with [generationComplete] is judged on the
    buffers as they stand once the message's own fragments have been
    collected ([accumulate], [accumulate_manual]).  The first version of
    the handler appends a turn exactly when the pending transcription and
    the pending response are then both non-empty, and empties both; when
    they are not both non-empty it leaves the history alone and keeps the
    pending transcription, and it empties the response buffer all the
    same.  The second version does the same when a manual response is
    still awaited after the message's transcription results have been
    taken, and otherwise leaves history, transcription and response
    buffer as the collected fragments left them. *)
Theorem generation_complete_records_full_turns
    (content : ServerContent) (s : state) :
  generationComplete content = true ->
  completion_outcome (accumulate content s)
    (onmessage (mkMessage (Some content)) s)
  /\ if awaitingManualResponse (accumulate_manual Date_now content s)
     then completion_outcome (accumulate_manual Date_now content s)
            (onmessage_manual (mkMessage (Some content)) s)
     else conversationHistory (onmessage_manual (mkMessage (Some content)) s)
          = conversationHistory (accumulate_manual Date_now content s)
          /\ currentTranscription
               (onmessage_manual (mkMessage (Some content)) s)
             = currentTranscription (accumulate_manual Date_now content s)
          /\ messageBuffer (onmessage_manual (mkMessage (Some content)) s)
             = messageBuffer (accumulate_manual Date_now content s).
Proof.
  intros Hdone.
  unfold Session.onmessage, Session.onmessage_manual.
  cbn [serverContent]. rewrite Hdone.
  split.
  - generalize (accumulate content s). intros pending.
    destruct (completeGeneration_outcome pending) as (H1 & H2 & _).
    destruct (turnComplete content); assumption.
  - generalize (accumulate_manual Date_now content s). intros pending.
    destruct (completeGeneration_outcome pending) as (_ & _ & H3 & H4).
    destruct (awaitingManualResponse pending) eqn:Hawait; cbn [andb].
    + destruct (turnComplete content); assumption.
    + destruct (turnComplete content); [|repeat split].
      fields pending. repeat split.
Qed.

End WithEnvironment.

(** *** What depends on the version *)

Section WithVersions.

Variable Date_now : nat -> Z.
Variable live_connect : nat -> option session.

(** In the first version no initialization returns a session: the call
    is refused or throws. *)
Lemma first_version_initialization (p : SessionParams)
    (isReconnection : bool) (s : state) :
  Session.initializeGeminiSession Date_now live_connect FirstVersion
    p isReconnection s
  = if isInitializingSession s then (InitRefused, s)
    else (InitThrew,
          emit (NewClient (apiKey p))
            ((if isReconnection then fun s0 => s0
              else fun s0 =>
                     set_reconnectionAttempts 0
                       (set_lastSessionParams (Some p) s0))
               (emit (SessionInitializing true)
                  (set_isInitializingSession true s)))).
Proof.
  unfold Session.initializeGeminiSession, initialize_enter,
    Session.initialize_connect.
  destruct (isInitializingSession s); [reflexivity|].
  destruct isReconnection; reflexivity.
Qed.

Lemma first_version_try_fails (s : state) :
  fst (Session.reconnection_try Date_now live_connect FirstVersion s) = false.
Proof.
  unfold Session.reconnection_try.
  destruct (lastSessionParams s) as [p|]; [|reflexivity].
  rewrite first_version_initialization.
  destruct (isInitializingSession s); reflexivity.
Qed.

Lemma first_version_never_reconnects (s : state) :
  fst (Session.attemptReconnection Date_now live_connect FirstVersion s)
  = false.
Proof.
  remember (maxReconnectionAttempts - reconnectionAttempts s)%nat as budget
    eqn:Hbudget.
  revert s Hbudget.
  induction budget as [budget IH] using lt_wf_ind. intros s Hbudget.
  rewrite attemptReconnection_unfold.
  destruct (reconnection_refused s) eqn:Hguard; [reflexivity|].
  unfold reconnection_refused in Hguard.
  destruct (lastSessionParams s) as [p|] eqn:Hp; [|discriminate].
  apply Nat.leb_gt in Hguard.
  unfold Session.attemptReconnection_resume.
  rewrite (reconnection_try_fails Date_now live_connect FirstVersion p s Hp
             (or_introl eq_refl)).
  pose proof (attempts_after_failed_attempt FirstVersion p s) as Hatt.
  destruct (Nat.ltb (reconnectionAttempts
                       (after_failed_attempt FirstVersion p s))
                    maxReconnectionAttempts); [|reflexivity].
  apply (IH (maxReconnectionAttempts
             - reconnectionAttempts (after_failed_attempt FirstVersion p s))%nat);
    [lia|reflexivity].
Qed.

(** C7: an attempt that got a session from [initializeGeminiSession]
    resets the attempt count to zero, stores the session, leaves the
    conversation history as it was and sends the session one text frame,
    made of the header "Till now all these questions were asked in the
    interview, answer the last one please:", an empty line, and the
    transcriptions of all turns of the history that are not blank after
    trimming, one per line; the model responses are not part of it, and
    when no turn has such a transcription no frame is sent.  An attempt
    returns [true] in no other way.  In the second version an attempt
    whose handshake is accepted gets there after its timer and its
    handshake.  In the first version no attempt does and no run returns
    [true], since the initialization throws before its handshake. *)
Theorem reconnection_success_replays_transcripts
    (p : SessionParams) (s : state) (fresh : session)
    (current : option session) :
  lastSessionParams s = Some p ->
  (reconnectionAttempts s < maxReconnectionAttempts)%nat ->
  isInitializingSession s = false ->
  geminiSessionRef s = Some current ->
  live_connect (handshakes s) = Some fresh ->
  let run :=
    Session.attemptReconnection Date_now live_connect SecondVersion s in
  (fst run = true
   /\ reconnectionAttempts (snd run) = 0%nat
   /\ geminiSessionRef (snd run) = Some (Some fresh)
   /\ conversationHistory (snd run) = conversationHistory s
   /\ trace (snd run)
      = trace s
          ++ [SetTimeout 2000; SessionInitializing true; NewClient (apiKey p);
              LiveConnect p; UpdateStatus "Live session connected";
              SessionInitializing false]
          ++ replayed_frame fresh (conversationHistory s))
  /\ (forall (session0 : session) (s0 : state),
        let after := reconnection_succeeded session0 s0 in
        reconnectionAttempts after = 0%nat
        /\ geminiSessionRef after = Some (Some session0)
        /\ conversationHistory after = conversationHistory s0
        /\ trace after
           = trace s0 ++ replayed_frame session0 (conversationHistory s0))
  /\ (forall (v : Version) (s0 : state),
        fst (Session.reconnection_try Date_now live_connect v s0) = true ->
        exists (p0 : SessionParams) (session0 : session) (s1 : state),
          lastSessionParams s0 = Some p0
          /\ Session.initializeGeminiSession Date_now live_connect v
               p0 true s0
             = (InitSession session0, s1)
          /\ snd (Session.reconnection_try Date_now live_connect v s0)
             = reconnection_succeeded session0 s1)
  /\ (forall s0 : state,
        fst (Session.attemptReconnection Date_now live_connect FirstVersion
               s0)
        = false).
Proof.
  intros Hp Ha Hi Href Hc run.
  split; [|split; [|split]].
  - unfold run. clear run.
    rewrite attemptReconnection_unfold.
    assert (reconnection_refused s = false) as ->.
    { unfold reconnection_refused. rewrite Hp. apply Nat.leb_gt. exact Ha. }
    unfold Session.attemptReconnection_resume, Session.reconnection_try.
    assert (Hinit :
              Session.initializeGeminiSession Date_now live_connect
                SecondVersion p true (reconnection_begin s)
              = (InitSession fresh, connected_attempt p s)).
    { clear - Hi Hc. fields s. subst init.
      unfold Session.initializeGeminiSession, initialize_enter,
        Session.initialize_connect, initialize_settle, reconnection_begin,
        connected_attempt, emit.
      cbn. rewrite Hc. cbn. rewrite <- !app_assoc. reflexivity. }
    assert (Hpb : lastSessionParams (reconnection_begin s) = Some p)
      by (clear - Hp; fields s; exact Hp).
    rewrite Hpb, Hinit.
    replace (geminiSessionRef (connected_attempt p s)) with (Some current)
      by (clear - Href; fields s; symmetry; exact Href).
    cbn [fst snd].
    destruct (reconnection_succeeded_fields fresh (connected_attempt p s))
      as (F1 & F2 & F3 & F4).
    rewrite F1, F2, F3, F4. clear. fields s. cbn.
    rewrite <- !app_assoc. repeat split.
  - intros session0 s0. exact (reconnection_succeeded_fields session0 s0).
  - intros v s0. exact (reconnection_try_succeeds Date_now live_connect v s0).
  - exact first_version_never_reconnects.
Qed.

(** *** One initialization at a time *)

(** C8: a request that reaches [initializeGeminiSession] while the flag
    [isInitializingSession] is set returns [false] (through the
    ['initialize-gemini'] handler as well) and leaves the state and the
    trace as they were: it creates no client and issues no handshake.  In
    the second version a call that has passed the guard issues exactly one
    handshake and clears the flag when the handshake has settled, whether
    it was accepted or rejected.  In the first version a call that has
    passed the guard throws at [getSystemPrompt] before the [try] block:
    it issues no handshake, announces no end, leaves the flag set, and the
    renderer's request rejects; the request after it is refused. *)
Theorem first_version_leaves_the_flag_set
    (p p' : SessionParams) (isReconnection isReconnection' : bool)
    (s : state) :
  isInitializingSession s = false ->
  let call (version : Version) :=
    Session.initializeGeminiSession Date_now live_connect version
      p isReconnection s in
  (fst (call FirstVersion) = InitThrew
   /\ isInitializingSession (snd (call FirstVersion)) = true
   /\ trace (snd (call FirstVersion))
      = trace s ++ [SessionInitializing true; NewClient (apiKey p)]
   /\ handshakes (snd (call FirstVersion)) = handshakes s
   /\ Session.initializeGeminiSession Date_now live_connect FirstVersion
        p' isReconnection' (snd (call FirstVersion))
      = (InitRefused, snd (call FirstVersion))
   /\ fst (Session.ipc_initialize_gemini Date_now live_connect FirstVersion
             p s)
      = None
   /\ isInitializingSession
        (snd (Session.ipc_initialize_gemini Date_now live_connect
                FirstVersion p s))
      = true)
  /\ (fst (call SecondVersion)
      = match live_connect (handshakes s) with
        | Some session => InitSession session
        | None => InitFailed
        end
      /\ isInitializingSession (snd (call SecondVersion)) = false
      /\ length (handshakes_in (trace (snd (call SecondVersion))))
         = S (length (handshakes_in (trace s)))
      /\ length (clients_in (trace (snd (call SecondVersion))))
         = S (length (clients_in (trace s))))
  /\ (forall (version : Version) (s0 : state),
        isInitializingSession s0 = true ->
        Session.initializeGeminiSession Date_now live_connect version
          p' isReconnection' s0
        = (InitRefused, s0)
        /\ Session.ipc_initialize_gemini Date_now live_connect version p' s0
           = (Some false, s0)).
Proof.
  intros Hflag call.
  split; [|split].
  - unfold call, Session.ipc_initialize_gemini. clear call.
    unfold Session.initializeGeminiSession, initialize_enter,
      Session.initialize_connect.
    fields s. subst init.
    destruct isReconnection; unfold emit; cbn; rewrite <- ?app_assoc;
      repeat split.
  - unfold call. clear call.
    unfold Session.initializeGeminiSession, initialize_enter,
      Session.initialize_connect, initialize_settle,
      Session.initializeNewSession, read_clock, emit, handshakes_in,
      clients_in.
    fields s. subst init.
    destruct isReconnection; cbn; destruct (live_connect hs); cbn;
      rewrite ?omap_app; cbn; rewrite ?length_app; cbn;
      repeat split; lia.
  - intros version s0 H0. unfold Session.ipc_initialize_gemini.
    rewrite (initialization_refused Date_now live_connect version
               p' isReconnection' s0 H0),
      (initialization_refused Date_now live_connect version p' false s0 H0).
    split; reflexivity.
Qed.

End WithVersions.

(** *** The theorems at concrete inputs *)

Lemma reconnection_gives_up_after_three_failures_witness :
  let run := attemptReconnection clock0 accepting FirstVersion running in
  fst run = false
  /\ trace (snd run)
     = [SetTimeout 2000; SessionInitializing true; NewClient "key";
        SetTimeout 2000; SetTimeout 2000; UpdateStatus "Session closed"]
  /\ isInitializingSession (snd run) = true.
Proof.
  destruct (reconnection_gives_up_after_three_failures
              clock0 accepting FirstVersion params0 running
              eq_refl eq_refl (or_introl eq_refl))
    as (_ & Hres & Htrace & _ & Hflag & _).
  split; [exact Hres|]. split; [exact Htrace|exact Hflag].
Defined.

(** C3 as first stated fails: a response that completes while no
    transcription is pending is not kept for the next completion.  With an
    empty transcription and the response "answer" pending, the history is
    unchanged and the response buffer is emptied. *)
Lemma response_without_transcription_is_dropped :
  let s := set_messageBuffer "answer" running in
  let content := mkContent None None true true in
  let after := onmessage clock0 (mkMessage (Some content)) s in
  currentTranscription (accumulate content s) = ""
  /\ messageBuffer (accumulate content s) = "answer"
  /\ conversationHistory after = conversationHistory s
  /\ messageBuffer after = ""
  /\ messageBuffer after <> messageBuffer (accumulate content s).
Proof. cbn. repeat split. discriminate. Qed.

(** C6 as first stated fails: closing the session does not call off a
    reconnection attempt that is past its timer.  In the second version,
    with a transport that accepts: a session is started and is up; it is
    closed by the server, and the reconnection run sleeps on its timer;
    the timer fires and the attempt enters its initialization; the
    renderer asks for ['close-session'], which clears the parameters and
    the session slot; the initialization goes on to its handshake, and
    the attempt stores the new session. *)
Lemma close_session_misses_started_attempt :
  let after :=
    Interleaving.schedule clock0 accepting (fun _ => "") true
      [Interleaving.Receive (Run.InStart params0);
       Interleaving.Resume 0; Interleaving.Resume 0;
       Interleaving.Receive (Run.InClose None);
       Interleaving.Resume 0;
       Interleaving.Receive Run.InCloseSession;
       Interleaving.Resume 0; Interleaving.Resume 0]
      Interleaving.booted in
  Interleaving.pending after = []
  /\ lastSessionParams (Interleaving.module_state after) = None
  /\ geminiSessionRef (Interleaving.module_state after)
     = Some (Some 2%nat)
  /\ trace (Interleaving.module_state after)
     = [SessionInitializing true; NewClient "key"; LiveConnect params0;
        UpdateStatus "Live session connected"; SessionInitializing false;
        SetTimeout 2000;
        SessionInitializing true; NewClient "key";
        StopAudioCapture; TransportClose 1%nat;
        LiveConnect params0; UpdateStatus "Live session connected";
        SessionInitializing false].
Proof. vm_compute. repeat split. Qed.

Lemma generation_complete_records_full_turns_witness :
  let s := set_messageBuffer "Use a hash map."
             (set_currentTranscription "[Interviewer]: How?" running) in
  let content := mkContent None None true true in
  conversationHistory (onmessage clock0 (mkMessage (Some content)) s)
  = [mkTurn 1700000000000 "[Interviewer]: How?" "Use a hash map."]
  /\ messageBuffer (onmessage clock0 (mkMessage (Some content)) s) = ""
  /\ currentTranscription (onmessage clock0 (mkMessage (Some content)) s)
     = "".
Proof.
  destruct (generation_complete_records_full_turns clock0
              (mkContent None None true true)
              (set_messageBuffer "Use a hash map."
                 (set_currentTranscription "[Interviewer]: How?" running))
              eq_refl) as [[Hbuf [Hhist Htr]] _].
  split; [exact Hhist|]. split; [exact Hbuf|exact Htr].
Defined.

Lemma authentication_failure_stops_reconnection_witness :
  let text := "API key not valid. Please pass a valid API key." in
  lastSessionParams (onerror (Some text) running) = None
  /\ trace (onclose clock0 accepting SecondVersion (Some text) running)
     = [UpdateStatus "Session closed: Invalid API key"].
Proof.
  destruct (authentication_failure_stops_reconnection clock0 accepting
              SecondVersion
              "API key not valid. Please pass a valid API key."
              "API key not valid" running
              (or_introl eq_refl) eq_refl)
    as ((Hp & _) & (_ & _ & Ht & _) & _).
  split; [exact Hp|exact Ht].
Defined.

Lemma reconnection_success_replays_transcripts_witness :
  let run := attemptReconnection clock0 accepting SecondVersion talked in
  fst run = true
  /\ text_frames_in (trace (snd run))
     = [(1%nat,
         "Till now all these questions were asked in the interview, answer the last one please:"
         +:+ Js.LF +:+ Js.LF +:+ "[Interviewer]: Why Rust?" +:+ Js.LF
         +:+ "[Interviewer]: And Go?")].
Proof.
  destruct (reconnection_success_replays_transcripts clock0 accepting
              params0 talked 1%nat (Some 0%nat)
              eq_refl ltac:(vm_compute; lia) eq_refl eq_refl eq_refl)
    as ((Hok & _ & _ & _ & Htrace) & _).
  split; [exact Hok|]. cbv zeta. rewrite Htrace. reflexivity.
Defined.

Lemma first_version_leaves_the_flag_set_witness :
  let first :=
    ipc_initialize_gemini clock0 accepting FirstVersion params0
      initial_state in
  fst first = None
  /\ isInitializingSession (snd first) = true
  /\ ipc_initialize_gemini clock0 accepting FirstVersion params0 (snd first)
     = (Some false, snd first).
Proof.
  destruct (first_version_leaves_the_flag_set clock0 accepting
              params0 params0 false false initial_state eq_refl)
    as ((_ & _ & _ & _ & _ & Hnone & Hflag) & _ & Hrefuse).
  split; [exact Hnone|]. split; [exact Hflag|].
  apply (Hrefuse FirstVersion _ Hflag).
Defined.

Lemma fresh_start_resets_reconnection_state_witness :
  let locked := onerror (Some "unauthorized") running in
  reconnectionAttempts locked = 3%nat
  /\ lastSessionParams
       (snd (initializeGeminiSession clock0 rejecting SecondVersion
               params0 false locked))
     = Some params0
  /\ reconnectionAttempts
       (snd (initializeGeminiSession clock0 rejecting SecondVersion
               params0 false locked))
     = 0%nat.
Proof.
  destruct (fresh_start_resets_reconnection_state clock0 rejecting
              SecondVersion params0 (onerror (Some "unauthorized") running) eq_refl)
    as (_ & Hp & Ha & _).
  split; [reflexivity|]. split; [exact Hp|exact Ha].
Defined.

End SessionProofs.

(** * Properties of the stereo to mono conversion *)

Module StereoMonoProofs.
Import AudioChunker StereoMono Exhaustive.

(** *** Sixteen-bit samples and their two bytes *)

Lemma holds_from_sound (f : Z -> bool) (count : nat) : forall z x,
  holds_from count z f = true ->
  z <= x < z + Z.of_nat count ->
  f x = true.
Proof.
  induction count as [|count IH]; intros z x H Hx; [lia|].
  cbn [holds_from] in H. apply andb_true_iff in H as [Hz Hrest].
  destruct (Z.eq_dec x z) as [->|Hne]; [exact Hz|].
  apply (IH (z + 1)); [exact Hrest|lia].
Qed.

(** The sign extension [val | (val & 2 ** 15) * 0x1fffe] of a 16-bit
    pattern. *)
Lemma sign_extension (val : Z) :
  0 <= val < 65536 ->
  bitor val (Z.land val (2 ^ 15) * 0x1fffe)
  = if val <? 32768 then val else val - 65536.
Proof.
  intros Hval.
  assert (H : holds_from (Z.to_nat 65536) 0
                (fun v => bitor v (Z.land v (2 ^ 15) * 0x1fffe)
                          =? (if v <? 32768 then v else v - 65536)) = true)
    by (vm_compute; reflexivity).
  apply Z.eqb_eq.
  apply (holds_from_sound _ _ 0 val H). lia.
Qed.

Lemma byte_value_range (b : byte) : 0 <= byte_value b < 256.
Proof.
  unfold byte_value. pose proof (Byte.to_N_bounded b). lia.
Qed.

Lemma byte_of_value (b : byte) (k : Z) :
  byte_of (byte_value b + 256 * k) = b.
Proof.
  unfold byte_of.
  rewrite (Z.mul_comm 256 k), Z_mod_plus_full.
  rewrite Z.mod_small by apply byte_value_range.
  unfold byte_value. rewrite N2Z.id, Byte.of_to_N. reflexivity.
Qed.

(** The sample two bytes read as is a 16-bit integer, and writing it
    gives the two bytes back. *)
Lemma sample_of_bytes (first last : byte) :
  let val := byte_value first + byte_value last * 2 ^ 8 in
  let sample := bitor val (Z.land val (2 ^ 15) * 0x1fffe) in
  - 0x8000 <= sample <= 0x7fff
  /\ byte_of sample = first
  /\ byte_of (Z.shiftr (sample mod 2 ^ 32) 8) = last.
Proof.
  intros val sample.
  pose proof (byte_value_range first) as Hf.
  pose proof (byte_value_range last) as Hl.
  assert (Hval : 0 <= val < 65536) by (unfold val; lia).
  unfold sample. rewrite (sign_extension val Hval).
  change (2 ^ 32) with 4294967296. change (2 ^ 8) with 256 in *.
  rewrite Z.shiftr_div_pow2 by lia. change (2 ^ 8) with 256.
  destruct (val <? 32768) eqn:E;
    [apply Z.ltb_lt in E|apply Z.ltb_ge in E].
  - split; [lia|]. split.
    + unfold val. replace (byte_value first + byte_value last * 256)
        with (byte_value first + 256 * byte_value last) by lia.
      apply byte_of_value.
    + rewrite Z.mod_small by lia.
      replace (val / 256) with (byte_value last + 256 * 0).
      * apply byte_of_value.
      * unfold val. rewrite Z.div_add by lia. rewrite Z.div_small by lia. lia.
  - split; [lia|]. split.
    + replace (val - 65536)
        with (byte_value first + 256 * (byte_value last - 256))
        by (unfold val; lia).
      apply byte_of_value.
    + replace ((val - 65536) mod 4294967296)
        with (val + 4294901760).
      * replace ((val + 4294901760) / 256)
          with (byte_value last + 256 * 65535).
        { apply byte_of_value. }
        unfold val.
        replace (byte_value first + byte_value last * 256 + 4294901760)
          with (byte_value first + (byte_value last + 16776960) * 256)
          by lia.
        rewrite Z.div_add by lia. rewrite Z.div_small by lia. lia.
      * symmetry.
        replace (val - 65536) with (val + 4294901760 + (-1) * 4294967296)
          by lia.
        rewrite Z_mod_plus_full. apply Z.mod_small. lia.
Qed.

(** *** One frame *)

Lemma readInt16LE_bytes (buf : Buffer) (offset : nat) (first last : byte) :
  buf !! offset = Some first ->
  buf !! S offset = Some last ->
  readInt16LE buf offset
  = Some (let val := byte_value first + byte_value last * 2 ^ 8 in
          bitor val (Z.land val (2 ^ 15) * 0x1fffe)).
Proof.
  intros H1 H2. unfold readInt16LE, Buffer in *. rewrite H1, H2.
  reflexivity.
Qed.

Lemma readInt16LE_out_of_range (buf : Buffer) (offset : nat) :
  (length buf <= S offset)%nat -> readInt16LE buf offset = None.
Proof.
  intros H. unfold readInt16LE, Buffer in *.
  destruct (buf !! offset); [|reflexivity].
  rewrite (lookup_ge_None_2 buf (S offset)) by exact H. reflexivity.
Qed.

Lemma writeInt16LE_out_of_range (buf : Buffer) (value : Z) (offset : nat) :
  (length buf <= S offset)%nat -> writeInt16LE buf value offset = None.
Proof.
  intros H. unfold writeInt16LE, Buffer in *.
  destruct ((0x7fff <? value) || (value <? - 0x8000)); [reflexivity|].
  destruct (buf !! offset); [|reflexivity].
  rewrite (lookup_ge_None_2 buf (S offset)) by exact H. reflexivity.
Qed.

(** A complete frame with room for its sample: the read succeeds and the
    write puts the two bytes of the left channel at the sample's place. *)
Lemma downmix_frame (stereoBuffer monoBuffer : Buffer) (i : nat) :
  (S (i * 4) < length stereoBuffer)%nat ->
  (S (i * 2) < length monoBuffer)%nat ->
  exists (first last : byte) (leftSample : Z),
    stereoBuffer !! (i * 4)%nat = Some first
    /\ stereoBuffer !! S (i * 4) = Some last
    /\ readInt16LE stereoBuffer (i * 4) = Some leftSample
    /\ writeInt16LE monoBuffer leftSample (i * 2)
       = Some (<[S (i * 2) := last]> (<[(i * 2)%nat := first]> monoBuffer)).
Proof.
  intros Hs Hm. unfold Buffer in *.
  destruct (lookup_lt_is_Some_2 stereoBuffer (i * 4)) as [first Hf]; [lia|].
  destruct (lookup_lt_is_Some_2 stereoBuffer (S (i * 4))) as [last Hl];
    [lia|].
  destruct (lookup_lt_is_Some_2 monoBuffer (i * 2)) as [m0 Hm0]; [lia|].
  destruct (lookup_lt_is_Some_2 monoBuffer (S (i * 2))) as [m1 Hm1]; [lia|].
  exists first, last. eexists.
  split; [exact Hf|]. split; [exact Hl|].
  split; [apply (readInt16LE_bytes _ _ _ _ Hf Hl)|].
  destruct (sample_of_bytes first last) as (Hrange & Hlo & Hhi).
  cbv zeta in *. unfold writeInt16LE, Buffer. rewrite Hm0, Hm1.
  match goal with
  | |- context [(?a <? ?v) || (?v <? ?b)] =>
      assert ((a <? v) || (v <? b) = false) as ->
        by (apply orb_false_iff; split; apply Z.ltb_ge; lia)
  end.
  rewrite Hlo, Hhi. reflexivity.
Qed.

(** *** The loop *)

Lemma downmix_loop_app (a b : nat) : forall (i : nat) (stereo mono : Buffer),
  downmix_loop (a + b) i stereo mono
  = match downmix_loop a i stereo mono with
    | Some mono' => downmix_loop b (i + a) stereo mono'
    | None => None
    end.
Proof.
  induction a as [|a IH]; intros i stereo mono; cbn [downmix_loop Nat.add].
  - rewrite Nat.add_0_r. reflexivity.
  - destruct (readInt16LE stereo (i * 4)) as [left|]; [|reflexivity].
    destruct (writeInt16LE mono left (i * 2)) as [mono1|]; [|reflexivity].
    rewrite IH. replace (S i + a)%nat with (i + S a)%nat by lia.
    reflexivity.
Qed.

(** Over complete frames with room in the mono buffer the loop goes
    through, keeps the length of the mono buffer, writes the two left bytes
    of every frame it visits and leaves the other bytes alone. *)
Lemma downmix_loop_complete (stereo : Buffer) (count : nat) :
  forall (i : nat) (mono : Buffer),
    (4 * (i + count) <= length stereo)%nat ->
    (2 * (i + count) <= length mono)%nat ->
    exists mono' : Buffer,
      downmix_loop count i stereo mono = Some mono'
      /\ length mono' = length mono
      /\ (forall j : nat, (i <= j < i + count)%nat ->
            mono' !! (j * 2)%nat = stereo !! (j * 4)%nat
            /\ mono' !! S (j * 2) = stereo !! S (j * 4))
      /\ (forall k : nat, (k < i * 2 \/ (i + count) * 2 <= k)%nat ->
            mono' !! k = mono !! k).
Proof.
  unfold Buffer in *.
  induction count as [|count IH]; intros i mono Hs Hm.
  - exists mono. split; [reflexivity|]. split; [reflexivity|].
    split; [intros j Hj; lia|intros k Hk; reflexivity].
  - destruct (downmix_frame stereo mono i) as
      (first & last & left & Hf & Hl & Hread & Hwrite); [lia|lia|].
    cbn [downmix_loop]. rewrite Hread, Hwrite.
    set (mono1 := <[S (i * 2) := last]> (<[(i * 2)%nat := first]> mono)).
    assert (Hlen1 : length mono1 = length mono)
      by (unfold mono1; rewrite !length_insert; reflexivity).
    destruct (IH (S i) mono1) as (mono' & Hrun & Hlen & Hvisited & Hother);
      [lia|lia|].
    exists mono'. split; [exact Hrun|]. split; [lia|]. split.
    + intros j Hj. destruct (Nat.eq_dec j i) as [->|Hne].
      * rewrite !Hother by lia. unfold mono1. split.
        -- rewrite list_lookup_insert_ne by lia.
           rewrite list_lookup_insert_eq by lia. symmetry. exact Hf.
        -- rewrite list_lookup_insert_eq
             by (rewrite length_insert; lia).
           symmetry. exact Hl.
      * apply Hvisited. lia.
    + intros k Hk. rewrite Hother by lia. unfold mono1.
      rewrite !list_lookup_insert_ne by lia. reflexivity.
Qed.

(** *** The conversion *)

(** The conversion of a buffer of whole frames. *)
Lemma convertStereoToMono_whole_frames
    (stereoBuffer : Buffer) (frames : nat) :
  length stereoBuffer = (4 * frames)%nat ->
  exists monoBuffer : Buffer,
    convertStereoToMono stereoBuffer = Some monoBuffer
    /\ length monoBuffer = (2 * frames)%nat
    /\ (forall i : nat, (i < frames)%nat ->
          monoBuffer !! (i * 2)%nat = stereoBuffer !! (i * 4)%nat
          /\ monoBuffer !! S (i * 2) = stereoBuffer !! S (i * 4)
          /\ readInt16LE monoBuffer (i * 2)
             = readInt16LE stereoBuffer (i * 4)).
Proof.
  intros Hlen. unfold convertStereoToMono, Buffer_alloc.
  assert (Hcount : ((length stereoBuffer + 3) / 4 = frames)%nat).
  { rewrite Hlen. symmetry. apply (Nat.div_unique _ 4 frames 3); lia. }
  assert (Hsize : (length stereoBuffer / 2 = 2 * frames)%nat).
  { rewrite Hlen. symmetry. apply (Nat.div_unique _ 2 (2 * frames) 0); lia. }
  rewrite Hcount, Hsize.
  destruct (downmix_loop_complete stereoBuffer frames 0
              (replicate (2 * frames) x00))
    as (mono & Hrun & Hl & Hvisited & _).
  { lia. }
  { rewrite length_replicate. lia. }
  exists mono. split; [exact Hrun|].
  split; [rewrite Hl, length_replicate; reflexivity|].
  intros i Hi. destruct (Hvisited i ltac:(lia)) as [H0 H1].
  split; [exact H0|]. split; [exact H1|].
  unfold readInt16LE, Buffer in *. rewrite H0, H1. reflexivity.
Qed.

(** X1: on a buffer of whole stereo frames (a length of 4 * [frames]
    bytes) the conversion returns a buffer of 2 * [frames] bytes whose i-th
    16-bit sample is the left sample of the i-th frame: the same two bytes,
    hence the same number; the right channel is not read. *)
Theorem convertStereoToMono_takes_left_channel
    (stereoBuffer : Buffer) (frames : nat) :
  length stereoBuffer = (4 * frames)%nat ->
  exists monoBuffer : Buffer,
    convertStereoToMono stereoBuffer = Some monoBuffer
    /\ length monoBuffer = (2 * frames)%nat
    /\ (forall i : nat, (i < frames)%nat ->
          monoBuffer !! (i * 2)%nat = stereoBuffer !! (i * 4)%nat
          /\ monoBuffer !! S (i * 2) = stereoBuffer !! S (i * 4)
          /\ readInt16LE monoBuffer (i * 2)
             = readInt16LE stereoBuffer (i * 4)).
Proof. exact (convertStereoToMono_whole_frames stereoBuffer frames). Qed.

Lemma convertStereoToMono_takes_left_channel_witness :
  convertStereoToMono [x34; x12; xaa; xbb; x00; x80; xcc; xdd]
  = Some [x34; x12; x00; x80]
  /\ exists monoBuffer : Buffer,
       convertStereoToMono [x34; x12; xaa; xbb; x00; x80; xcc; xdd]
       = Some monoBuffer
       /\ length monoBuffer = 4%nat.
Proof.
  split; [reflexivity|].
  destruct (convertStereoToMono_takes_left_channel
              [x34; x12; xaa; xbb; x00; x80; xcc; xdd] 2 eq_refl)
    as (mono & Hrun & Hlen & _).
  exists mono. split; [exact Hrun|exact Hlen].
Defined.

(** X2: the conversion returns exactly when the buffer consists of whole
    frames.  On a length that is not a multiple of 4 the read of the last,
    partial frame or the write of its sample is out of range and the
    conversion throws. *)
Theorem convertStereoToMono_throws_on_partial_frame (stereoBuffer : Buffer) :
  convertStereoToMono stereoBuffer = None
  <-> (length stereoBuffer mod 4 <> 0)%nat.
Proof.
  pose proof (Nat.div_mod_eq (length stereoBuffer) 4) as Hdm.
  pose proof (Nat.mod_upper_bound (length stereoBuffer) 4 ltac:(lia)) as Hr.
  set (q := (length stereoBuffer / 4)%nat) in *.
  set (r := (length stereoBuffer mod 4)%nat) in *.
  split.
  - intros Hnone Hzero.
    destruct (convertStereoToMono_whole_frames stereoBuffer q)
      as (mono & Hrun & _); [lia|].
    congruence.
  - intros Hr0. unfold convertStereoToMono, Buffer_alloc.
    assert (Hcount : ((length stereoBuffer + 3) / 4 = q + 1)%nat).
    { symmetry. apply (Nat.div_unique _ 4 (q + 1) (r - 1)); lia. }
    rewrite Hcount, downmix_loop_app.
    set (size := (length stereoBuffer / 2)%nat).
    assert (Hsize : (2 * q <= size <= 2 * q + 1
                     /\ (r = 1 -> size = 2 * q))%nat).
    { unfold size.
      pose proof (Nat.div_mod_eq (length stereoBuffer) 2).
      pose proof (Nat.mod_upper_bound (length stereoBuffer) 2 ltac:(lia)).
      lia. }
    destruct (downmix_loop_complete stereoBuffer q 0 (replicate size x00))
      as (mono & Hrun & Hl & _).
    { lia. }
    { rewrite length_replicate. lia. }
    rewrite Hrun. rewrite length_replicate in Hl.
    cbn [downmix_loop Nat.add].
    destruct (Nat.eq_dec r 1%nat) as [Hr1|Hr1].
    + rewrite readInt16LE_out_of_range by lia. reflexivity.
    + destruct (readInt16LE stereoBuffer (q * 4)) as [left|]; [|reflexivity].
      rewrite writeInt16LE_out_of_range by lia. reflexivity.
Qed.

Lemma downmix_all_chunks (chunks : list Buffer) :
  Forall (fun chunk => Z.of_nat (length chunk) = CHUNK_SIZE) chunks ->
  exists monoChunks : list Buffer,
    downmix_all chunks = Some monoChunks
    /\ length monoChunks = length chunks
    /\ Forall (fun monoChunk => Z.of_nat (length monoChunk) = 4800)
         monoChunks.
Proof.
  induction 1 as [|chunk chunks Hchunk _ IH].
  - exists []. split; [reflexivity|]. split; [reflexivity|constructor].
  - destruct IH as (monos & Hrun & Hlen & Hsizes).
    destruct (convertStereoToMono_whole_frames chunk (Z.to_nat 2400))
      as (mono & Hmono & Hmlen & _).
    { rewrite ChunkerProofs.CHUNK_SIZE_eq in Hchunk. lia. }
    exists (mono :: monos). cbn [downmix_all length].
    rewrite Hmono, Hrun. split; [reflexivity|]. split; [lia|].
    constructor; [lia|exact Hsizes].
Qed.

(** X3: every chunk the ['data'] handler cuts off is converted without an
    error, into 4800 bytes: 2400 mono samples, the 100 ms the chunk
    holds at 24000 Hz. *)
Theorem emitted_chunks_downmix (audioBuffer data : Buffer) :
  exists monoChunks : list Buffer,
    downmix_all (fst (on_data audioBuffer data)) = Some monoChunks
    /\ length monoChunks = length (fst (on_data audioBuffer data))
    /\ Forall (fun monoChunk => Z.of_nat (length monoChunk) = 4800)
         monoChunks
    /\ 4800 = SAMPLE_RATE * BYTES_PER_SAMPLE / 10.
Proof.
  destruct (ChunkerProofs.on_data_spec audioBuffer data) as (Hall & _ & _).
  destruct (downmix_all_chunks _ Hall) as (monos & Hrun & Hlen & Hsizes).
  exists monos. split; [exact Hrun|]. split; [exact Hlen|].
  split; [exact Hsizes|reflexivity].
Qed.

End StereoMonoProofs.

(** * More properties of the session controller *)

Module ReconnectionProofs.
Import Session Trace SessionSpec Run.

Local Open Scope string_scope.
Local Open Scope list_scope.

#[local] Arguments reconnectionContextHeader : simpl never.
#[local] Arguments sendReconnectionContext : simpl never.
#[local] Arguments Js.truthy : simpl never.
#[local] Arguments Js.trim : simpl never.
#[local] Opaque Session.attemptReconnection.

Ltac fields s :=
  destruct s as [id tr hist init rvq vqt amr buf att par ref tc clk hs];
  cbn [currentSessionId currentTranscription conversationHistory
       isInitializingSession recentVoiceQuestion voiceQuestionTimestamp
       awaitingManualResponse messageBuffer reconnectionAttempts
       lastSessionParams geminiSessionRef trace clockReads handshakes] in *.

Section WithEnvironment.

Variable Date_now : nat -> Z.
Variable live_connect : nat -> option session.
Variable version : Version.

#[local] Abbreviation attemptReconnection :=
  (attemptReconnection Date_now live_connect version).
#[local] Abbreviation reconnection_try :=
  (reconnection_try Date_now live_connect version).
#[local] Abbreviation onclose := (onclose Date_now live_connect version).

(** What one attempt does, from the guard it passed to the end of its
    [try] block: one timer, at most one handshake (none in the first
    version), the conversation and the parameters untouched; the flag is
    as it was, unless the attempt was one of the first version that
    passed the guard of [initializeGeminiSession]; the count is zero and
    a session is stored when it succeeded, and one more otherwise. *)
Lemma reconnection_try_shape (s : state) :
  reconnection_refused s = false ->
  same_conversation s (snd (reconnection_try (reconnection_begin s)))
  /\ timers_in (trace (snd (reconnection_try (reconnection_begin s))))
     = timers_in (trace s) ++ [reconnectionDelay]
  /\ (length (handshakes_in
                (trace (snd (reconnection_try (reconnection_begin s)))))
      <= length (handshakes_in (trace s))
         + handshakes_per_attempt version)%nat
  /\ (handshakes (snd (reconnection_try (reconnection_begin s)))
      <= handshakes s + handshakes_per_attempt version)%nat
  /\ isInitializingSession (snd (reconnection_try (reconnection_begin s)))
     = isInitializingSession s || leaves_flag_set version
  /\ if fst (reconnection_try (reconnection_begin s))
     then version = SecondVersion
          /\ reconnectionAttempts
               (snd (reconnection_try (reconnection_begin s))) = 0%nat
          /\ exists fresh : session,
               geminiSessionRef
                 (snd (reconnection_try (reconnection_begin s)))
               = Some (Some fresh)
     else reconnectionAttempts
            (snd (reconnection_try (reconnection_begin s)))
          = S (reconnectionAttempts s)
          /\ geminiSessionRef
               (snd (reconnection_try (reconnection_begin s)))
             = geminiSessionRef s.
Proof.
  unfold reconnection_refused, Session.reconnection_try. fields s.
  unfold reconnection_begin, emit, same_conversation, timers_in,
    handshakes_in, handshakes_per_attempt, leaves_flag_set. cbn.
  destruct par as [p|]; cbn; [intros _|discriminate].
  unfold Session.initializeGeminiSession, initialize_enter,
    Session.initialize_connect, initialize_settle, reconnection_succeeded,
    emit. cbn.
  destruct init; cbn.
  - destruct ref, version; cbn; rewrite !omap_app; cbn;
      rewrite ?app_nil_r, ?length_app; cbn; repeat split; lia.
  - destruct version; cbn.
    + destruct ref; cbn; rewrite !omap_app; cbn;
        rewrite ?app_nil_r, ?length_app; cbn; repeat split; lia.
    + destruct (live_connect hs) as [fresh|]; cbn.
      * destruct ref as [c|]; cbn.
        -- match goal with
           | |- context [sendReconnectionContext ?x] =>
               destruct (SessionProofs.sendReconnectionContext_cases x)
                 as [->|(c' & m & ->)]
           end; unfold emit; cbn; rewrite !omap_app; cbn;
             rewrite ?app_nil_r, ?length_app; cbn;
             repeat split; eauto; lia.
        -- rewrite !omap_app; cbn; rewrite ?app_nil_r, ?length_app; cbn.
           repeat split; lia.
      * destruct ref; cbn; rewrite !omap_app; cbn;
          rewrite ?app_nil_r, ?length_app; cbn; repeat split; lia.
Qed.

Lemma same_conversation_refl (s : state) : same_conversation s s.
Proof. unfold same_conversation. repeat split. Qed.

Lemma same_conversation_trans (s1 s2 s3 : state) :
  same_conversation s1 s2 -> same_conversation s2 s3 ->
  same_conversation s1 s3.
Proof.
  unfold same_conversation.
  intros (A1 & A2 & A3 & A4 & A5 & A6 & A7 & A8)
         (B1 & B2 & B3 & B4 & B5 & B6 & B7 & B8).
  repeat split; congruence.
Qed.

Lemma same_conversation_emit (e : event) (s : state) :
  same_conversation s (emit e s).
Proof. fields s. unfold same_conversation. repeat split. Qed.

Lemma emit_fields (e : event) (s : state) :
  trace (emit e s) = trace s ++ [e]
  /\ reconnectionAttempts (emit e s) = reconnectionAttempts s
  /\ geminiSessionRef (emit e s) = geminiSessionRef s
  /\ isInitializingSession (emit e s) = isInitializingSession s
  /\ handshakes (emit e s) = handshakes s.
Proof. fields s. repeat split. Qed.

Lemma flag_once_set (flag left : bool) (k : nat) :
  (flag || left) || left && negb (Nat.eqb k 0)
  = flag || left && negb (Nat.eqb (S k) 0).
Proof. destruct flag, left, k; reflexivity. Qed.

Lemma status_is_no_timer_or_handshake (m : string) (s : state) :
  timers_in (trace (emit (UpdateStatus m) s)) = timers_in (trace s)
  /\ handshakes_in (trace (emit (UpdateStatus m) s))
     = handshakes_in (trace s)
  /\ last (trace (emit (UpdateStatus m) s)) = Some (UpdateStatus m).
Proof.
  destruct (emit_fields (UpdateStatus m) s) as (-> & _).
  unfold timers_in, handshakes_in. rewrite !omap_app, last_snoc. cbn.
  rewrite !app_nil_r. repeat split.
Qed.

(** The shape of a whole reconnection run, by induction on the attempts
    that are left. *)
Lemma attemptReconnection_shape (s : state) :
  exists attempts_made : nat,
    (attempts_made <= maxReconnectionAttempts - reconnectionAttempts s)%nat
    /\ timers_in (trace (snd (attemptReconnection s)))
       = timers_in (trace s) ++ replicate attempts_made reconnectionDelay
    /\ (length (handshakes_in (trace (snd (attemptReconnection s))))
        <= length (handshakes_in (trace s))
           + attempts_made * handshakes_per_attempt version)%nat
    /\ (handshakes (snd (attemptReconnection s))
        <= handshakes s + attempts_made * handshakes_per_attempt version)%nat
    /\ same_conversation s (snd (attemptReconnection s))
    /\ isInitializingSession (snd (attemptReconnection s))
       = isInitializingSession s
         || leaves_flag_set version && negb (Nat.eqb attempts_made 0)
    /\ (reconnectionAttempts (snd (attemptReconnection s))
        <= Nat.max (reconnectionAttempts s) maxReconnectionAttempts)%nat
    /\ if fst (attemptReconnection s)
       then version = SecondVersion
            /\ reconnectionAttempts (snd (attemptReconnection s)) = 0%nat
            /\ exists fresh : session,
                 geminiSessionRef (snd (attemptReconnection s))
                 = Some (Some fresh)
       else last (trace (snd (attemptReconnection s)))
            = Some (UpdateStatus "Session closed")
            /\ geminiSessionRef (snd (attemptReconnection s))
               = geminiSessionRef s.
Proof.
  remember (maxReconnectionAttempts - reconnectionAttempts s)%nat as budget
    eqn:Hbudget.
  revert s Hbudget.
  induction budget as [budget IH] using lt_wf_ind. intros s Hbudget.
  rewrite (SessionProofs.attemptReconnection_unfold
             Date_now live_connect version s).
  destruct (reconnection_refused s) eqn:Hguard.
  - exists 0%nat. cbn [fst snd replicate Nat.eqb negb].
    destruct (status_is_no_timer_or_handshake "Session closed" s)
      as (Ht & Hh & Hlast).
    destruct (emit_fields (UpdateStatus "Session closed") s)
      as (_ & Ha & Hr & Hi & Hhs).
    rewrite Ht, Hh, Ha, Hr, Hi, Hhs, Hlast, app_nil_r, andb_false_r,
      orb_false_r.
    split; [lia|]. split; [reflexivity|]. split; [lia|]. split; [lia|].
    split; [apply same_conversation_emit|].
    split; [reflexivity|]. split; [lia|]. split; reflexivity.
  - assert (Hlt : (reconnectionAttempts s < maxReconnectionAttempts)%nat).
    { unfold reconnection_refused in Hguard.
      destruct (lastSessionParams s); [|discriminate].
      apply Nat.leb_gt in Hguard. exact Hguard. }
    unfold Session.attemptReconnection_resume.
    destruct (reconnection_try_shape s Hguard)
      as (Hconv & Htim & Hhs & Hcount & Hflag & Hend).
    destruct (reconnection_try (reconnection_begin s)) as [[|] s1] eqn:Htry;
      cbn [fst snd] in *.
    + exists 1%nat. cbn [replicate Nat.eqb negb].
      rewrite andb_true_r, Nat.mul_1_l.
      destruct Hend as (Hv & Ha & Hr).
      split; [lia|]. split; [exact Htim|]. split; [lia|]. split; [lia|].
      split; [exact Hconv|]. split; [exact Hflag|].
      split; [lia|]. split; [exact Hv|]. split; [exact Ha|exact Hr].
    + destruct Hend as [Ha Hr].
      destruct (Nat.ltb (reconnectionAttempts s1) maxReconnectionAttempts)
        eqn:Hmore.
      * apply Nat.ltb_lt in Hmore.
        destruct (IH (maxReconnectionAttempts - reconnectionAttempts s1)%nat
                    ltac:(lia) s1 eq_refl)
          as (k & Hk & Ht' & Hh' & Hn' & Hc' & Hf' & Hb' & Hend').
        exists (S k).
        split; [lia|]. split.
        { rewrite Ht', Htim, <- app_assoc. reflexivity. }
        split; [lia|]. split; [lia|].
        split; [exact (same_conversation_trans _ _ _ Hconv Hc')|].
        split; [rewrite Hf', Hflag; apply flag_once_set|]. split; [lia|].
        destruct (fst (attemptReconnection s1)); [exact Hend'|].
        destruct Hend' as [Hl' Hr']. split; [exact Hl'|congruence].
      * apply Nat.ltb_ge in Hmore.
        exists 1%nat. cbn [fst snd replicate Nat.eqb negb].
        rewrite andb_true_r, Nat.mul_1_l.
        destruct (status_is_no_timer_or_handshake "Session closed" s1)
          as (Ht1 & Hh1 & Hlast).
        destruct (emit_fields (UpdateStatus "Session closed") s1)
          as (_ & Ha1 & Hr1 & Hi1 & Hhs1).
        rewrite Ht1, Hh1, Ha1, Hr1, Hi1, Hhs1, Hlast.
        split; [lia|]. split; [exact Htim|]. split; [lia|]. split; [lia|].
        split; [exact (same_conversation_trans _ _ _ Hconv
                         (same_conversation_emit _ _))|].
        split; [exact Hflag|]. split; [lia|].
        split; [reflexivity|exact Hr].
Qed.

(** X4: whatever the environment does and whatever state it starts from, a
    reconnection run makes at most [maxReconnectionAttempts] minus the
    current count attempts: it sleeps that many times at most on its
    timer of [reconnectionDelay] (the only timers the trace records) and
    issues at most as many handshakes, none at all in the first version.
    It leaves the conversation and the stored parameters as they were and
    never pushes the count above the maximum.  The initialization flag is
    as it was in the second version; the first version leaves it set once
    an attempt was made.  The run returns [true], which only the second
    version does, with the count at zero and a session stored, or
    [false] with "Session closed" as the last thing it did and the
    session slot untouched. *)
Theorem reconnection_is_bounded (s : state) :
  exists attempts_made : nat,
    (attempts_made <= maxReconnectionAttempts - reconnectionAttempts s)%nat
    /\ timers_in (trace (snd (attemptReconnection s)))
       = timers_in (trace s) ++ replicate attempts_made reconnectionDelay
    /\ (length (handshakes_in (trace (snd (attemptReconnection s))))
        <= length (handshakes_in (trace s))
           + attempts_made * handshakes_per_attempt version)%nat
    /\ (handshakes (snd (attemptReconnection s))
        <= handshakes s + attempts_made * handshakes_per_attempt version)%nat
    /\ same_conversation s (snd (attemptReconnection s))
    /\ isInitializingSession (snd (attemptReconnection s))
       = isInitializingSession s
         || leaves_flag_set version && negb (Nat.eqb attempts_made 0)
    /\ (reconnectionAttempts (snd (attemptReconnection s))
        <= Nat.max (reconnectionAttempts s) maxReconnectionAttempts)%nat
    /\ if fst (attemptReconnection s)
       then version = SecondVersion
            /\ reconnectionAttempts (snd (attemptReconnection s)) = 0%nat
            /\ exists fresh : session,
                 geminiSessionRef (snd (attemptReconnection s))
                 = Some (Some fresh)
       else last (trace (snd (attemptReconnection s)))
            = Some (UpdateStatus "Session closed")
            /\ geminiSessionRef (snd (attemptReconnection s))
               = geminiSessionRef s.
Proof. exact (attemptReconnection_shape s). Qed.

End WithEnvironment.

(** *** Retrying until the transport accepts (second version) *)

Section SecondVersionRetries.

Variable Date_now : nat -> Z.
Variable live_connect : nat -> option session.

#[local] Abbreviation attemptReconnection :=
  (attemptReconnection Date_now live_connect SecondVersion).
#[local] Abbreviation after_failed_attempt :=
  (after_failed_attempt SecondVersion).

Lemma failed_attempt_reads (p : SessionParams) (s : state) :
  isInitializingSession s = false ->
  timers_in (trace (after_failed_attempt p s))
  = timers_in (trace s) ++ [reconnectionDelay]
  /\ handshakes_in (trace (after_failed_attempt p s))
     = handshakes_in (trace s) ++ [p]
  /\ text_frames_in (trace (after_failed_attempt p s))
     = text_frames_in (trace s)
  /\ handshakes (after_failed_attempt p s) = S (handshakes s)
  /\ reconnectionAttempts (after_failed_attempt p s)
     = S (reconnectionAttempts s)
  /\ isInitializingSession (after_failed_attempt p s) = false
  /\ lastSessionParams (after_failed_attempt p s) = lastSessionParams s
  /\ geminiSessionRef (after_failed_attempt p s) = geminiSessionRef s
  /\ conversationHistory (after_failed_attempt p s) = conversationHistory s.
Proof.
  intros Hi. fields s. subst init.
  unfold SessionSpec.after_failed_attempt, failed_attempt,
    failed_initialization, leaves_flag_set, timers_in, handshakes_in,
    text_frames_in.
  cbn. rewrite !omap_app. cbn. rewrite ?app_nil_r. repeat split.
Qed.

Lemma accepted_attempt (p : SessionParams) (s : state) (fresh : session)
    (current : option session) :
  lastSessionParams s = Some p ->
  (reconnectionAttempts s < maxReconnectionAttempts)%nat ->
  isInitializingSession s = false ->
  geminiSessionRef s = Some current ->
  live_connect (handshakes s) = Some fresh ->
  fst (attemptReconnection s) = true
  /\ reconnectionAttempts (snd (attemptReconnection s)) = 0%nat
  /\ geminiSessionRef (snd (attemptReconnection s)) = Some (Some fresh)
  /\ conversationHistory (snd (attemptReconnection s))
     = conversationHistory s
  /\ timers_in (trace (snd (attemptReconnection s)))
     = timers_in (trace s) ++ [reconnectionDelay]
  /\ handshakes_in (trace (snd (attemptReconnection s)))
     = handshakes_in (trace s) ++ [p]
  /\ text_frames_in (trace (snd (attemptReconnection s)))
     = text_frames_in (trace s)
       ++ match replayed_transcriptions (conversationHistory s) with
          | [] => []
          | questions =>
              [(fresh,
                reconnectionContextHeader +:+ Js.join questions Js.LF)]
          end.
Proof.
  intros Hp Ha Hi Href Hc.
  rewrite (SessionProofs.attemptReconnection_unfold
             Date_now live_connect SecondVersion s).
  assert (reconnection_refused s = false) as ->.
  { unfold reconnection_refused. rewrite Hp. apply Nat.leb_gt. exact Ha. }
  unfold Session.attemptReconnection_resume, Session.reconnection_try.
  fields s. subst par init ref.
  unfold Session.initializeGeminiSession, initialize_enter,
    Session.initialize_connect, initialize_settle, reconnection_succeeded,
    reconnection_begin, emit.
  cbn. rewrite Hc. cbn.
  rewrite (SessionProofs.sendReconnectionContext_frames fresh)
    by reflexivity.
  cbn [conversationHistory].
  unfold timers_in, handshakes_in, text_frames_in.
  destruct (replayed_transcriptions hist) as [|q qs]; unfold emit; cbn;
    rewrite !omap_app; cbn; rewrite ?app_nil_r; repeat split.
Qed.

(** X5: the reconnection run of the second version retries until the
    transport accepts.  When the next [rejected] handshakes are rejected
    and the one after them is accepted, with that many attempts still
    left, the run returns [true] after [rejected + 1] timers and as many
    handshakes, all with the stored parameters; it stores the session of
    the accepted handshake, resets the count to zero, and replays the
    transcriptions to that session, once. *)
Theorem reconnection_retries_until_accepted (p : SessionParams)
    (rejected : nat) (fresh : session) :
  forall (s : state) (current : option session),
  lastSessionParams s = Some p ->
  isInitializingSession s = false ->
  geminiSessionRef s = Some current ->
  (reconnectionAttempts s + rejected < maxReconnectionAttempts)%nat ->
  (forall k : nat, (k < rejected)%nat ->
                   live_connect (handshakes s + k) = None) ->
  live_connect (handshakes s + rejected) = Some fresh ->
  fst (attemptReconnection s) = true
  /\ reconnectionAttempts (snd (attemptReconnection s)) = 0%nat
  /\ geminiSessionRef (snd (attemptReconnection s)) = Some (Some fresh)
  /\ conversationHistory (snd (attemptReconnection s))
     = conversationHistory s
  /\ timers_in (trace (snd (attemptReconnection s)))
     = timers_in (trace s) ++ replicate (S rejected) reconnectionDelay
  /\ handshakes_in (trace (snd (attemptReconnection s)))
     = handshakes_in (trace s) ++ replicate (S rejected) p
  /\ text_frames_in (trace (snd (attemptReconnection s)))
     = text_frames_in (trace s)
       ++ match replayed_transcriptions (conversationHistory s) with
          | [] => []
          | questions =>
              [(fresh,
                reconnectionContextHeader +:+ Js.join questions Js.LF)]
          end.
Proof.
  induction rejected as [|rejected IH]; intros s current Hp Hi Href Ha Hrej Hacc.
  - rewrite Nat.add_0_r in *.
    exact (accepted_attempt p s fresh current Hp Ha Hi Href Hacc).
  - assert (Hfirst : live_connect (handshakes s) = None).
    { rewrite <- (Nat.add_0_r (handshakes s)). apply Hrej. lia. }
    rewrite (SessionProofs.attemptReconnection_unfold
               Date_now live_connect SecondVersion s).
    assert (reconnection_refused s = false) as ->.
    { unfold reconnection_refused. rewrite Hp. apply Nat.leb_gt. lia. }
    unfold Session.attemptReconnection_resume.
    rewrite (SessionProofs.reconnection_try_fails Date_now live_connect
               SecondVersion p s Hp (or_intror (or_intror Hfirst))).
    destruct (failed_attempt_reads p s Hi)
      as (Ht & Hh & Hf & Hhs & Hatt & Hi' & Hp' & Href' & Hhist).
    assert (Hmore : Nat.ltb (reconnectionAttempts (after_failed_attempt p s))
                      maxReconnectionAttempts = true)
      by (apply Nat.ltb_lt; lia).
    rewrite Hmore.
    destruct (IH (after_failed_attempt p s) current)
      as (R1 & R2 & R3 & R4 & R5 & R6 & R7).
    + rewrite Hp'. exact Hp.
    + exact Hi'.
    + rewrite Href'. exact Href.
    + lia.
    + intros k Hk. rewrite Hhs.
      replace (S (handshakes s) + k)%nat with (handshakes s + S k)%nat
        by lia.
      apply Hrej. lia.
    + rewrite Hhs.
      replace (S (handshakes s) + rejected)%nat
        with (handshakes s + S rejected)%nat by lia.
      exact Hacc.
    + rewrite Hhist in *. rewrite Ht in R5. rewrite Hh in R6.
      rewrite Hf in R7. rewrite <- app_assoc in R5, R6.
      split; [exact R1|]. split; [exact R2|]. split; [exact R3|].
      split; [exact R4|]. split; [exact R5|]. split; [exact R6|exact R7].
Qed.

End SecondVersionRetries.

Lemma reconnection_retries_until_accepted_witness :
  let live_connect :=
    fun k : nat => match k with 0%nat | 1%nat => None | _ => Some 7%nat end in
  let r := Session.attemptReconnection Examples.clock0 live_connect
             SecondVersion Examples.talked in
  fst r = true
  /\ geminiSessionRef (snd r) = Some (Some 7%nat)
  /\ timers_in (trace (snd r)) = [2000; 2000; 2000]
  /\ handshakes_in (trace (snd r))
     = [Examples.params0; Examples.params0; Examples.params0].
Proof.
  destruct (reconnection_retries_until_accepted Examples.clock0
              (fun k : nat =>
                 match k with 0%nat | 1%nat => None | _ => Some 7%nat end)
              Examples.params0 2 7%nat Examples.talked (Some 0%nat)
              eq_refl eq_refl eq_refl ltac:(vm_compute; lia)
              ltac:(intros [|[|k]] Hk; [reflexivity|reflexivity|lia])
              eq_refl)
    as (Hok & _ & Href & _ & Htimers & Hhs & _).
  split; [exact Hok|]. split; [exact Href|].
  split; [exact Htimers|exact Hhs].
Defined.

End ReconnectionProofs.

(** * Transcriptions, message handling and runs of the module *)

Module RunProofs.
Import Session Trace SessionSpec Ipc Manual Run.

Local Open Scope string_scope.
Local Open Scope list_scope.

#[local] Arguments reconnectionContextHeader : simpl never.
#[local] Arguments sendReconnectionContext : simpl never.
#[local] Arguments Js.trim : simpl never.
#[local] Opaque Session.attemptReconnection.

Ltac fields s :=
  destruct s as [id tr hist init rvq vqt amr buf att par ref tc clk hs];
  cbn [currentSessionId currentTranscription conversationHistory
       isInitializingSession recentVoiceQuestion voiceQuestionTimestamp
       awaitingManualResponse messageBuffer reconnectionAttempts
       lastSessionParams geminiSessionRef trace clockReads handshakes] in *.

(** *** Strings *)

Lemma append_assoc (a b c : string) : (a +:+ b) +:+ c = a +:+ b +:+ c.
Proof. induction a as [|x a IH]; cbn; [reflexivity|]. rewrite IH. reflexivity. Qed.

Lemma append_empty_r (a : string) : a +:+ "" = a.
Proof. induction a as [|x a IH]; cbn; [reflexivity|]. rewrite IH. reflexivity. Qed.

Lemma append_empty (a b : string) : a +:+ b = "" <-> a = "" /\ b = "".
Proof.
  split.
  - destruct a; cbn; [intros ->; split; reflexivity|discriminate].
  - intros [-> ->]. reflexivity.
Qed.

Lemma bracketed_append (a b : string) :
  bracketed a = true -> bracketed (a +:+ b) = true.
Proof. destruct a; cbn; [discriminate|trivial]. Qed.

Lemma bracketed_truthy (a : string) : bracketed a = true -> Js.truthy a = true.
Proof. destruct a; cbn; [discriminate|reflexivity]. Qed.

Lemma bracketed_trim (a : string) :
  bracketed a = true -> bracketed (Js.trim a) = true.
Proof.
  destruct a as [|c a]; cbn; [discriminate|].
  intros Hc. apply Ascii.eqb_eq in Hc. subst c. reflexivity.
Qed.

(** *** [formatSpeakerResults] *)

(** The line of one result. *)
Lemma formatSpeakerResults_one (result : SpeakerResult) :
  formatSpeakerResults [result]
  = if spoken result
    then "[" +:+ (if (match speakerId result with
                      | Some id => (id =? 1)%Z
                      | None => false
                      end)
                  then "Interviewer" else "Candidate")
         +:+ "]: " +:+ String_of (transcript result) +:+ Js.LF
    else "".
Proof.
  unfold formatSpeakerResults, spoken. cbn [fold_left].
  destruct (transcript result) as [t|], (speakerId result) as [id|];
    reflexivity.
Qed.

Lemma formatSpeakerResults_cons (result : SpeakerResult)
    (results : list SpeakerResult) :
  formatSpeakerResults (result :: results)
  = formatSpeakerResults [result] +:+ formatSpeakerResults results.
Proof.
  unfold formatSpeakerResults. cbn [fold_left].
  generalize
    (match transcript result, speakerId result with
     | Some t, Some id =>
         if Js.truthy t && negb (id =? 0)%Z
         then "" +:+ "[" +:+ (if (id =? 1)%Z then "Interviewer"
                              else "Candidate") +:+ "]: " +:+ t +:+ Js.LF
         else ""
     | _, _ => ""
     end).
  intros acc. revert acc.
  induction results as [|r rs IH]; intros acc; cbn [fold_left].
  - rewrite append_empty_r. reflexivity.
  - rewrite IH. rewrite (IH (match transcript r, speakerId r with
                             | Some t, Some id => _ | _, _ => _ end)).
    rewrite <- append_assoc. f_equal.
    destruct (transcript r) as [t|], (speakerId r) as [id|];
      try (rewrite append_empty_r; reflexivity).
    destruct (Js.truthy t && negb (id =? 0)%Z);
      [|rewrite append_empty_r; reflexivity].
    cbn [String.append]. reflexivity.
Qed.

Lemma formatSpeakerResults_distributes (xs ys : list SpeakerResult) :
  formatSpeakerResults (xs ++ ys)
  = formatSpeakerResults xs +:+ formatSpeakerResults ys.
Proof.
  induction xs as [|x xs IH]; [reflexivity|].
  cbn [app]. rewrite formatSpeakerResults_cons, IH, <- append_assoc.
  rewrite <- formatSpeakerResults_cons. reflexivity.
Qed.

Lemma formatSpeakerResults_shape (results : list SpeakerResult) :
  if existsb spoken results
  then bracketed (formatSpeakerResults results) = true
  else formatSpeakerResults results = "".
Proof.
  induction results as [|r rs IH]; [reflexivity|].
  rewrite formatSpeakerResults_cons, formatSpeakerResults_one.
  cbn [existsb]. destruct (spoken r); cbn [orb]; [reflexivity|].
  exact IH.
Qed.

Lemma prefix_append (needle hay rest : string) :
  String.prefix needle hay = true ->
  String.prefix needle (hay +:+ rest) = true.
Proof.
  revert hay. induction needle as [|c needle IH]; intros hay.
  - intros _. destruct (hay +:+ rest); reflexivity.
  - destruct hay as [|d hay]; cbn; [discriminate|].
    destruct (ascii_dec c d); [apply IH|discriminate].
Qed.

Lemma includes_append_l (hay rest needle : string) :
  Js.includes hay needle = true ->
  Js.includes (hay +:+ rest) needle = true.
Proof.
  induction hay as [|c hay IH]; cbn [Js.includes String.append].
  - rewrite orb_false_r. destruct needle; [|discriminate].
    intros _. destruct rest; reflexivity.
  - intros H. apply orb_true_iff in H. apply orb_true_iff.
    destruct H as [H|H]; [left|right; exact (IH H)].
    exact (prefix_append needle (String c hay) rest H).
Qed.

Lemma includes_append_r (front hay needle : string) :
  Js.includes hay needle = true ->
  Js.includes (front +:+ hay) needle = true.
Proof.
  intros H. induction front as [|c front IH]; [exact H|].
  cbn [Js.includes String.append]. rewrite IH. apply orb_true_r.
Qed.

(** A result that carries speech of speaker 1. *)
Lemma interviewer_line_detected (results : list SpeakerResult) :
  existsb from_interviewer results = true ->
  Js.includes (formatSpeakerResults results) "[Interviewer]:" = true.
Proof.
  induction results as [|r rs IH]; [discriminate|].
  cbn [existsb]. rewrite formatSpeakerResults_cons. intros H.
  apply orb_true_iff in H. destruct H as [H|H].
  - apply includes_append_l. rewrite formatSpeakerResults_one.
    unfold from_interviewer in H.
    apply andb_true_iff in H. destruct H as [-> ->]. reflexivity.
  - apply includes_append_r. exact (IH H).
Qed.

(** X6: [formatSpeakerResults] writes its lines result by result, so it
    distributes over the concatenation of result lists; a result with no
    transcript, an empty one, or no speaker id (or speaker 0) contributes
    nothing; the text is empty when no result contributes and starts with
    an opening bracket otherwise; and speech of speaker 1 always shows as
    an "[Interviewer]:" line in it. *)
Theorem formatSpeakerResults_writes_lines (xs ys : list SpeakerResult) :
  formatSpeakerResults (xs ++ ys)
  = formatSpeakerResults xs +:+ formatSpeakerResults ys
  /\ formatSpeakerResults xs = formatSpeakerResults (List.filter spoken xs)
  /\ (if existsb spoken xs
      then bracketed (formatSpeakerResults xs) = true
      else formatSpeakerResults xs = "")
  /\ (existsb from_interviewer xs = true ->
      Js.includes (formatSpeakerResults xs) "[Interviewer]:" = true).
Proof.
  split; [apply formatSpeakerResults_distributes|].
  split; [|split; [apply formatSpeakerResults_shape
                  |apply interviewer_line_detected]].
  induction xs as [|x rest IH]; [reflexivity|].
  cbn [List.filter]. rewrite formatSpeakerResults_cons.
  destruct (spoken x) eqn:Hx.
  - rewrite (formatSpeakerResults_cons x (List.filter spoken rest)).
    rewrite <- IH. reflexivity.
  - rewrite formatSpeakerResults_one, Hx. exact IH.
Qed.

(** *** Collecting a response *)

Lemma concat_cons (t : string) (texts : list string) :
  String.concat "" (t :: texts) = t +:+ String.concat "" texts.
Proof. destruct texts; cbn; [rewrite append_empty_r|]; reflexivity. Qed.

Lemma appendParts_collects (parts : list Part) (s : state) :
  appendParts parts s
  = set_trace
      (trace s ++ map UpdateResponse (growing (messageBuffer s)
                                        (texts_of parts)))
      (set_messageBuffer
         (messageBuffer s +:+ String.concat "" (texts_of parts)) s).
Proof.
  unfold appendParts. revert s.
  induction parts as [|part parts IH]; intros s; cbn [fold_left].
  - fields s. cbn. rewrite append_empty_r, app_nil_r. reflexivity.
  - rewrite IH.
    change (texts_of (part :: parts))
      with (match (if truthy_opt (text part) then text part else None) with
            | Some t => t :: texts_of parts
            | None => texts_of parts
            end).
    destruct (text part) as [t|]; cbn [truthy_opt]; [|reflexivity].
    destruct (Js.truthy t) eqn:Ht; [|reflexivity].
    rewrite concat_cons. generalize (texts_of parts). intros texts.
    fields s. unfold emit. cbn.
    rewrite <- app_assoc, append_assoc. reflexivity.
Qed.

Section WithEnvironment.

Variable Date_now : nat -> Z.
Variable live_connect : nat -> option session.
Variable projects_context : string -> string.

#[local] Abbreviation onmessage := (onmessage Date_now).
#[local] Abbreviation onmessage_manual := (onmessage_manual Date_now).
#[local] Abbreviation step := (step Date_now live_connect projects_context).
#[local] Abbreviation run := (run Date_now live_connect projects_context).

(** X7: a message without [generationComplete] only accumulates (first
    version of the handler): the lines of its transcription results are
    appended to the pending transcription, the non-empty texts of its
    parts to the response buffer, the renderer is shown the buffer after
    each text, and the history is left alone. *)
Theorem fragments_accumulate (content : ServerContent) (s : state) :
  generationComplete content = false ->
  let s' := onmessage (mkMessage (Some content)) s in
  let texts := texts_of (default [] (modelTurn_parts content)) in
  currentTranscription s'
  = currentTranscription s
    +:+ formatSpeakerResults
          (default [] (inputTranscription_results content))
  /\ messageBuffer s' = messageBuffer s +:+ String.concat "" texts
  /\ conversationHistory s' = conversationHistory s
  /\ trace s'
     = trace s ++ map UpdateResponse (growing (messageBuffer s) texts)
       ++ (if turnComplete content
           then [UpdateStatus "Listening..."] else []).
Proof.
  intros Hgen. unfold Session.onmessage. cbn [serverContent].
  rewrite Hgen. unfold accumulate.
  destruct (inputTranscription_results content) as [results|];
    destruct (modelTurn_parts content) as [parts|];
    cbn [default]; rewrite ?appendParts_collects.
  all: fields s; destruct (turnComplete content); unfold emit; cbn.
  all: rewrite ?append_empty_r, ?app_nil_r, <- ?app_assoc.
  all: repeat split.
Qed.

(** X8: while no manual response is awaited, the second version of the
    handler takes no model output: whatever parts and completion flags the
    message carries, the response buffer, the history and the flag stay as
    they are and the renderer is sent no response; the transcription
    results are still appended to the pending transcription. *)
Theorem model_output_ignored_unless_awaited
    (content : ServerContent) (s : state) :
  awaitingManualResponse s = false ->
  let s' := onmessage_manual (mkMessage (Some content)) s in
  messageBuffer s' = messageBuffer s
  /\ conversationHistory s' = conversationHistory s
  /\ awaitingManualResponse s' = false
  /\ currentTranscription s'
     = currentTranscription s
       +:+ formatSpeakerResults
             (default [] (inputTranscription_results content))
  /\ trace s'
     = trace s ++ (if turnComplete content
                   then [UpdateStatus "Listening..."] else []).
Proof.
  intros Hidle. unfold Session.onmessage_manual, accumulate_manual.
  cbn [serverContent].
  destruct (inputTranscription_results content) as [results|];
    unfold default; cbn [from_option id].
  - generalize (formatSpeakerResults results). intros line.
    fields s. subst amr. unfold read_clock. cbn.
    destruct (Js.includes line "[Interviewer]:"); cbn;
      destruct (turnComplete content); unfold emit; cbn;
      rewrite ?app_nil_r; repeat split.
  - fields s. subst amr. cbn.
    destruct (turnComplete content); unfold emit; cbn;
      rewrite ?append_empty_r, ?app_nil_r; repeat split.
Qed.

(** X9: a message that carries speech of the interviewer ends the wait
    for a manual response (second version of the handler): the pending
    transcription with the new lines becomes the recent voice question,
    stamped with the clock, the flag is cleared, and the model output of
    the same message is dropped, flag or no flag; a response collected so
    far stays in the buffer and no turn is saved. *)
Theorem interviewer_line_ends_the_wait
    (content : ServerContent) (results : list SpeakerResult) (s : state) :
  inputTranscription_results content = Some results ->
  existsb from_interviewer results = true ->
  let s' := onmessage_manual (mkMessage (Some content)) s in
  awaitingManualResponse s' = false
  /\ currentTranscription s'
     = currentTranscription s +:+ formatSpeakerResults results
  /\ recentVoiceQuestion s' = currentTranscription s'
  /\ voiceQuestionTimestamp s' = Some (Date_now (clockReads s))
  /\ messageBuffer s' = messageBuffer s
  /\ conversationHistory s' = conversationHistory s
  /\ trace s'
     = trace s ++ (if turnComplete content
                   then [UpdateStatus "Listening..."] else []).
Proof.
  intros Hres Hspeech. unfold Session.onmessage_manual, accumulate_manual.
  cbn [serverContent]. rewrite Hres.
  pose proof (interviewer_line_detected results Hspeech) as Hline.
  revert Hline. generalize (formatSpeakerResults results). intros line Hline.
  fields s. unfold read_clock. cbn. rewrite Hline. cbn.
  destruct (turnComplete content); unfold emit; cbn;
    rewrite ?app_nil_r; repeat split.
Qed.

(** *** Runs *)

Lemma line_or_nothing (results : list SpeakerResult) :
  formatSpeakerResults results = ""
  \/ bracketed (formatSpeakerResults results) = true.
Proof.
  pose proof (formatSpeakerResults_shape results) as H.
  destruct (existsb spoken results); [right|left]; exact H.
Qed.

Lemma transcription_grows (pending line : string) :
  pending = "" \/ bracketed pending = true ->
  line = "" \/ bracketed line = true ->
  pending +:+ line = "" \/ bracketed (pending +:+ line) = true.
Proof.
  intros [->|Hp] Hl; [exact Hl|]. right. apply bracketed_append, Hp.
Qed.

Lemma settled_emit (manual seen : bool) (e : event) (s : state) :
  settled manual seen s -> settled manual seen (emit e s).
Proof. fields s. exact (fun H => H). Qed.

Lemma settled_appendParts (manual seen : bool) (parts : list Part)
    (s : state) :
  settled manual seen s -> settled manual seen (appendParts parts s).
Proof. rewrite appendParts_collects. fields s. exact (fun H => H). Qed.

Lemma settled_accumulate (manual seen : bool) (content : ServerContent)
    (s : state) :
  settled manual seen s -> settled manual seen (accumulate content s).
Proof.
  intros H. unfold accumulate.
  assert (H' : settled manual seen
                 match inputTranscription_results content with
                 | Some results =>
                     set_currentTranscription
                       (currentTranscription s
                        +:+ formatSpeakerResults results) s
                 | None => s
                 end).
  { destruct (inputTranscription_results content) as [results|]; [|exact H].
    pose proof (line_or_nothing results) as Hl.
    revert Hl. generalize (formatSpeakerResults results). intros line Hl.
    fields s. destruct H as (H1 & H2 & H3 & H4 & H5).
    split; [exact H1|]. split; [exact H2|]. split; [exact H3|].
    split; [exact (transcription_grows _ _ H4 Hl)|exact H5]. }
  destruct (modelTurn_parts content); [apply settled_appendParts|]; exact H'.
Qed.

Lemma settled_accumulate_manual (manual seen : bool)
    (content : ServerContent) (s : state) :
  settled manual seen s ->
  settled manual seen (accumulate_manual Date_now content s).
Proof.
  intros H. unfold accumulate_manual.
  match goal with
  | |- settled _ _ (if awaitingManualResponse ?s1 then _ else _) =>
      assert (H' : settled manual seen s1); [|generalize H'; generalize s1]
  end.
  - destruct (inputTranscription_results content) as [results|]; [|exact H].
    pose proof (line_or_nothing results) as Hl.
    revert Hl. generalize (formatSpeakerResults results). intros line Hl.
    fields s. destruct H as (H1 & H2 & H3 & H4 & H5).
    unfold read_clock. cbn.
    destruct (Js.includes line "[Interviewer]:"); cbn;
      (split; [exact H1|]; split; [exact H2|]; split; [exact H3|];
       split; [exact (transcription_grows _ _ H4 Hl)|exact H5]).
  - intros s1 H1. destruct (awaitingManualResponse s1); [|exact H1].
    destruct (modelTurn_parts content); [apply settled_appendParts|];
      exact H1.
Qed.

Lemma settled_completeGeneration (manual seen : bool) (s : state) :
  settled manual seen s ->
  settled manual seen (completeGeneration Date_now s).
Proof.
  unfold settled. fields s. intros (H1 & H2 & H3 & H4 & H5).
  unfold completeGeneration, saveConversationTurn, initializeNewSession,
    read_clock, emit. cbn.
  destruct (Js.truthy tr) eqn:Htr; cbn;
    [destruct (Js.truthy buf); cbn|];
    try (split; [exact H1|]; split; [exact H2|]; split; [exact H3|];
         split; [exact H4|exact H5]).
  assert (Hb : bracketed (Js.trim tr) = true).
  { destruct H4 as [->|H4]; [discriminate|]. apply bracketed_trim, H4. }
  destruct id; cbn;
    (split; [exact H1|]; split; [exact H2|]; split; [exact H3|];
     split; [left; reflexivity|]).
  - apply Forall_app. split; [exact H5|]. constructor; [exact Hb|constructor].
  - constructor; [exact Hb|constructor].
Qed.

Lemma settled_awaiting (manual seen flag : bool) (s : state) :
  settled manual seen s ->
  settled manual seen (set_awaitingManualResponse flag s).
Proof. fields s. exact (fun H => H). Qed.

Lemma settled_onmessage (manual seen : bool) (message : Message)
    (s : state) :
  settled manual seen s -> settled manual seen (onmessage message s).
Proof.
  intros H. unfold Session.onmessage.
  destruct (serverContent message) as [content|]; [|exact H].
  pose proof (settled_accumulate manual seen content s H) as H1.
  destruct (generationComplete content), (turnComplete content);
    repeat first [apply settled_emit | apply settled_completeGeneration];
    exact H1.
Qed.

Lemma settled_onmessage_manual (manual seen : bool) (message : Message)
    (s : state) :
  settled manual seen s -> settled manual seen (onmessage_manual message s).
Proof.
  intros H. unfold Session.onmessage_manual.
  destruct (serverContent message) as [content|]; [|exact H].
  pose proof (settled_accumulate_manual manual seen content s H) as H1.
  destruct (awaitingManualResponse (accumulate_manual Date_now content s)
            && generationComplete content), (turnComplete content);
    repeat first [apply settled_emit | apply settled_awaiting
                 | apply settled_completeGeneration];
    exact H1.
Qed.

Lemma settled_locked_out (manual seen : bool) (status : string)
    (s : state) :
  settled manual seen s ->
  settled manual seen
    (emit (UpdateStatus status)
       (set_reconnectionAttempts maxReconnectionAttempts
          (set_lastSessionParams None s))).
Proof.
  unfold settled. fields s. intros (H1 & H2 & H3 & H4 & H5).
  split; [apply Nat.le_refl|]. split.
  { destruct manual; [exact H2|].
    destruct H2 as (A & _ & C & D).
    split; [exact A|]. split; [left; reflexivity|]. split; assumption. }
  split; [exact H3|]. split; [exact H4|exact H5].
Qed.

Lemma settled_onerror (manual seen : bool) (message : option string)
    (s : state) :
  settled manual seen s -> settled manual seen (onerror message s).
Proof.
  unfold onerror. destruct (isApiKeyError message); [|apply settled_emit].
  apply settled_locked_out.
Qed.

Lemma settled_onclose (manual seen : bool) (reason : option string)
    (s : state) :
  settled manual seen s ->
  settled manual seen
    (onclose Date_now live_connect (version_of manual) reason s).
Proof.
  intros H. unfold onclose.
  destruct (isApiKeyError reason); [apply settled_locked_out, H|].
  destruct (lastSessionParams s) as [p|] eqn:Hp; [|apply settled_emit, H].
  destruct (Nat.ltb (reconnectionAttempts s) maxReconnectionAttempts);
    [|apply settled_emit, H].
  destruct (ReconnectionProofs.attemptReconnection_shape
              Date_now live_connect (version_of manual) s)
    as (k & _ & _ & _ & Hcount & Hconv & Hflag & Hbound & Hend).
  destruct H as (H1 & H2 & H3 & H4 & H5).
  destruct Hconv as (_ & C2 & C3 & _ & _ & _ & _ & C8).
  split; [lia|]. split.
  { destruct manual; cbn [version_of leaves_flag_set handshakes_per_attempt
                          andb] in *.
    - rewrite Hflag, orb_false_r. exact H2.
    - destruct H2 as (A & [B|B] & C & D); [congruence|].
      rewrite Hflag, B. cbn [orb].
      split; [congruence|]. split; [right; reflexivity|].
      split; [lia|].
      destruct (fst (Session.attemptReconnection Date_now live_connect
                       FirstVersion s)).
      + destruct Hend as (Hv & _). discriminate.
      + destruct Hend as (_ & ->). exact D. }
  split.
  { destruct (fst (Session.attemptReconnection Date_now live_connect
                     (version_of manual) s)).
    - destruct Hend as (_ & _ & fresh & ->). discriminate.
    - destruct Hend as (_ & ->). exact H3. }
  rewrite C2, C3. split; [exact H4|exact H5].
Qed.

Lemma settled_start (manual seen : bool) (params : SessionParams)
    (s : state) :
  settled manual seen s ->
  settled manual true
    (snd (ipc_initialize_gemini Date_now live_connect (version_of manual)
            params s)).
Proof.
  unfold settled. fields s. intros (H1 & H2 & H3 & H4 & H5).
  unfold ipc_initialize_gemini, initializeGeminiSession, initialize_enter,
    initialize_connect, initialize_settle, initializeNewSession, read_clock,
    emit.
  destruct manual; cbn [version_of] in *.
  - subst init. cbn.
    destruct (live_connect hs); cbn;
      (split; [lia|]; split; [reflexivity|]; split;
       [|split; [left; reflexivity|constructor]]);
      [discriminate|exact H3].
  - destruct H2 as (A & B & C & D).
    destruct init; cbn.
    + split; [exact H1|]. split.
      { split; [reflexivity|]. split; [right; reflexivity|].
        split; assumption. }
      split; [exact H3|]. split; [exact H4|exact H5].
    + split; [lia|]. split.
      { split; [reflexivity|]. split; [right; reflexivity|].
        split; assumption. }
      split; [exact H3|]. split; [exact H4|exact H5].
Qed.

Lemma settled_close_session (manual seen : bool) (s : state) :
  settled manual seen s -> settled manual seen (ipc_close_session s).
Proof.
  unfold settled. fields s. intros (H1 & H2 & H3 & H4 & H5).
  unfold ipc_close_session, emit. cbn.
  destruct manual.
  - destruct ref as [[current|]|]; cbn;
      (split; [exact H1|]; split; [exact H2|]; split;
       [|split; [exact H4|exact H5]]);
      discriminate || exact H3.
  - destruct H2 as (A & _ & C & D). subst ref. cbn.
    split; [exact H1|]. split.
    { split; [exact A|]. split; [left; reflexivity|].
      split; [exact C|reflexivity]. }
    split; [discriminate|]. split; [exact H4|exact H5].
Qed.

Lemma settled_new_session (manual seen : bool) (s : state) :
  settled manual seen s ->
  settled manual seen (initializeNewSession Date_now s).
Proof.
  unfold settled. fields s. intros (H1 & H2 & H3 & H4 & H5).
  split; [exact H1|]. split; [exact H2|]. split; [exact H3|].
  split; [left; reflexivity|constructor].
Qed.

Lemma settled_trigger (manual seen : bool) (hasScreenshotContext : bool)
    (send_error : option string) (s : state) :
  settled manual seen s ->
  settled manual seen
    (snd (ipc_trigger_smart_response Date_now projects_context
            hasScreenshotContext send_error s)).
Proof.
  intros H. unfold ipc_trigger_smart_response.
  destruct (geminiSessionRef s) as [[current|]|]; [|exact H|exact H].
  assert (Hage : settled manual seen (snd (voiceAge Date_now s))).
  { unfold voiceAge. destruct (voiceQuestionTimestamp s); [|exact H].
    destruct (Js.truthy (recentVoiceQuestion s) && negb (z =? 0)%Z);
      [|exact H].
    revert H. fields s. exact (fun H => H). }
  destruct (voiceAge Date_now s) as [age s1]. cbn [snd] in Hage.
  destruct (choosePrompt projects_context age hasScreenshotContext
              (recentVoiceQuestion s1)) as [responseType contextPrompt].
  destruct send_error; cbn [snd];
    repeat first [apply settled_awaiting | apply settled_emit]; exact Hage.
Qed.

Lemma settled_step (manual seen : bool) (i : input) (s : state) :
  settled manual seen s ->
  settled manual (seen || starts i) (step manual i s).
Proof.
  intros H. destruct i; cbn [Run.step starts]; rewrite ?orb_false_r.
  - apply settled_onerror, H.
  - apply settled_onclose, H.
  - destruct manual;
      [apply settled_onmessage_manual|apply settled_onmessage]; exact H.
  - rewrite orb_true_r. apply (settled_start manual seen), H.
  - apply settled_close_session, H.
  - apply settled_new_session, H.
  - destruct manual; [apply settled_trigger|]; exact H.
Qed.

Lemma settled_run (manual : bool) (inputs : list input) :
  forall (seen : bool) (s : state),
    settled manual seen s ->
    settled manual (seen || existsb starts inputs) (run manual inputs s).
Proof.
  unfold Run.run.
  induction inputs as [|i inputs IH]; intros seen s H.
  - cbn [existsb fold_left]. rewrite orb_false_r. exact H.
  - cbn [existsb fold_left]. rewrite orb_assoc.
    apply IH, settled_step, H.
Qed.

Lemma settled_started (manual : bool) : settled manual false started.
Proof.
  unfold settled, started. cbn.
  split; [lia|]. split.
  { destruct manual; [reflexivity|]. repeat split. left. reflexivity. }
  split; [discriminate|].
  split; [left; reflexivity|constructor].
Qed.

Lemma replayed_when_bracketed (history : list ConversationTurn) :
  Forall (fun turn => bracketed (transcription turn) = true) history ->
  replayed_transcriptions history = map transcription history.
Proof.
  unfold replayed_transcriptions.
  induction 1 as [|turn history Hturn _ IH]; [reflexivity|].
  cbn [map List.filter]. rewrite (bracketed_truthy _ Hturn).
  assert (Hlen : Nat.ltb 0 (String.length (Js.trim (transcription turn)))
                 = true).
  { pose proof (bracketed_trim _ Hturn) as Htrim.
    destruct (Js.trim (transcription turn)); [discriminate|reflexivity]. }
  rewrite Hlen. cbn [andb]. f_equal. exact IH.
Qed.

(** X10: in every run of the handlers from the module as set up, whatever
    the transport and the clock do, the count of reconnection attempts
    never exceeds [maxReconnectionAttempts] and the ref object stays
    published.  In the second version no initialization is left in flight
    once a handler has run to its end.  In the first version the flag
    [isInitializingSession] is set from the first start request of the
    run on and is never cleared, no handshake is made and no session is
    stored. *)
Theorem reachable_states_are_settled (manual : bool) (inputs : list input) :
  let s := run manual inputs started in
  (reconnectionAttempts s <= maxReconnectionAttempts)%nat
  /\ geminiSessionRef s <> None
  /\ if manual
     then isInitializingSession s = false
     else isInitializingSession s = existsb starts inputs
          /\ handshakes s = 0%nat
          /\ geminiSessionRef s = Some None.
Proof.
  destruct (settled_run manual inputs false started (settled_started manual))
    as (H1 & H2 & H3 & _).
  cbv zeta. split; [exact H1|]. split; [exact H3|].
  cbn [orb] in H2. destruct manual; [exact H2|].
  destruct H2 as (A & _ & C & D).
  split; [exact A|]. split; [exact C|exact D].
Qed.

(** X11: in every such run the transcription of every saved turn starts
    with a speaker label, since it was put together from the lines of
    [formatSpeakerResults] and trimmed; none is blank, so the filter of
    [sendReconnectionContext] drops nothing: a reconnection replays the
    transcription of every turn of the history. *)
Theorem every_saved_turn_is_replayed (manual : bool) (inputs : list input) :
  let s := run manual inputs started in
  Forall (fun turn => bracketed (transcription turn) = true)
    (conversationHistory s)
  /\ replayed_transcriptions (conversationHistory s)
     = map transcription (conversationHistory s).
Proof.
  destruct (settled_run manual inputs false started (settled_started manual))
    as (_ & _ & _ & _ & H5).
  cbv zeta. split; [exact H5|]. apply replayed_when_bracketed, H5.
Qed.

End WithEnvironment.

Lemma fragments_accumulate_witness :
  let content :=
    mkContent (Some [mkResult (Some "Why Rust?") (Some 1%Z)])
      (Some [mkPart (Some "Memory"); mkPart None; mkPart (Some " safety.")])
      false true in
  let s' := onmessage Examples.clock0 (mkMessage (Some content))
              Examples.running in
  currentTranscription s' = "[Interviewer]: Why Rust?" +:+ Js.LF
  /\ messageBuffer s' = "Memory safety."
  /\ trace s' = [UpdateResponse "Memory"; UpdateResponse "Memory safety.";
                 UpdateStatus "Listening..."].
Proof.
  destruct (fragments_accumulate Examples.clock0
              (mkContent (Some [mkResult (Some "Why Rust?") (Some 1%Z)])
                 (Some [mkPart (Some "Memory"); mkPart None;
                        mkPart (Some " safety.")])
                 false true)
              Examples.running eq_refl) as (Htr & Hbuf & _ & Htrace).
  split; [exact Htr|]. split; [exact Hbuf|exact Htrace].
Defined.

Lemma model_output_ignored_unless_awaited_witness :
  let content :=
    mkContent None (Some [mkPart (Some "Unasked answer.")]) true true in
  let s' := onmessage_manual Examples.clock0 (mkMessage (Some content))
              Examples.running in
  messageBuffer s' = ""
  /\ conversationHistory s' = []
  /\ trace s' = [UpdateStatus "Listening..."].
Proof.
  destruct (model_output_ignored_unless_awaited Examples.clock0
              (mkContent None (Some [mkPart (Some "Unasked answer.")])
                 true true)
              Examples.running eq_refl) as (Hbuf & Hhist & _ & _ & Htrace).
  split; [exact Hbuf|]. split; [exact Hhist|exact Htrace].
Defined.

Lemma interviewer_line_ends_the_wait_witness :
  let content :=
    mkContent (Some [mkResult (Some "And Go?") (Some 1%Z)])
      (Some [mkPart (Some "late fragment")]) true false in
  let s := set_messageBuffer "Half an ans"
             (set_awaitingManualResponse true Examples.running) in
  let s' := onmessage_manual Examples.clock0 (mkMessage (Some content)) s in
  awaitingManualResponse s' = false
  /\ recentVoiceQuestion s' = "[Interviewer]: And Go?" +:+ Js.LF
  /\ voiceQuestionTimestamp s' = Some 1700000000000%Z
  /\ messageBuffer s' = "Half an ans"
  /\ trace s' = [].
Proof.
  destruct (interviewer_line_ends_the_wait Examples.clock0
              (mkContent (Some [mkResult (Some "And Go?") (Some 1%Z)])
                 (Some [mkPart (Some "late fragment")]) true false)
              [mkResult (Some "And Go?") (Some 1%Z)]
              (set_messageBuffer "Half an ans"
                 (set_awaitingManualResponse true Examples.running))
              eq_refl eq_refl)
    as (Hflag & Htr & Hq & Hstamp & Hbuf & _ & Htrace).
  split; [exact Hflag|]. split; [rewrite Hq; exact Htr|].
  split; [exact Hstamp|]. split; [exact Hbuf|exact Htrace].
Defined.

End RunProofs.

(** * The send handlers and the manual trigger *)

Module IpcProofs.
Import Session Trace Ipc Manual Run.

Local Open Scope string_scope.
Local Open Scope list_scope.

#[local] Arguments Js.trim : simpl never.
#[local] Arguments Js.truthy : simpl never.

Ltac fields s :=
  destruct s as [id tr hist init rvq vqt amr buf att par ref tc clk hs];
  cbn [currentSessionId currentTranscription conversationHistory
       isInitializingSession recentVoiceQuestion voiceQuestionTimestamp
       awaitingManualResponse messageBuffer reconnectionAttempts
       lastSessionParams geminiSessionRef trace clockReads handshakes] in *.

Lemma send_outcome (frame_ : frame) (send_error : option string) :
  snd (send frame_ send_error) = [frame_]
  /\ success (fst (send frame_ send_error))
     = match send_error with None => true | Some _ => false end
  /\ error (fst (send frame_ send_error)) = send_error.
Proof. destruct send_error; repeat split. Qed.

Section WithDecoder.

Variable base64_length : string -> nat.

(** X12: a send handler hands at most one frame to the transport and
    reports success exactly when it handed one over and the transport took
    it.  A text frame carries the trimmed text of a string that is not
    blank; an image frame carries a non-empty string that decodes to at
    least 1000 bytes, unchanged and labelled as JPEG. *)
Theorem frames_are_validated
    (current : option session) (image text : js_arg)
    (send_error : option string) :
  let sent_image :=
    ipc_send_image_content base64_length current image send_error in
  let sent_text := ipc_send_text_message current text send_error in
  (success (fst sent_image) = true
   <-> snd sent_image <> [] /\ send_error = None)
  /\ (success (fst sent_text) = true
      <-> snd sent_text <> [] /\ send_error = None)
  /\ (snd sent_image = []
      \/ exists data,
           image = ArgString data
           /\ snd sent_image = [MediaFrame data "image/jpeg"]
           /\ data <> ""
           /\ (1000 <= base64_length data)%nat
           /\ current <> None)
  /\ (snd sent_text = []
      \/ exists t,
           text = ArgString t
           /\ snd sent_text = [TextFrame (Js.trim t)]
           /\ Js.trim t <> ""
           /\ current <> None).
Proof.
  cbv zeta. unfold ipc_send_image_content, ipc_send_text_message.
  assert (Hsend : forall f,
             (success (fst (send f send_error)) = true
              <-> snd (send f send_error) <> [] /\ send_error = None)).
  { intros f. destruct send_error; cbn; split;
      [discriminate|intros [_ [=]]|intros _; split; [discriminate|reflexivity]
      |reflexivity]. }
  assert (Hfail : forall m,
             (success (fst (failed m, @nil frame)) = true
              <-> snd (failed m, @nil frame) <> [] /\ send_error = None)).
  { intros m. cbn. split; [discriminate|intros [H _]; contradiction]. }
  split; [|split; [|split]].
  - destruct current; [|apply Hfail].
    destruct image as [data| |]; try apply Hfail.
    destruct (negb (Js.truthy data)); [apply Hfail|].
    destruct (Nat.ltb (base64_length data) 1000); [apply Hfail|apply Hsend].
  - destruct current; [|apply Hfail].
    destruct text as [t| |]; try apply Hfail.
    destruct (negb (Js.truthy t) || Nat.eqb (String.length (Js.trim t)) 0);
      [apply Hfail|apply Hsend].
  - destruct current; [|left; reflexivity].
    destruct image as [data| |]; try (left; reflexivity).
    destruct (negb (Js.truthy data)) eqn:Hd; [left; reflexivity|].
    destruct (Nat.ltb (base64_length data) 1000) eqn:Hlen;
      [left; reflexivity|].
    right. exists data. split; [reflexivity|].
    split; [apply send_outcome|].
    split; [intros ->; discriminate|].
    split; [apply Nat.ltb_ge, Hlen|discriminate].
  - destruct current; [|left; reflexivity].
    destruct text as [t| |]; try (left; reflexivity).
    destruct (negb (Js.truthy t) || Nat.eqb (String.length (Js.trim t)) 0)
      eqn:Ht; [left; reflexivity|].
    right. exists t. split; [reflexivity|].
    split; [apply send_outcome|].
    split; [|discriminate].
    apply orb_false_iff in Ht. destruct Ht as [_ Ht].
    intros Hblank. rewrite Hblank in Ht. discriminate.
Qed.

End WithDecoder.

(** X13: the renderer's [sendTextMessage] checks the text the way the
    handler does, so the handler's "Invalid text message" is never what it
    returns: a failure is "Empty message" (and then nothing reached the
    main process), "No active Gemini session", or the error of the
    transport. *)
Theorem sendTextMessage_failures
    (current : option session) (text : string) (send_error : option string) :
  let result := fst (sendTextMessage current text send_error) in
  if success result
  then error result = None
       /\ snd (sendTextMessage current text send_error)
          = [TextFrame (Js.trim text)]
  else error result = Some "Empty message"
       \/ error result = Some "No active Gemini session"
       \/ (error result = send_error
           /\ snd (sendTextMessage current text send_error)
              = [TextFrame (Js.trim text)]).
Proof.
  cbv zeta. unfold sendTextMessage, ipc_send_text_message.
  destruct (negb (Js.truthy text)
            || Nat.eqb (String.length (Js.trim text)) 0);
    [left; reflexivity|].
  destruct current; [|right; left; reflexivity].
  destruct send_error; cbn; [right; right|]; split; reflexivity.
Qed.

Section WithEnvironment.

Variable Date_now : nat -> Z.
Variable projects_context : string -> string.

#[local] Abbreviation ipc_trigger_smart_response :=
  (ipc_trigger_smart_response Date_now projects_context).
#[local] Abbreviation onmessage_manual := (onmessage_manual Date_now).

Lemma voiceAge_keeps (s : state) :
  same_conversation s (snd (voiceAge Date_now s))
  /\ trace (snd (voiceAge Date_now s)) = trace s
  /\ geminiSessionRef (snd (voiceAge Date_now s)) = geminiSessionRef s.
Proof.
  unfold voiceAge, same_conversation. fields s.
  destruct vqt as [stamp|]; [|repeat split].
  destruct (Js.truthy rvq && negb (stamp =? 0)%Z); repeat split.
Qed.

Lemma trigger_shape (hasScreenshotContext : bool)
    (send_error : option string) (s : state) :
  let r := ipc_trigger_smart_response hasScreenshotContext send_error s in
  match geminiSessionRef s with
  | Some (Some current) =>
      (exists prompt,
         trace (snd r) = trace s ++ [SendRealtimeInputText current prompt])
      /\ awaitingManualResponse (snd r)
         = match send_error with None => true | Some _ => false end
      /\ success (fst (fst r)) = awaitingManualResponse (snd r)
      /\ error (fst (fst r)) = send_error
      /\ messageBuffer (snd r) = messageBuffer s
      /\ currentTranscription (snd r) = currentTranscription s
      /\ conversationHistory (snd r) = conversationHistory s
      /\ recentVoiceQuestion (snd r) = recentVoiceQuestion s
      /\ voiceQuestionTimestamp (snd r) = voiceQuestionTimestamp s
  | _ => r = (failed "No active Gemini session", None, s)
  end.
Proof.
  cbv zeta. unfold Manual.ipc_trigger_smart_response.
  destruct (geminiSessionRef s) as [[current|]|]; [|reflexivity..].
  destruct (voiceAge_keeps s) as (Hconv & Htrace & _).
  destruct (voiceAge Date_now s) as [age s1]. cbn [snd] in *.
  destruct Hconv as (_ & C2 & C3 & C4 & C5 & C6 & _).
  destruct (choosePrompt projects_context age hasScreenshotContext
              (recentVoiceQuestion s1)) as [responseType contextPrompt].
  rewrite <- Htrace, <- C2, <- C3, <- C4, <- C5, <- C6.
  clear. fields s1. destruct send_error; cbn; (split; [eexists|]);
    repeat split.
Qed.

(** X14: the manual trigger.  With no session attached it fails with
    "No active Gemini session" and changes nothing.  With a session it
    sends exactly one prompt to it, and afterwards a response is awaited
    exactly when the send went through: when the send throws, the flag is
    cleared again and the error is reported.  The buffers, the history and
    the recent voice question are left as they were. *)
Theorem trigger_sends_one_prompt (hasScreenshotContext : bool)
    (send_error : option string) (s : state) :
  let r := ipc_trigger_smart_response hasScreenshotContext send_error s in
  match geminiSessionRef s with
  | Some (Some current) =>
      (exists prompt,
         trace (snd r) = trace s ++ [SendRealtimeInputText current prompt])
      /\ awaitingManualResponse (snd r)
         = match send_error with None => true | Some _ => false end
      /\ success (fst (fst r)) = awaitingManualResponse (snd r)
      /\ error (fst (fst r)) = send_error
      /\ messageBuffer (snd r) = messageBuffer s
      /\ currentTranscription (snd r) = currentTranscription s
      /\ conversationHistory (snd r) = conversationHistory s
      /\ recentVoiceQuestion (snd r) = recentVoiceQuestion s
      /\ voiceQuestionTimestamp (snd r) = voiceQuestionTimestamp s
  | _ => r = (failed "No active Gemini session", None, s)
  end.
Proof. exact (trigger_shape hasScreenshotContext send_error s). Qed.

(** X15: a voice question that is missing, was never stamped, or is 30
    seconds old or older takes no part in the prompt of the manual
    trigger: the prompt is the fixed screenshot prompt when the caller
    has a screenshot and the fixed general prompt otherwise, and the
    renderer is not asked for project context. *)
Theorem stale_question_is_left_out (hasScreenshotContext : bool)
    (send_error : option string) (current : session) (s : state) :
  geminiSessionRef s = Some (Some current) ->
  recentVoiceQuestion s = ""
  \/ voiceQuestionTimestamp s = None
  \/ voiceQuestionTimestamp s = Some 0%Z
  \/ (exists stamp,
        voiceQuestionTimestamp s = Some stamp
        /\ (30000 <= Date_now (clockReads s) - stamp)%Z) ->
  trace (snd (ipc_trigger_smart_response hasScreenshotContext send_error s))
  = trace s
    ++ [SendRealtimeInputText current
          (if hasScreenshotContext then screenshotPrompt
           else generalPrompt)].
Proof.
  intros Href Hstale. unfold Manual.ipc_trigger_smart_response.
  rewrite Href.
  assert (Hage : exists s1,
             trace s1 = trace s
             /\ (voiceAge Date_now s = (None, s1)
                 \/ exists a, voiceAge Date_now s = (Some a, s1)
                              /\ (30000 <= a)%Z)).
  { unfold voiceAge.
    destruct Hstale as [Hq|[Hs|[Hs|(stamp & Hs & Hold)]]].
    - rewrite Hq. exists s. split; [reflexivity|]. left.
      destruct (voiceQuestionTimestamp s); reflexivity.
    - rewrite Hs. exists s. split; [reflexivity|]. left. reflexivity.
    - rewrite Hs. exists s. split; [reflexivity|]. left.
      rewrite andb_false_r. reflexivity.
    - rewrite Hs.
      destruct (Js.truthy (recentVoiceQuestion s) && negb (stamp =? 0)%Z).
      + eexists. split; [|right; eexists; split; [reflexivity|exact Hold]].
        clear. fields s. reflexivity.
      + exists s. split; [reflexivity|]. left. reflexivity. }
  destruct Hage as (s1 & Htrace & [Hage|(a & Hage & Hold)]); rewrite Hage.
  - unfold choosePrompt. cbn [andb].
    rewrite <- Htrace. clear.
    destruct hasScreenshotContext, send_error; fields s1; reflexivity.
  - unfold choosePrompt.
    assert (Hrecent : (a <? 30000)%Z = false) by (apply Z.ltb_ge, Hold).
    rewrite Hrecent. cbn [andb].
    rewrite <- Htrace. clear.
    destruct hasScreenshotContext, send_error; fields s1; reflexivity.
Qed.

(** X16: after a trigger that went through, the model output of a message
    is collected: the non-empty texts of its parts are appended to the
    response buffer and shown, and the response stays awaited until the
    generation completes (message without transcription results and
    without [generationComplete]). *)
Theorem triggered_response_is_collected (hasScreenshotContext : bool)
    (content : ServerContent) (current : session) (s : state) :
  geminiSessionRef s = Some (Some current) ->
  inputTranscription_results content = None ->
  generationComplete content = false ->
  let s1 := snd (ipc_trigger_smart_response hasScreenshotContext None s) in
  let s2 := onmessage_manual (mkMessage (Some content)) s1 in
  let texts := texts_of (default [] (modelTurn_parts content)) in
  messageBuffer s2 = messageBuffer s +:+ String.concat "" texts
  /\ awaitingManualResponse s2 = true
  /\ conversationHistory s2 = conversationHistory s
  /\ trace s2
     = trace s1 ++ map UpdateResponse (growing (messageBuffer s) texts)
       ++ (if turnComplete content
           then [UpdateStatus "Listening..."] else []).
Proof.
  intros Href Hres Hgen. cbv zeta.
  pose proof (trigger_shape hasScreenshotContext None s) as Hshape.
  rewrite Href in Hshape.
  destruct Hshape as (_ & Hflag & _ & _ & Hbuf & _ & Hhist & _).
  revert Hflag Hbuf Hhist.
  generalize (snd (ipc_trigger_smart_response hasScreenshotContext None s)).
  intros s1 Hflag Hbuf Hhist. rewrite <- Hbuf, <- Hhist. clear Hbuf Hhist.
  unfold Session.onmessage_manual, accumulate_manual.
  cbn [serverContent]. rewrite Hres, Hflag.
  destruct (modelTurn_parts content) as [parts|];
    unfold default; cbn [from_option id];
    rewrite ?RunProofs.appendParts_collects, Hgen.
  all: fields s1; subst amr; destruct (turnComplete content);
    unfold emit; cbn.
  all: rewrite ?RunProofs.append_empty_r, ?app_nil_r, <- ?app_assoc.
  all: repeat split.
Qed.

End WithEnvironment.

Lemma stale_question_is_left_out_witness :
  trace (snd (Manual.ipc_trigger_smart_response Examples.clock0
                (fun _ => "") true None Examples.running))
  = [SendRealtimeInputText 0%nat screenshotPrompt].
Proof.
  exact (stale_question_is_left_out Examples.clock0 (fun _ => "") true None
           0%nat Examples.running eq_refl (or_introl eq_refl)).
Defined.

Lemma triggered_response_is_collected_witness :
  let content := mkContent None (Some [mkPart (Some "Use a hash map.")])
                   false false in
  let s1 := snd (Manual.ipc_trigger_smart_response Examples.clock0
                   (fun _ => "") false None Examples.running) in
  let s2 := Session.onmessage_manual Examples.clock0
              (mkMessage (Some content)) s1 in
  messageBuffer s2 = "Use a hash map."
  /\ awaitingManualResponse s2 = true
  /\ trace s2 = [SendRealtimeInputText 0%nat generalPrompt;
                 UpdateResponse "Use a hash map."].
Proof.
  destruct (triggered_response_is_collected Examples.clock0 (fun _ => "")
              false
              (mkContent None (Some [mkPart (Some "Use a hash map.")])
                 false false)
              0%nat Examples.running eq_refl eq_refl eq_refl)
    as (Hbuf & Hflag & _ & Htrace).
  split; [exact Hbuf|]. split; [exact Hflag|exact Htrace].
Defined.

End IpcProofs.

(** * The renderer's audio chunking *)

Module RendererAudioProofs.
Import Pcm RendererAudio.

Lemma samplesPerChunk_eq : samplesPerChunk = 2400.
Proof. reflexivity. Qed.

Lemma drain_clause (buf : list double)
    (r : {b : bool | (samplesPerChunk <=? Z.of_nat (length buf)) = b}) :
  drain_unfold_clause_1 buf r =
    if proj1_sig r
    then (fst (splice buf samplesPerChunk)
            :: fst (drain (snd (splice buf samplesPerChunk))),
          snd (drain (snd (splice buf samplesPerChunk))))
    else ([], buf).
Proof. destruct r as [[|] e]; reflexivity. Qed.

Lemma drain_step (buf : list double) :
  drain buf =
    if samplesPerChunk <=? Z.of_nat (length buf)
    then (take (Z.to_nat samplesPerChunk) buf
            :: fst (drain (drop (Z.to_nat samplesPerChunk) buf)),
          snd (drain (drop (Z.to_nat samplesPerChunk) buf)))
    else ([], buf).
Proof.
  rewrite drain_equation_1 at 1. rewrite drain_clause. cbn [proj1_sig inspect].
  destruct (samplesPerChunk <=? Z.of_nat (length buf)) eqn:E; [|reflexivity].
  apply Z.leb_le in E. pose proof samplesPerChunk_eq as Hc.
  unfold splice. cbn [fst snd].
  replace (Z.min (Z.max samplesPerChunk 0) (Z.of_nat (length buf)))
    with samplesPerChunk by lia.
  reflexivity.
Qed.

(** What the loop establishes. *)
Lemma drain_spec (buf : list double) :
  Forall (fun c => Z.of_nat (length c) = samplesPerChunk) (fst (drain buf))
  /\ concat (fst (drain buf)) ++ snd (drain buf) = buf
  /\ Z.of_nat (length (snd (drain buf))) < samplesPerChunk
  /\ (Z.of_nat (length buf) < samplesPerChunk -> drain buf = ([], buf)).
Proof.
  remember (length buf) as n eqn:Hn. revert buf Hn.
  induction n as [n IH] using lt_wf_ind. intros buf ->.
  pose proof samplesPerChunk_eq as Hc.
  rewrite drain_step.
  destruct (samplesPerChunk <=? Z.of_nat (length buf)) eqn:E.
  - apply Z.leb_le in E.
    destruct (IH (length (drop (Z.to_nat samplesPerChunk) buf))
                 ltac:(rewrite length_drop; lia)
                 (drop (Z.to_nat samplesPerChunk) buf) eq_refl)
      as (Hall & Hcat & Hrem & _).
    cbn [fst snd]. split; [|split; [|split]].
    + constructor; [|exact Hall]. rewrite length_take. lia.
    + cbn [concat]. rewrite <- app_assoc, Hcat. apply take_drop.
    + exact Hrem.
    + lia.
  - apply Z.leb_gt in E. cbn [fst snd concat app].
    split; [constructor|]. split; [reflexivity|]. split; [exact E|].
    reflexivity.
Qed.

Lemma process_all_chunks (events : list (list double)) :
  forall audioBuffer,
    fst (process_all audioBuffer events)
    = map convertFloat32ToInt16 (chunks_of audioBuffer events).
Proof.
  induction events as [|inputData events IH]; intros audioBuffer;
    [reflexivity|].
  cbn [process_all chunks_of fst snd]. unfold onaudioprocess. cbn [fst snd].
  rewrite IH, map_app. reflexivity.
Qed.

Lemma process_all_spec (events : list (list double)) :
  forall audioBuffer,
    Forall (fun c => Z.of_nat (length c) = samplesPerChunk)
      (chunks_of audioBuffer events)
    /\ concat (chunks_of audioBuffer events)
       ++ snd (process_all audioBuffer events)
       = audioBuffer ++ concat events
    /\ (Z.of_nat (length audioBuffer) < samplesPerChunk ->
        Z.of_nat (length (snd (process_all audioBuffer events)))
        < samplesPerChunk).
Proof.
  induction events as [|inputData events IH]; intros audioBuffer.
  - cbn. rewrite app_nil_r. repeat split; auto.
  - cbn [process_all chunks_of fst snd concat]. unfold onaudioprocess.
    cbn [fst snd].
    destruct (drain_spec (audioBuffer ++ inputData)) as (Hall & Hcat & Hrem & _).
    destruct (IH (snd (drain (audioBuffer ++ inputData))))
      as (Hall' & Hcat' & Hrem').
    split; [apply Forall_app; split; assumption|].
    split; [|intros _; apply Hrem', Hrem].
    rewrite concat_app, <- app_assoc, Hcat', app_assoc, Hcat, <- app_assoc.
    reflexivity.
Qed.

(** Equal-sized pieces sit at multiples of their size in their
    concatenation. *)
Lemma piece_position {A} (n : nat) (cs : list (list A)) :
  Forall (fun c => length c = n) cs ->
  forall (i : nat) (c : list A), cs !! i = Some c ->
    c = take n (drop (i * n) (concat cs)).
Proof.
  induction 1 as [|c0 cs Hc0 Hcs IH]; intros i c Hi.
  - discriminate.
  - destruct i as [|i]; cbn in Hi.
    + injection Hi as <-. cbn [concat]. rewrite Nat.mul_0_l, drop_0.
      rewrite take_app_length' by (symmetry; exact Hc0). reflexivity.
    + cbn [concat]. replace (S i * n)%nat with (length c0 + i * n)%nat by lia.
      rewrite drop_app_add. apply IH. exact Hi.
Qed.

(** X17: the chunk sizes are whole numbers.  The products with the
    double 0.1 that the code computes, 24000 * 0.1 in the renderer and
    24000 * 2 * 2 * 0.1 in the main process, round to the doubles 2400 and
    9600 exactly, so lengths are compared with, and buffers are cut at,
    2400 samples and 9600 bytes. *)
Theorem chunk_sizes_are_whole :
  samplesPerChunk_number = of_Z samplesPerChunk
  /\ samplesPerChunk = 2400
  /\ CHUNK_SIZE_number = of_Z AudioChunker.CHUNK_SIZE
  /\ AudioChunker.CHUNK_SIZE = 9600.
Proof. repeat split; vm_compute; reflexivity. Qed.

(** X18: the renderer's processing loses no sample and reorders none.
    Over any sequence of [onaudioprocess] events from the empty buffer,
    the chunks spliced off, in the order they are sent, followed by what
    is left in the buffer are the samples received, in order; every chunk
    has exactly 2400 samples and less than a chunk stays buffered (there
    is no retention cap as in the main process).  The payload sent for
    chunk [i] has 2400 values, and its value [j] is the conversion of
    sample [i * 2400 + j] of the stream. *)
Theorem renderer_chunks_lose_nothing (events : list (list double)) :
  let r := process_all [] events in
  exists chunks : list (list double),
    fst r = map convertFloat32ToInt16 chunks
    /\ concat chunks ++ snd r = concat events
    /\ Forall (fun c => Z.of_nat (length c) = 2400) chunks
    /\ Z.of_nat (length (snd r)) < 2400
    /\ (forall (i : nat) (payload : list Z),
          fst r !! i = Some payload ->
          Z.of_nat (length payload) = 2400
          /\ forall j : nat,
               (j < 2400)%nat ->
               payload !! j
               = convert_sample <$> concat events !! (i * 2400 + j)%nat).
Proof.
  cbv zeta. exists (chunks_of [] events).
  destruct (process_all_spec events []) as (Hall & Hcat & Hrem).
  pose proof samplesPerChunk_eq as Hc. rewrite Hc in *.
  cbn [app] in Hcat.
  split; [apply process_all_chunks|].
  split; [exact Hcat|]. split; [exact Hall|].
  split; [apply Hrem; cbn; lia|].
  intros i payload Hi. rewrite process_all_chunks in Hi.
  rewrite list_lookup_fmap in Hi.
  destruct (chunks_of [] events !! i) as [c|] eqn:Hci; [|discriminate].
  injection Hi as <-. rewrite PcmProofs.convert_is_map.
  assert (Hlen : Forall (fun c : list double => length c = 2400%nat)
                   (chunks_of [] events)).
  { eapply Forall_impl; [exact Hall|]. cbn. intros c' Hc'. lia. }
  assert (Hclen : length c = 2400%nat).
  { rewrite Forall_lookup in Hlen. exact (Hlen i c Hci). }
  split; [rewrite length_map; lia|].
  intros j Hj. rewrite list_lookup_fmap. f_equal.
  rewrite (piece_position _ _ Hlen i c Hci) at 1.
  rewrite lookup_take_lt by lia. rewrite lookup_drop.
  rewrite <- Hcat. rewrite lookup_app_l; [reflexivity|].
  assert (Hsome : is_Some (c !! j)) by (apply lookup_lt_is_Some; lia).
  rewrite (piece_position _ _ Hlen i c Hci) in Hsome.
  rewrite lookup_take_lt in Hsome by lia. rewrite lookup_drop in Hsome.
  apply lookup_lt_is_Some in Hsome. exact Hsome.
Qed.

End RendererAudioProofs.

(** * The renderer's token tracker *)

Module TokenTrackerProofs.
Import Pcm TokenTracker Exhaustive.

Local Open Scope string_scope.
Local Open Scope list_scope.
Local Open Scope Z_scope.

Lemma option_Z_eqb_eq (a b : option Z) : option_Z_eqb a b = true -> a = b.
Proof.
  destruct a, b; cbn; try discriminate; [|reflexivity].
  intros H. apply Z.eqb_eq in H. subst. reflexivity.
Qed.

(** The number of tiles along one dimension. *)
Lemma tiles_along (pixels : Z) :
  0 <= pixels < 16384 ->
  Math_ceil (SFdiv prec emax (of_Z pixels) (of_Z 768))
  = Some ((pixels + 767) / 768).
Proof.
  intros Hp.
  assert (H : Exhaustive.holds_from (Z.to_nat 16384) 0
                (fun p => option_Z_eqb
                            (Math_ceil (SFdiv prec emax (of_Z p) (of_Z 768)))
                            (Some ((p + 767) / 768))) = true)
    by (vm_compute; reflexivity).
  apply option_Z_eqb_eq.
  apply (StereoMonoProofs.holds_from_sound _ _ 0 pixels H). lia.
Qed.

(** The audio tokens of an interval of [elapsed] milliseconds. *)
Lemma audio_tokens_of (elapsed : Z) :
  0 <= elapsed < 16384 ->
  Math_floor (SFmul prec emax
                (SFdiv prec emax (of_Z elapsed) (of_Z 1000)) (of_Z 32))
  = Some (elapsed * 32 / 1000).
Proof.
  intros Hp.
  assert (H : Exhaustive.holds_from (Z.to_nat 16384) 0
                (fun d => option_Z_eqb
                            (Math_floor
                               (SFmul prec emax
                                  (SFdiv prec emax (of_Z d) (of_Z 1000))
                                  (of_Z 32)))
                            (Some (d * 32 / 1000))) = true)
    by (vm_compute; reflexivity).
  apply option_Z_eqb_eq.
  apply (StereoMonoProofs.holds_from_sound _ _ 0 elapsed H). lia.
Qed.

Lemma one_tile (pixels : Z) :
  1 <= pixels <= 768 -> (pixels + 767) / 768 = 1.
Proof.
  intros H. symmetry. apply (Z.div_unique _ _ 1 (pixels - 1)); lia.
Qed.

Lemma tiles_monotone (a b : Z) :
  a <= b -> (a + 767) / 768 <= (b + 767) / 768.
Proof. intros H. apply Z.div_le_mono; lia. Qed.

Lemma tiles_positive (pixels : Z) : 1 <= pixels -> 1 <= (pixels + 767) / 768.
Proof.
  intros H. replace 1 with (768 / 768) at 1 by reflexivity.
  apply Z.div_le_mono; lia.
Qed.

Lemma calculateImageTokens_formula (width height : Z) :
  1 <= width < 16384 -> 1 <= height < 16384 ->
  calculateImageTokens width height
  = Some (((width + 767) / 768) * ((height + 767) / 768) * 258).
Proof.
  intros Hw Hh. unfold calculateImageTokens.
  destruct ((width <=? 384) && (height <=? 384)) eqn:Hsmall.
  - apply andb_true_iff in Hsmall. destruct Hsmall as [H1 H2].
    apply Z.leb_le in H1. apply Z.leb_le in H2.
    rewrite !one_tile by lia. reflexivity.
  - rewrite !tiles_along by lia. reflexivity.
Qed.

(** X19: the token cost of an image whose sides are between 1 and 16383
    pixels is 258 for every 768 by 768 tile needed to cover it; the
    branch for images of at most 384 by 384 pixels agrees with that rule.
    So the cost is at least 258 and grows with either side.  A side of 0
    is different: such an image costs 258 tokens when the other side is
    at most 384 and nothing when it is longer. *)
Theorem image_tokens_count_tiles (width height : Z) :
  1 <= width < 16384 -> 1 <= height < 16384 ->
  let tiles := ((width + 767) / 768) * ((height + 767) / 768) in
  calculateImageTokens width height = Some (tiles * 258)
  /\ 258 <= tiles * 258
  /\ (forall width' height' : Z,
        width <= width' < 16384 -> height <= height' < 16384 ->
        exists more : Z,
          calculateImageTokens width' height' = Some more
          /\ tiles * 258 <= more)
  /\ calculateImageTokens 0 height
     = Some (if height <=? 384 then 258 else 0).
Proof.
  intros Hw Hh. cbv zeta.
  pose proof (tiles_positive width ltac:(lia)) as Tw.
  pose proof (tiles_positive height ltac:(lia)) as Th.
  split; [apply calculateImageTokens_formula; assumption|].
  split; [nia|]. split.
  - intros w' h' Hw' Hh'. eexists.
    split; [apply calculateImageTokens_formula; lia|].
    pose proof (tiles_monotone width w' ltac:(lia)).
    pose proof (tiles_monotone height h' ltac:(lia)).
    nia.
  - unfold calculateImageTokens. cbn [Z.leb Z.compare andb].
    destruct (height <=? 384); [reflexivity|].
    rewrite (tiles_along height) by lia. reflexivity.
Qed.

Section WithEnvironment.

Variable Date_now : nat -> Z.
Variable localStorage_getItem : string -> option string.

#[local] Abbreviation cleanOldTokens := (cleanOldTokens Date_now).
#[local] Abbreviation addTokens := (addTokens Date_now).
#[local] Abbreviation trackAudioTokens := (trackAudioTokens Date_now).
#[local] Abbreviation getTokensInLastMinute :=
  (getTokensInLastMinute Date_now).
#[local] Abbreviation shouldThrottle :=
  (shouldThrottle Date_now localStorage_getItem).
#[local] Abbreviation apply_ := (apply Date_now localStorage_getItem).
#[local] Abbreviation run := (run Date_now localStorage_getItem).
#[local] Abbreviation within_minute := (within_minute Date_now).

Lemma cleanOldTokens_fields (t : tracker) :
  tokens (cleanOldTokens t)
  = List.filter
      (fun token => Date_now (clockReads t) - 60 * 1000 <? timestamp token)
      (tokens t)
  /\ audioStartTime (cleanOldTokens t) = audioStartTime t
  /\ clockReads (cleanOldTokens t) = S (clockReads t).
Proof. destruct t. repeat split. Qed.

Lemma addTokens_fields (count : Z) (type : token_type) (t : tracker) :
  tokens (addTokens count type t)
  = List.filter
      (fun token =>
         Date_now (S (clockReads t)) - 60 * 1000 <? timestamp token)
      (tokens t ++ [mkToken (Date_now (clockReads t)) count type])
  /\ audioStartTime (addTokens count type t) = audioStartTime t
  /\ clockReads (addTokens count type t) = S (S (clockReads t)).
Proof. destruct t. repeat split. Qed.

(** X20: [trackAudioTokens] credits 32 tokens per second of audio, in
    whole tokens: called after [elapsed] milliseconds (less than 16384)
    it credits the whole part of [elapsed * 32 / 1000] as one audio entry,
    stamped with the next reading of the clock, and restarts the interval
    at the reading the elapsed time was taken from.  When that is
    zero, which is when less than 32 ms have passed, it credits nothing
    and keeps the start of the interval, so that short intervals add up
    instead of being lost. *)
Theorem audio_tokens_are_credited_whole (start : Z) (t : tracker) :
  audioStartTime t = Some start ->
  start <> 0 ->
  0 <= Date_now (clockReads t) - start < 16384 ->
  let now := Date_now (clockReads t) in
  let audioTokens := (now - start) * 32 / 1000 in
  if 32 <=? now - start
  then 1 <= audioTokens
       /\ audioStartTime (trackAudioTokens t) = Some now
       /\ tokens (trackAudioTokens t)
          = List.filter
              (fun token =>
                 Date_now (S (S (clockReads t))) - 60 * 1000
                 <? timestamp token)
              (tokens t
               ++ [mkToken (Date_now (S (clockReads t))) audioTokens audio])
  else audioTokens = 0
       /\ audioStartTime (trackAudioTokens t) = Some start
       /\ tokens (trackAudioTokens t) = tokens t.
Proof.
  intros Hstart Hnz Hrange. cbv zeta.
  unfold TokenTracker.trackAudioTokens. rewrite Hstart.
  assert (Hne : (start =? 0) = false) by (apply Z.eqb_neq; exact Hnz).
  rewrite Hne. cbn [negb]. unfold read_clock.
  cbn [audioStartTime tokens clockReads default].
  rewrite Hstart. cbn [default from_option id].
  rewrite (audio_tokens_of _ Hrange).
  set (elapsed := Date_now (clockReads t) - start) in *.
  destruct (32 <=? elapsed) eqn:Hlong.
  - apply Z.leb_le in Hlong.
    assert (Hpos : 1 <= elapsed * 32 / 1000).
    { apply Z.div_le_lower_bound; lia. }
    assert (Hlt : (0 <? elapsed * 32 / 1000) = true) by (apply Z.ltb_lt; lia).
    rewrite Hlt. split; [exact Hpos|].
    destruct t as [toks st clk]. cbn in *. split; reflexivity.
  - apply Z.leb_gt in Hlong.
    assert (Hzero : elapsed * 32 / 1000 = 0).
    { apply Z.div_small. lia. }
    rewrite Hzero. cbn [Z.ltb Z.compare].
    destruct t as [toks st clk]. cbn in *. subst st. repeat split.
Qed.

(** *** The sliding window *)

Lemma kept_by_cleanOldTokens (tok : token) (t : tracker) :
  within_minute tok t (cleanOldTokens t) ->
  In tok (tokens t) -> In tok (tokens (cleanOldTokens t)).
Proof.
  destruct (cleanOldTokens_fields t) as (-> & _ & Hclk).
  intros Hin Htok. apply filter_In. split; [exact Htok|].
  apply Z.ltb_lt. apply Hin. rewrite Hclk. lia.
Qed.

Lemma kept_by_addTokens (tok : token) (count : Z) (type : token_type)
    (t : tracker) :
  within_minute tok t (addTokens count type t) ->
  In tok (tokens t) -> In tok (tokens (addTokens count type t)).
Proof.
  destruct (addTokens_fields count type t) as (-> & _ & Hclk).
  intros Hin Htok. apply filter_In. split.
  - apply in_or_app. left. exact Htok.
  - apply Z.ltb_lt. apply Hin. rewrite Hclk. lia.
Qed.

Lemma trackAudioTokens_cases (t : tracker) :
  (tokens (trackAudioTokens t) = tokens t
   /\ (clockReads t <= clockReads (trackAudioTokens t))%nat)
  \/ exists (count : Z) (t1 : tracker),
       tokens (trackAudioTokens t) = tokens (addTokens count audio t1)
       /\ clockReads (trackAudioTokens t)
          = clockReads (addTokens count audio t1)
       /\ tokens t1 = tokens t
       /\ clockReads t1 = S (clockReads t).
Proof.
  unfold TokenTracker.trackAudioTokens.
  destruct (negb match audioStartTime t with
                 | Some start => negb (start =? 0)
                 | None => false
                 end).
  { left. destruct t. cbn. split; [reflexivity|lia]. }
  unfold read_clock. cbn [tokens audioStartTime clockReads].
  destruct (Math_floor _) as [n|]; [|left; cbn; split; [reflexivity|lia]].
  destruct (0 <? n); [|left; cbn; split; [reflexivity|lia]].
  right. exists n.
  exists (mkTracker (tokens t) (audioStartTime t) (S (clockReads t))).
  split; [|split; [|split]]; reflexivity.
Qed.

Lemma shouldThrottle_state (t : tracker) :
  snd (shouldThrottle t) = t
  \/ snd (shouldThrottle t) = cleanOldTokens t.
Proof.
  unfold TokenTracker.shouldThrottle.
  destruct (negb _); [left; reflexivity|].
  right. unfold TokenTracker.getTokensInLastMinute.
  destruct (parseInt _) as [m|]; [|reflexivity].
  destruct (parseInt _) as [p|]; [|reflexivity].
  destruct (SFdiv _ _ _ _) as [z|[|]| |z mantissa e];
    destruct (Math_floor _); reflexivity.
Qed.

Lemma clock_advances (o : operation) (t : tracker) :
  (clockReads t <= clockReads (apply_ o t))%nat.
Proof.
  destruct o as [c ty| | | |]; cbn [TokenTracker.apply].
  - destruct (addTokens_fields c ty t) as (_ & _ & ->). lia.
  - destruct (trackAudioTokens_cases t)
      as [[_ H]|(n & t1 & _ & -> & _ & H1)]; [exact H|].
    destruct (addTokens_fields n audio t1) as (_ & _ & ->). lia.
  - destruct (cleanOldTokens_fields t) as (_ & _ & ->). lia.
  - unfold TokenTracker.getTokensInLastMinute. cbn [snd].
    destruct (cleanOldTokens_fields t) as (_ & _ & ->). lia.
  - destruct (shouldThrottle_state t) as [->| ->]; [lia|].
    destruct (cleanOldTokens_fields t) as (_ & _ & ->). lia.
Qed.

Lemma kept_by_operation (tok : token) (o : operation) (t : tracker) :
  within_minute tok t (apply_ o t) ->
  In tok (tokens t) -> In tok (tokens (apply_ o t)).
Proof.
  destruct o as [c ty| | | |]; cbn [TokenTracker.apply].
  - apply kept_by_addTokens.
  - unfold TokenTracker.within_minute at 1.
    destruct (trackAudioTokens_cases t)
      as [[-> _]|(n & t1 & -> & -> & Ht1 & Hc1)]; [auto|].
    intros Hin Htok. apply kept_by_addTokens; [|rewrite Ht1; exact Htok].
    intros k Hk. apply Hin. lia.
  - apply kept_by_cleanOldTokens.
  - unfold TokenTracker.getTokensInLastMinute. cbn [snd].
    apply kept_by_cleanOldTokens.
  - destruct (shouldThrottle_state t) as [->| ->]; [auto|].
    apply kept_by_cleanOldTokens.
Qed.

Lemma clock_advances_run (operations : list operation) :
  forall t, (clockReads t <= clockReads (run operations t))%nat.
Proof.
  unfold TokenTracker.run.
  induction operations as [|o operations IH]; intros t; cbn [fold_left];
    [lia|].
  pose proof (clock_advances o t). pose proof (IH (apply_ o t)). lia.
Qed.

Lemma kept_by_run (tok : token) (operations : list operation) :
  forall t,
    within_minute tok t (run operations t) ->
    In tok (tokens t) -> In tok (tokens (run operations t)).
Proof.
  unfold TokenTracker.run.
  induction operations as [|o operations IH]; intros t Hin Htok;
    cbn [fold_left] in *; [exact Htok|].
  pose proof (clock_advances o t) as H1.
  pose proof (clock_advances_run operations (apply_ o t)) as H2.
  unfold TokenTracker.run in H2.
  apply IH.
  - intros k Hk. apply Hin. lia.
  - apply kept_by_operation; [|exact Htok].
    intros k Hk. apply Hin. lia.
Qed.

(** X21: a token is counted for one minute.  With a clock that does not
    run backwards, whatever is done to the tracker in between (tokens
    added, audio tracked, totals and throttling asked for, but no reset),
    a token that
    is in the tracker is still there when the total of the last minute is
    taken exactly if its time stamp is less than 60 seconds before the
    clock reading of that call; the total is the sum of the counts of the
    tokens that are left. *)
Theorem token_counts_for_a_minute (operations : list operation)
    (tok : token) (t : tracker) :
  (forall i j : nat, (i <= j)%nat -> Date_now i <= Date_now j) ->
  In tok (tokens t) ->
  let before := run operations t in
  let now := Date_now (clockReads before) in
  (In tok (tokens (snd (getTokensInLastMinute before)))
   <-> now - 60000 < timestamp tok)
  /\ fst (getTokensInLastMinute before)
     = fold_left (fun total token => total + count token)
         (tokens (snd (getTokensInLastMinute before))) 0.
Proof.
  intros Hmono Htok. cbv zeta.
  split; [|reflexivity].
  unfold TokenTracker.getTokensInLastMinute. cbn [snd].
  destruct (cleanOldTokens_fields (run operations t)) as (-> & _ & _).
  rewrite filter_In, Z.ltb_lt. change (60 * 1000) with 60000.
  split; [intros [_ H]; exact H|].
  intros Hrecent. split; [|exact Hrecent].
  apply kept_by_run; [|exact Htok].
  intros k Hk. change (60 * 1000) with 60000.
  pose proof (Hmono k (clockReads (run operations t)) ltac:(lia)). lia.
Qed.

(** X22: throttling.  Unless the setting [throttleTokens] is the string
    "true", [shouldThrottle] answers no without touching the tracker.
    When it is, and the limits are not set, the defaults (1000000 tokens
    per minute, throttled at 75 percent) make it answer yes exactly when
    the tokens of the last minute reach 750000.  A limit that does not
    start with a number makes it answer no, whatever has been used. *)
Theorem throttling_follows_the_settings (t : tracker) :
  (localStorage_getItem "throttleTokens" <> Some "true" ->
   shouldThrottle t = (false, t))
  /\ (localStorage_getItem "throttleTokens" = Some "true" ->
      localStorage_getItem "maxTokensPerMin" = None ->
      localStorage_getItem "throttleAtPercent" = None ->
      shouldThrottle t
      = (750000 <=? fst (getTokensInLastMinute t),
         snd (getTokensInLastMinute t)))
  /\ (parseInt (or_default (localStorage_getItem "maxTokensPerMin")
                  "1000000") = None
      \/ parseInt (or_default (localStorage_getItem "throttleAtPercent")
                     "75") = None ->
      fst (shouldThrottle t) = false).
Proof.
  unfold TokenTracker.shouldThrottle. split; [|split].
  - intros Hoff.
    destruct (localStorage_getItem "throttleTokens") as [s|]; [|reflexivity].
    destruct (String.eqb s "true") eqn:Hs; [|reflexivity].
    apply String.eqb_eq in Hs. subst s. contradiction.
  - intros -> -> ->. cbn [String.eqb Ascii.eqb Bool.eqb negb or_default].
    destruct (getTokensInLastMinute t) as [currentTokens t'].
    cbn [fst snd]. reflexivity.
  - intros Hnan.
    destruct (negb _); [reflexivity|].
    destruct (getTokensInLastMinute t) as [currentTokens t'].
    destruct Hnan as [-> | ->]; [reflexivity|].
    destruct (parseInt _); reflexivity.
Qed.

End WithEnvironment.

Lemma image_tokens_count_tiles_witness :
  calculateImageTokens 1920 1080 = Some 1548.
Proof.
  destruct (image_tokens_count_tiles 1920 1080 ltac:(lia) ltac:(lia))
    as (H & _).
  exact H.
Defined.

Lemma audio_tokens_are_credited_whole_witness :
  let Date_now := fun k : nat => 3000 + Z.of_nat k in
  let t := mkTracker [] (Some 1000) 0 in
  audioStartTime (trackAudioTokens Date_now t) = Some 3000
  /\ tokens (trackAudioTokens Date_now t) = [mkToken 3001 64 audio].
Proof.
  destruct (audio_tokens_are_credited_whole
              (fun k : nat => 3000 + Z.of_nat k) 1000
              (mkTracker [] (Some 1000) 0)
              eq_refl ltac:(lia) ltac:(cbn; lia))
    as (_ & Hstart & Htokens).
  split; [exact Hstart|exact Htokens].
Defined.

Lemma token_counts_for_a_minute_witness :
  let Date_now := fun k : nat => 1000 * Z.of_nat k in
  let t := mkTracker [mkToken 0 258 image] None 1 in
  let before :=
    run Date_now (fun _ => None) [AddTokens 258 image; TrackAudioTokens] t in
  In (mkToken 0 258 image)
    (tokens (snd (getTokensInLastMinute Date_now before)))
  /\ fst (getTokensInLastMinute Date_now before) = 516.
Proof.
  destruct (token_counts_for_a_minute
              (fun k : nat => 1000 * Z.of_nat k) (fun _ => None)
              [AddTokens 258 image; TrackAudioTokens]
              (mkToken 0 258 image)
              (mkTracker [mkToken 0 258 image] None 1)
              ltac:(intros i j Hij; cbn beta; lia)
              ltac:(left; reflexivity))
    as (Hin & Htotal).
  split; [apply Hin; vm_compute; reflexivity|].
  rewrite Htotal. vm_compute. reflexivity.
Defined.

End TokenTrackerProofs.

(** * The registry of analyzed and active projects *)

Module ProjectsProofs.
Import Projects.

Local Open Scope string_scope.
Local Open Scope list_scope.

Lemma Set_has_In (s : list string) (x : string) :
  Set_has s x = true <-> In x s.
Proof.
  unfold Set_has. rewrite existsb_exists. split.
  - intros (y & Hy & Heq). apply String.eqb_eq in Heq. subst. exact Hy.
  - intros H. exists x. split; [exact H|apply String.eqb_refl].
Qed.

Lemma Map_has_In {V} (m : list (string * V)) (k : string) :
  Map_has m k = true <-> In k (map fst m).
Proof.
  unfold Map_has. rewrite existsb_exists, in_map_iff. split.
  - intros (e & He & Heq). apply String.eqb_eq in Heq. exists e. auto.
  - intros (e & Heq & He). exists e. split; [exact He|].
    rewrite Heq. apply String.eqb_refl.
Qed.

Lemma Map_get_has {V} (m : list (string * V)) (k : string) :
  Map_has m k = match Map_get m k with Some _ => true | None => false end.
Proof.
  unfold Map_has, Map_get. induction m as [|e m IH]; [reflexivity|].
  cbn [existsb List.find]. destruct (String.eqb (fst e) k); [reflexivity|].
  exact IH.
Qed.

Lemma Set_add_In (s : list string) (x y : string) :
  In y (Set_add s x) <-> In y s \/ y = x.
Proof.
  unfold Set_add. destruct (Set_has s x) eqn:H.
  - apply Set_has_In in H. split; [auto|]. intros [Hy| ->]; assumption.
  - rewrite in_app_iff. cbn. split.
    + intros [Hy|[Hy|[]]]; [left; exact Hy|right; symmetry; exact Hy].
    + intros [Hy|Hy]; [left; exact Hy|right; left; symmetry; exact Hy].
Qed.

Lemma Set_add_NoDup (s : list string) (x : string) :
  List.NoDup s -> List.NoDup (Set_add s x).
Proof.
  intros Hs. unfold Set_add. destruct (Set_has s x) eqn:H; [exact Hs|].
  assert (Hx : ~ In x s).
  { intros Hin. apply Set_has_In in Hin. congruence. }
  clear H. induction Hs as [|y s Hy Hs IH]; cbn.
  - constructor; [intros []|constructor].
  - constructor.
    + rewrite in_app_iff. cbn. intros [H|[H|[]]]; [auto|].
      apply Hx. left. symmetry. exact H.
    + apply IH. intros H. apply Hx. right. exact H.
Qed.

Lemma Set_delete_In (s : list string) (x y : string) :
  In y (Set_delete s x) <-> In y s /\ y <> x.
Proof.
  unfold Set_delete. rewrite filter_In, negb_true_iff.
  split; intros [H1 H2]; (split; [exact H1|]).
  - intros ->. rewrite String.eqb_refl in H2. discriminate.
  - apply String.eqb_neq. exact H2.
Qed.

Lemma filter_NoDup {A} (f : A -> bool) (l : list A) :
  List.NoDup l -> List.NoDup (List.filter f l).
Proof.
  induction 1 as [|x l Hx Hl IH]; cbn; [constructor|].
  destruct (f x); [|exact IH].
  constructor; [|exact IH]. rewrite filter_In. intros [H _]. auto.
Qed.

Lemma Map_set_keys {V} (m : list (string * V)) (k : string) (v : V) :
  map fst (Map_set m k v) = Set_add (map fst m) k.
Proof.
  unfold Set_add, Set_has.
  induction m as [|e m IH]; [reflexivity|].
  cbn [Map_set map existsb].
  destruct (String.eqb (fst e) k) eqn:E.
  - cbn [orb map fst]. apply String.eqb_eq in E. rewrite E. reflexivity.
  - cbn [orb map]. rewrite IH.
    destruct (existsb (fun x => String.eqb x k) (map fst m)); reflexivity.
Qed.

Lemma Map_delete_keys {V} (m : list (string * V)) (k : string) :
  map fst (Map_delete m k) = Set_delete (map fst m) k.
Proof.
  unfold Map_delete, Set_delete.
  induction m as [|e m IH]; [reflexivity|].
  cbn [List.filter map]. destruct (negb (String.eqb (fst e) k)); cbn [map];
    rewrite IH; reflexivity.
Qed.

Section WithData.

Context {ProjectData SearchIndex : Type}.

#[local] Abbreviation registry := (registry ProjectData SearchIndex).
#[local] Abbreviation request := (request ProjectData SearchIndex).

Lemma store_fields (windowOpen removeWhenEmpty : bool) (r : registry) :
  projects (store windowOpen removeWhenEmpty r) = projects r
  /\ codeIndices (store windowOpen removeWhenEmpty r) = codeIndices r
  /\ activeProjects (store windowOpen removeWhenEmpty r) = activeProjects r.
Proof. unfold store. destruct windowOpen; repeat split. Qed.

Lemma consistent_store (windowOpen removeWhenEmpty : bool) (r : registry) :
  consistent r -> consistent (store windowOpen removeWhenEmpty r).
Proof.
  unfold consistent.
  destruct (store_fields windowOpen removeWhenEmpty r) as (-> & -> & ->).
  exact (fun H => H).
Qed.

Lemma restore_names_acc (names : list string) (r : registry) :
  forall acc : list string,
    List.NoDup acc ->
    (forall name, In name acc -> Map_has (projects r) name = true) ->
    let active :=
      fold_left
        (fun active projectName =>
           if Map_has (projects r) projectName
           then Set_add active projectName else active)
        names acc in
    List.NoDup active
    /\ (forall name, In name active -> Map_has (projects r) name = true).
Proof.
  induction names as [|n names IH]; intros acc Hnd Hin; cbn [fold_left].
  - split; assumption.
  - apply IH.
    + destruct (Map_has (projects r) n); [apply Set_add_NoDup|]; exact Hnd.
    + intros name. destruct (Map_has (projects r) n) eqn:Hn; [|apply Hin].
      rewrite Set_add_In. intros [H| ->]; [apply Hin, H|exact Hn].
Qed.

Lemma consistent_handle (q : request) (r : registry) :
  consistent r -> consistent (snd (handle q r)).
Proof.
  intros (Hnd & Hin & Hkeys & Hpnd).
  destruct q as [name [[data index]|message]|w name|w name|w name|w];
    cbn [handle].
  - unfold ipc_analyze_project, consistent.
    cbn [snd projects codeIndices activeProjects stored].
    split; [exact Hnd|]. split; [|split].
    + intros n Hn. apply Map_has_In. rewrite Map_set_keys, Set_add_In.
      left. apply Map_has_In, Hin, Hn.
    + rewrite !Map_set_keys, Hkeys. reflexivity.
    + rewrite Map_set_keys. apply Set_add_NoDup, Hpnd.
  - cbn. unfold consistent. auto.
  - unfold ipc_activate_project.
    destruct (Map_get (projects r) name) eqn:Hget;
      [|cbn; unfold consistent; auto].
    cbn [snd]. apply consistent_store. unfold consistent.
    cbn [projects codeIndices activeProjects stored].
    split; [apply Set_add_NoDup, Hnd|]. split; [|split; assumption].
    intros n. rewrite Set_add_In. intros [H| ->]; [apply Hin, H|].
    rewrite Map_get_has, Hget. reflexivity.
  - unfold ipc_deactivate_project. cbn [snd]. apply consistent_store.
    unfold consistent.
    cbn [projects codeIndices activeProjects stored].
    destruct (negb (Js.truthy name)).
    + split; [constructor|]. split; [intros n []|split; assumption].
    + split; [apply filter_NoDup, Hnd|]. split; [|split; assumption].
      intros n. rewrite Set_delete_In. intros [H _]. apply Hin, H.
  - unfold ipc_delete_project. cbn [snd].
    assert (Hmid : exists stored',
               (if Set_has (activeProjects r) name
                then store w true
                       (mkRegistry (projects r) (codeIndices r)
                          (Set_delete (activeProjects r) name) (stored r))
                else r)
               = mkRegistry (projects r) (codeIndices r)
                   (Set_delete (activeProjects r) name) stored').
    { destruct (Set_has (activeProjects r) name) eqn:Hhas.
      - unfold store. destruct w; eexists; reflexivity.
      - exists (stored r). destruct r as [p c a st].
        cbn [projects codeIndices activeProjects stored] in *. f_equal.
        unfold Set_delete. symmetry. apply forallb_filter_id.
        apply forallb_forall. intros x Hx. apply negb_true_iff.
        apply String.eqb_neq. intros ->.
        apply Set_has_In in Hx. congruence. }
    destruct Hmid as (stored' & ->). unfold consistent.
    cbn [projects codeIndices activeProjects stored].
    split; [apply filter_NoDup, Hnd|]. split; [|split].
    + intros n. rewrite Set_delete_In. intros [H Hne].
      apply Map_has_In. rewrite Map_delete_keys, Set_delete_In.
      split; [apply Map_has_In, Hin, H|exact Hne].
    + rewrite !Map_delete_keys, Hkeys. reflexivity.
    + rewrite Map_delete_keys. apply filter_NoDup, Hpnd.
  - unfold ipc_restore_active_project.
    destruct w; [|cbn; unfold consistent; auto].
    destruct (stored r) as [| | |names]; cbn [snd];
      try (unfold consistent; auto; fail).
    + unfold consistent.
    cbn [projects codeIndices activeProjects stored].
      split; [constructor|]. split; [intros n []|split; assumption].
    + unfold consistent.
    cbn [projects codeIndices activeProjects stored].
      destruct (restore_names_acc names r [] ltac:(constructor)
                  ltac:(intros n [])) as [H1 H2].
      split; [exact H1|]. split; [exact H2|split; assumption].
Qed.

Lemma consistent_serve (requests : list request) :
  forall r : registry, consistent r -> consistent (serve requests r).
Proof.
  unfold serve.
  induction requests as [|q requests IH]; intros r H; [exact H|].
  cbn [fold_left]. apply IH, consistent_handle, H.
Qed.

Lemma consistent_started (left_over : stored_item) :
  consistent (started left_over : registry).
Proof.
  unfold consistent, started. cbn.
  split; [constructor|]. split; [intros n []|]. split; [reflexivity|].
  constructor.
Qed.

Lemma Map_get_delete {V} (m : list (string * V)) (k other : string) :
  Map_get (Map_delete m k) other
  = if String.eqb other k then None else Map_get m other.
Proof.
  unfold Map_get, Map_delete.
  induction m as [|e m IH]; cbn [List.filter List.find].
  - destruct (String.eqb other k); reflexivity.
  - destruct (String.eqb (fst e) k) eqn:Ek; cbn [negb List.find].
    + rewrite IH. apply String.eqb_eq in Ek.
      destruct (String.eqb other k) eqn:Eo; [reflexivity|].
      destruct (String.eqb (fst e) other) eqn:Ee; [|reflexivity].
      apply String.eqb_eq in Ee. apply String.eqb_neq in Eo. congruence.
    + destruct (String.eqb (fst e) other) eqn:Ee; [|exact IH].
      apply String.eqb_eq in Ee. rewrite <- Ee, Ek. reflexivity.
Qed.

Lemma Set_has_delete (s : list string) (k other : string) :
  Set_has (Set_delete s k) other
  = if String.eqb other k then false else Set_has s other.
Proof.
  destruct (Set_has (Set_delete s k) other) eqn:H.
  - apply Set_has_In, Set_delete_In in H. destruct H as [H Hne].
    apply String.eqb_neq in Hne. rewrite Hne. symmetry.
    apply Set_has_In, H.
  - destruct (String.eqb other k) eqn:E; [reflexivity|].
    destruct (Set_has s other) eqn:Hs; [|reflexivity].
    apply Set_has_In in Hs. apply String.eqb_neq in E.
    assert (Hin : In other (Set_delete s k))
      by (apply Set_delete_In; split; assumption).
    apply Set_has_In in Hin. congruence.
Qed.

Lemma restore_names_identity (names : list string) (r : registry) :
  (forall name, In name names -> Map_has (projects r) name = true) ->
  forall acc : list string,
    List.NoDup (acc ++ names) ->
    fold_left
      (fun active projectName =>
         if Map_has (projects r) projectName
         then Set_add active projectName else active)
      names acc
    = acc ++ names.
Proof.
  intros Hin. induction names as [|n names IH]; intros acc Hnd;
    cbn [fold_left].
  - rewrite app_nil_r. reflexivity.
  - rewrite (Hin n (or_introl eq_refl)).
    assert (Hn : Set_has acc n = false).
    { destruct (Set_has acc n) eqn:H; [|reflexivity].
      apply Set_has_In in H. apply List.NoDup_remove_2 in Hnd.
      exfalso. apply Hnd. apply in_or_app. left. exact H. }
    unfold Set_add at 2. rewrite Hn.
    rewrite IH.
    + rewrite <- app_assoc. reflexivity.
    + intros name H. apply Hin. right. exact H.
    + rewrite <- app_assoc. exact Hnd.
Qed.

Lemma restore_mirrored (r : registry) :
  consistent r ->
  stored r = Names (activeProjects r)
  \/ (activeProjects r = [] /\ stored r = NoItem) ->
  ipc_restore_active_project true r = (ok (activeProjects r), r).
Proof.
  intros (Hnd & Hin & _) Hm. unfold ipc_restore_active_project.
  destruct Hm as [Hs|[Ha Hs]]; rewrite Hs.
  - unfold restore_names.
    rewrite (restore_names_identity _ r Hin [] Hnd). cbn [app].
    rewrite <- Hs. destruct r; reflexivity.
  - rewrite Ha. reflexivity.
Qed.

(** X23: the registry stays consistent.  Whatever requests are served,
    with or without a window, from whatever an earlier run left in the
    renderer's storage, the active set lists no project twice, every
    active project has been analyzed and not deleted, and the two maps of
    the analyzer have the same names in the same order.  So the filter
    that [initializeGeminiSession] applies to the data of the active
    projects never drops one. *)
Theorem active_projects_are_analyzed (left_over : stored_item)
    (requests : list request) :
  let r := serve requests (started left_over) in
  List.NoDup (activeProjects r)
  /\ (forall name : string,
        In name (activeProjects r) ->
        exists data, Map_get (projects r) name = Some data)
  /\ map fst (projects r) = map fst (codeIndices r)
  /\ length (activeProjectsData r) = length (activeProjects r).
Proof.
  cbv zeta.
  destruct (consistent_serve requests _ (consistent_started left_over))
    as (Hnd & Hin & Hkeys & _).
  set (r := serve requests (started left_over)) in *.
  assert (Hget : forall name, In name (activeProjects r) ->
                 exists data, Map_get (projects r) name = Some data).
  { intros name H. apply Hin in H. rewrite Map_get_has in H.
    destruct (Map_get (projects r) name) as [data|]; [|discriminate].
    exists data. reflexivity. }
  split; [exact Hnd|]. split; [exact Hget|]. split; [exact Hkeys|].
  unfold activeProjectsData. clear Hnd Hin.
  induction (activeProjects r) as [|n names IH]; [reflexivity|].
  change (omap (fun name => Map_get (projects r) name) (n :: names))
    with (match Map_get (projects r) n with
          | Some d => d :: omap (fun name => Map_get (projects r) name) names
          | None => omap (fun name => Map_get (projects r) name) names
          end).
  destruct (Hget n (or_introl eq_refl)) as (d & ->). cbn [length].
  f_equal. apply IH. intros name H. apply Hget. right. exact H.
Qed.

(** X24: ['delete-project'] always reports a failure, and has deleted the
    project all the same.  The removal from the active set and from both
    maps of the analyzer comes first and is followed by a call of
    [deleteProjectData], which [CodeAnalyzer] does not have; the
    [TypeError] is what the handler answers.  Other projects are left as
    they are. *)
Theorem delete_project_reports_failure (windowOpen : bool)
    (projectName : string) (r : registry) :
  let result := ipc_delete_project windowOpen projectName r in
  success (fst result) = false
  /\ error (fst result)
     = Some "codeAnalyzer.deleteProjectData is not a function"
  /\ Map_get (projects (snd result)) projectName = None
  /\ Map_get (codeIndices (snd result)) projectName = None
  /\ Set_has (activeProjects (snd result)) projectName = false
  /\ (forall other : string,
        other <> projectName ->
        Map_get (projects (snd result)) other = Map_get (projects r) other
        /\ Set_has (activeProjects (snd result)) other
           = Set_has (activeProjects r) other).
Proof.
  cbv zeta. unfold ipc_delete_project. cbn [fst snd success error].
  cbn [projects codeIndices activeProjects].
  assert (Hmid :
            projects (if Set_has (activeProjects r) projectName
                      then store windowOpen true
                             (mkRegistry (projects r) (codeIndices r)
                                (Set_delete (activeProjects r) projectName)
                                (stored r))
                      else r) = projects r
            /\ codeIndices (if Set_has (activeProjects r) projectName
                            then store windowOpen true
                                   (mkRegistry (projects r) (codeIndices r)
                                      (Set_delete (activeProjects r)
                                         projectName)
                                      (stored r))
                            else r) = codeIndices r
            /\ forall other,
                 Set_has
                   (activeProjects
                      (if Set_has (activeProjects r) projectName
                       then store windowOpen true
                              (mkRegistry (projects r) (codeIndices r)
                                 (Set_delete (activeProjects r) projectName)
                                 (stored r))
                       else r)) other
                 = if String.eqb other projectName then false
                   else Set_has (activeProjects r) other).
  { destruct (Set_has (activeProjects r) projectName) eqn:Hhas.
    - destruct (store_fields windowOpen true
                  (mkRegistry (projects r) (codeIndices r)
                     (Set_delete (activeProjects r) projectName)
                     (stored r))) as (-> & -> & ->).
      cbn [projects codeIndices activeProjects].
      split; [reflexivity|]. split; [reflexivity|].
      intros other. apply Set_has_delete.
    - split; [reflexivity|]. split; [reflexivity|].
      intros other. destruct (String.eqb other projectName) eqn:E;
        [|reflexivity].
      apply String.eqb_eq in E. subst other. exact Hhas. }
  destruct Hmid as (-> & -> & Hactive).
  split; [reflexivity|]. split; [reflexivity|].
  split; [rewrite Map_get_delete, String.eqb_refl; reflexivity|].
  split; [rewrite Map_get_delete, String.eqb_refl; reflexivity|].
  split; [rewrite Hactive, String.eqb_refl; reflexivity|].
  intros other Hne. apply String.eqb_neq in Hne.
  rewrite Map_get_delete, Hactive, Hne. split; reflexivity.
Qed.

(** X25: restoring gives back what the last change stored.  In a state
    reached by serving requests, after an activation that succeeded or a
    deactivation, handled with a window open, ['restore-active-project']
    answers with the active set as it is and changes nothing.  With
    nothing to restore from (no window, no item, or an item that is not
    JSON) it answers with the empty list and leaves the active set as it
    is, whatever it holds. *)
Theorem restore_gives_back_the_stored_set (left_over : stored_item)
    (requests : list request) (projectName : string) :
  let r := serve requests (started left_over) in
  let activated := ipc_activate_project true projectName r in
  let deactivated := ipc_deactivate_project true projectName r in
  (success (fst activated) = true ->
   ipc_restore_active_project true (snd activated)
   = (ok (activeProjects (snd activated)), snd activated))
  /\ ipc_restore_active_project true (snd deactivated)
     = (ok (activeProjects (snd deactivated)), snd deactivated)
  /\ (forall (windowOpen : bool) (r' : registry),
        windowOpen = false \/ stored r' = NoItem \/ stored r' = Malformed ->
        ipc_restore_active_project windowOpen r' = (ok [], r')).
Proof.
  cbv zeta.
  pose proof (consistent_serve requests _ (consistent_started left_over))
    as Hr.
  set (r := serve requests (started left_over)) in *.
  split; [|split].
  - pose proof (consistent_handle (Activate true projectName) r Hr) as Hc.
    cbn [handle] in Hc. revert Hc. unfold ipc_activate_project.
    destruct (Map_get (projects r) projectName); [|discriminate].
    cbn [fst snd]. intros Hc _. apply restore_mirrored; [exact Hc|].
    left. reflexivity.
  - pose proof (consistent_handle (Deactivate true projectName) r Hr) as Hc.
    cbn [handle] in Hc. revert Hc. unfold ipc_deactivate_project.
    cbn [fst snd]. intros Hc. apply restore_mirrored; [exact Hc|].
    unfold store. cbn [activeProjects stored andb].
    destruct (if negb (Js.truthy projectName) then []
              else Set_delete (activeProjects r) projectName);
      [right; split; reflexivity|left; reflexivity].
  - intros w r' [->|[H|H]]; unfold ipc_restore_active_project;
      [reflexivity| |]; rewrite H; destruct w; reflexivity.
Qed.

End WithData.

End ProjectsProofs.

(** * Project questions *)

Module ManualProofs.
Import Session Manual.

Local Open Scope string_scope.
Local Open Scope list_scope.

Lemma lower_char_idempotent (c : ascii) :
  lower_char (lower_char c) = lower_char c.
Proof.
  destruct c as [[|] [|] [|] [|] [|] [|] [|] [|]]; vm_compute; reflexivity.
Qed.

Lemma toLowerCase_idempotent (s : string) :
  toLowerCase (toLowerCase s) = toLowerCase s.
Proof.
  induction s as [|c s IH]; [reflexivity|].
  cbn [toLowerCase]. rewrite lower_char_idempotent, IH. reflexivity.
Qed.

Lemma toLowerCase_truthy (s : string) :
  Js.truthy (toLowerCase s) = Js.truthy s.
Proof. destruct s; reflexivity. Qed.

Lemma keywords_are_lower_case :
  map toLowerCase projectKeywords = projectKeywords.
Proof. vm_compute. reflexivity. Qed.

(** X26: [detectProjectQuestion] does not look at letter case: a question
    and its lower-case form are detected alike.  A question is detected
    exactly when its lower-case form contains one of the keywords, which
    are written in lower case; the empty question never is. *)
Theorem detectProjectQuestion_ignores_case (question : string) :
  detectProjectQuestion (toLowerCase question) = detectProjectQuestion question
  /\ detectProjectQuestion question
     = existsb (fun keyword => Js.includes (toLowerCase question) keyword)
         projectKeywords
  /\ detectProjectQuestion "" = false.
Proof.
  assert (Hdetect : forall q,
             detectProjectQuestion q
             = existsb (fun keyword => Js.includes (toLowerCase q) keyword)
                 projectKeywords).
  { intros q. unfold detectProjectQuestion.
    destruct (Js.truthy q) eqn:Hq; cbn [negb].
    - rewrite <- keywords_are_lower_case at 2.
      generalize projectKeywords. intros keywords.
      induction keywords as [|k ks IH]; [reflexivity|].
      cbn [existsb map]. rewrite IH. reflexivity.
    - destruct q; [|discriminate]. vm_compute. reflexivity. }
  split; [|split; [apply Hdetect|reflexivity]].
  rewrite !Hdetect, toLowerCase_idempotent. reflexivity.
Qed.

End ManualProofs.

(** * Looking a project up by name *)

Module RendererProjectsProofs.
Import Manual RendererProjects.

Local Open Scope string_scope.
Local Open Scope list_scope.

Lemma includes_empty (hay : string) : Js.includes hay "" = true.
Proof. destruct hay; reflexivity. Qed.

Lemma includes_self (s : string) : Js.includes s s = true.
Proof.
  destruct s as [|c s]; [reflexivity|].
  cbn [Js.includes]. apply orb_true_iff. left.
  rewrite <- (RunProofs.append_empty_r (String c s)) at 2.
  apply RunProofs.prefix_append.
  generalize (String c s). intros t.
  induction t as [|d t IH]; [reflexivity|].
  cbn. destruct (ascii_dec d d); [exact IH|contradiction].
Qed.

(** X27: [getProjectByName] matches by containment in either direction,
    ignoring case, and returns the first match.  So the empty name finds
    the first project, whatever it is called; a project is always found
    by its own name, in whatever case; but the project found by a name
    need not be the project of that name: an earlier one whose name is a
    part of it is returned instead. *)
Theorem getProjectByName_matches_loosely (projects : list Project)
    (project : Project) :
  getProjectByName projects "" = head projects
  /\ (forall projectName : string,
        getProjectByName projects (toLowerCase projectName)
        = getProjectByName projects projectName)
  /\ (In project projects ->
      exists found : Project,
        getProjectByName projects (name project) = Some found
        /\ In found projects)
  /\ (exists (others : list Project) (wanted : Project),
        In wanted others
        /\ exists found : Project,
             getProjectByName others (name wanted) = Some found
             /\ name found <> name wanted).
Proof.
  unfold getProjectByName. split; [|split; [|split]].
  - destruct projects as [|p ps]; [reflexivity|].
    cbn [List.find head]. change (toLowerCase "") with "".
    rewrite includes_empty. reflexivity.
  - intros projectName. rewrite ManualProofs.toLowerCase_idempotent.
    reflexivity.
  - intros Hin.
    destruct (List.find
                (fun p =>
                   Js.includes (toLowerCase (name p))
                     (toLowerCase (name project))
                   || Js.includes (toLowerCase (name project))
                        (toLowerCase (name p)))
                projects) as [found|] eqn:Hfind.
    + exists found. split; [reflexivity|].
      apply find_some in Hfind. exact (proj1 Hfind).
    + exfalso. pose proof (find_none _ _ Hfind project Hin) as Hno.
      cbn beta in Hno. rewrite includes_self in Hno. discriminate.
  - exists [mkProject "App" []; mkProject "MyApp" []], (mkProject "MyApp" []).
    split; [right; left; reflexivity|].
    exists (mkProject "App" []). split; [reflexivity|discriminate].
Qed.

End RendererProjectsProofs.

(** * Interleavings of the session controller *)

Module InterleavingProofs.
Import Session Trace SessionSpec Ipc Manual Run Interleaving.

Local Open Scope string_scope.
Local Open Scope list_scope.

#[local] Arguments reconnectionContextHeader : simpl never.
#[local] Arguments sendReconnectionContext : simpl never.
#[local] Arguments Js.trim : simpl never.
#[local] Arguments Js.truthy : simpl never.
#[local] Opaque Session.attemptReconnection.

Ltac fields s :=
  destruct s as [id tr hist init rvq vqt amr buf att par ref tc clk hs];
  cbn [currentSessionId currentTranscription conversationHistory
       isInitializingSession recentVoiceQuestion voiceQuestionTimestamp
       awaitingManualResponse messageBuffer reconnectionAttempts
       lastSessionParams geminiSessionRef trace clockReads handshakes] in *.

(** *** Reading the phase off a trace *)

Lemma phase_after_app (t t' : list event) : forall ph : phase,
  phase_after ph (t ++ t')
  = match phase_after ph t with
    | Some ph' => phase_after ph' t'
    | None => None
    end.
Proof.
  induction t as [|e t IH]; intros ph; [reflexivity|].
  cbn [app phase_after].
  destruct e as [| |[|]| | | |p| | |]; try apply IH;
    destruct ph; try reflexivity; apply IH.
Qed.

Lemma phase_after_quiet (t : list event) (ph : phase) :
  forallb quiet_event t = true -> phase_after ph t = Some ph.
Proof.
  induction t as [|e t IH]; [reflexivity|].
  cbn [forallb]. intros H. apply andb_true_iff in H. destruct H as [He Ht].
  destruct e; try discriminate; cbn [phase_after]; apply IH, Ht.
Qed.

Lemma calm_refl (s : state) : calm s s.
Proof.
  split; [reflexivity|]. split; [auto|].
  exists []. rewrite app_nil_r. split; reflexivity.
Qed.

Lemma calm_trans (s1 s2 s3 : state) : calm s1 s2 -> calm s2 s3 -> calm s1 s3.
Proof.
  intros (F1 & A1 & e1 & T1 & Q1) (F2 & A2 & e2 & T2 & Q2).
  split; [congruence|]. split; [auto|].
  exists (e1 ++ e2). rewrite T2, T1, <- app_assoc. split; [reflexivity|].
  rewrite forallb_app, Q1, Q2. reflexivity.
Qed.

Ltac calm_by_computation :=
  unfold calm; cbn [isInitializingSession reconnectionAttempts trace];
  split; [reflexivity|]; split; [auto|];
  first [ exists []; rewrite app_nil_r; split; reflexivity
        | eexists; split; [rewrite <- ?app_assoc; reflexivity|reflexivity] ].

Lemma calm_emit (e : event) (s : state) :
  quiet_event e = true -> calm s (emit e s).
Proof.
  intros He. fields s. split; [reflexivity|]. split; [auto|].
  exists [e]. split; [reflexivity|]. cbn. rewrite He. reflexivity.
Qed.

Lemma forallb_quiet_responses (texts : list string) :
  forallb quiet_event (map UpdateResponse texts) = true.
Proof. induction texts as [|t texts IH]; [reflexivity|exact IH]. Qed.

Lemma calm_appendParts (parts : list Part) (s : state) :
  calm s (appendParts parts s).
Proof.
  rewrite RunProofs.appendParts_collects. fields s.
  split; [reflexivity|]. split; [auto|].
  eexists. split; [reflexivity|apply forallb_quiet_responses].
Qed.

Lemma orderly_calm (s s' : state) (tasks tasks' : list task) :
  orderly (mkWorld s tasks) ->
  calm s s' ->
  phase_of tasks' = phase_of tasks ->
  orderly (mkWorld s' tasks').
Proof.
  intros (Hatt & ph & Hph & Htasks & Hflag) (F & A & extra & T & Q) Hsame.
  unfold orderly. cbn [module_state pending] in *.
  split; [auto|]. exists ph. split; [|split].
  - rewrite T, phase_after_app, Hph. apply phase_after_quiet, Q.
  - rewrite Hsame. exact Htasks.
  - rewrite F. exact Hflag.
Qed.

Lemma phase_of_sleeping (tasks : list task) :
  phase_of (tasks ++ [Sleeping]) = phase_of tasks.
Proof. unfold phase_of. rewrite List.filter_app. cbn. rewrite app_nil_r. reflexivity. Qed.

Lemma phase_of_nothing (tasks : list task) :
  phase_of (tasks ++ []) = phase_of tasks.
Proof. rewrite app_nil_r. reflexivity. Qed.

Lemma phase_of_idle (tasks : list task) :
  phase_of tasks = Some Idle -> List.filter initializing tasks = [].
Proof.
  unfold phase_of. destruct (List.filter initializing tasks) as [|t ts];
    [reflexivity|].
  destruct t, ts; discriminate.
Qed.

Lemma phase_of_started (tasks : list task) (t : task) :
  phase_of tasks = Some Idle ->
  phase_of (tasks ++ [t])
  = match t with
    | Sleeping => Some Idle
    | Fetching _ _ => Some Entered
    | Connecting _ _ => Some Handshaking
    end.
Proof.
  intros H. apply phase_of_idle in H. unfold phase_of.
  rewrite List.filter_app, H. destruct t; reflexivity.
Qed.

Lemma filter_delete (tasks : list task) : forall (index : nat) (t : task),
  tasks !! index = Some t ->
  List.filter initializing tasks
  = List.filter initializing (take index tasks)
    ++ (if initializing t then [t] else [])
    ++ List.filter initializing (drop (S index) tasks)
  /\ List.filter initializing (delete index tasks)
     = List.filter initializing (take index tasks)
       ++ List.filter initializing (drop (S index) tasks).
Proof.
  induction tasks as [|t0 tasks IH]; intros index t Hi; [discriminate|].
  destruct index as [|index].
  - cbn in Hi. injection Hi as ->. cbn [take drop delete list_delete].
    cbn [List.filter app]. destruct (initializing t); split; reflexivity.
  - cbn in Hi. destruct (IH index t Hi) as [H1 H2].
    change (delete (S index) (t0 :: tasks)) with (t0 :: delete index tasks).
    change (take (S index) (t0 :: tasks)) with (t0 :: take index tasks).
    change (drop (S (S index)) (t0 :: tasks)) with (drop (S index) tasks).
    cbn [List.filter]. rewrite H2, H1.
    destruct (initializing t0); split; reflexivity.
Qed.

Lemma phase_of_resumed (tasks : list task) (index : nat) (t : task)
    (ph : phase) :
  tasks !! index = Some t ->
  phase_of tasks = Some ph ->
  match t with
  | Sleeping => phase_of (delete index tasks) = Some ph
  | Fetching _ _ => ph = Entered /\ phase_of (delete index tasks) = Some Idle
  | Connecting _ _ =>
      ph = Handshaking /\ phase_of (delete index tasks) = Some Idle
  end.
Proof.
  intros Hi. destruct (filter_delete tasks index t Hi) as [H1 H2].
  unfold phase_of. rewrite H2, H1.
  destruct (List.filter initializing (take index tasks)) as [|a [|b l]];
    destruct (List.filter initializing (drop (S index) tasks))
      as [|c [|d l']];
    destruct t; cbn [initializing app]; try discriminate;
    try (intros H; exact H);
    try (destruct a; discriminate);
    try (destruct a; try discriminate; destruct c; discriminate);
    try (destruct c; discriminate);
    try (intros [= <-]; split; reflexivity).
  all: try (destruct a; try discriminate; destruct b; discriminate).
  all: try (destruct c; try discriminate; destruct d; discriminate).
Qed.

Section WithEnvironment.

Variable Date_now : nat -> Z.
Variable live_connect : nat -> option session.
Variable projects_context : string -> string.

#[local] Abbreviation step := (step Date_now live_connect projects_context).
#[local] Abbreviation receive :=
  (receive Date_now live_connect projects_context).
#[local] Abbreviation resume := (resume Date_now live_connect).
#[local] Abbreviation initialize_connect :=
  (initialize_connect Date_now live_connect).
#[local] Abbreviation act := (act Date_now live_connect projects_context).
#[local] Abbreviation schedule :=
  (schedule Date_now live_connect projects_context).
#[local] Abbreviation eager :=
  (eager Date_now live_connect projects_context).

Lemma calm_accumulate (content : ServerContent) (s : state) :
  calm s (accumulate content s).
Proof.
  unfold accumulate.
  apply (calm_trans _
           match inputTranscription_results content with
           | Some results =>
               set_currentTranscription
                 (currentTranscription s +:+ formatSpeakerResults results) s
           | None => s
           end).
  - destruct (inputTranscription_results content) as [results|];
      [|apply calm_refl].
    generalize (formatSpeakerResults results). intros line.
    fields s. calm_by_computation.
  - destruct (modelTurn_parts content);
      [apply calm_appendParts|apply calm_refl].
Qed.

Lemma calm_accumulate_manual (content : ServerContent) (s : state) :
  calm s (accumulate_manual Date_now content s).
Proof.
  unfold accumulate_manual.
  match goal with
  | |- calm s (if awaitingManualResponse ?s1 then _ else _) =>
      apply (calm_trans _ s1)
  end.
  - destruct (inputTranscription_results content) as [results|];
      [|apply calm_refl].
    generalize (formatSpeakerResults results). intros line.
    fields s. unfold read_clock. cbn.
    destruct (Js.includes line "[Interviewer]:"); cbn; calm_by_computation.
  - match goal with
    | |- calm ?s1 _ => generalize s1
    end.
    intros s1. destruct (awaitingManualResponse s1); [|apply calm_refl].
    destruct (modelTurn_parts content);
      [apply calm_appendParts|apply calm_refl].
Qed.

Lemma calm_completeGeneration (s : state) :
  calm s (completeGeneration Date_now s).
Proof.
  fields s.
  unfold completeGeneration, saveConversationTurn, initializeNewSession,
    read_clock, emit. cbn.
  destruct (Js.truthy tr); cbn; [destruct (Js.truthy buf); cbn|];
    try destruct id; cbn; calm_by_computation.
Qed.

Lemma calm_awaiting (flag : bool) (s : state) :
  calm s (set_awaitingManualResponse flag s).
Proof. fields s. calm_by_computation. Qed.

Lemma calm_onmessage (message : Message) (s : state) :
  calm s (onmessage Date_now message s).
Proof.
  unfold onmessage. destruct (serverContent message) as [content|];
    [|apply calm_refl].
  apply (calm_trans _ (accumulate content s)); [apply calm_accumulate|].
  generalize (accumulate content s). intros s1.
  destruct (generationComplete content), (turnComplete content);
    repeat first
      [ apply calm_refl
      | apply calm_completeGeneration
      | eapply calm_trans; [|apply calm_emit; reflexivity] ].
Qed.

Lemma calm_onmessage_manual (message : Message) (s : state) :
  calm s (onmessage_manual Date_now message s).
Proof.
  unfold onmessage_manual. destruct (serverContent message) as [content|];
    [|apply calm_refl].
  apply (calm_trans _ (accumulate_manual Date_now content s));
    [apply calm_accumulate_manual|].
  generalize (accumulate_manual Date_now content s). intros s1.
  destruct (awaitingManualResponse s1 && generationComplete content),
    (turnComplete content);
    repeat first
      [ apply calm_refl
      | apply calm_completeGeneration
      | eapply calm_trans; [|apply calm_emit; reflexivity]
      | eapply calm_trans; [|apply calm_awaiting] ].
Qed.

Lemma calm_onerror (message : option string) (s : state) :
  calm s (onerror message s).
Proof.
  unfold onerror. destruct (isApiKeyError message);
    [|apply calm_emit; reflexivity].
  fields s. split; [reflexivity|]. split; [intros _; apply Nat.le_refl|].
  eexists. split; reflexivity.
Qed.

Lemma calm_close_session (s : state) : calm s (ipc_close_session s).
Proof.
  fields s. unfold ipc_close_session, emit. cbn.
  destruct ref as [[current|]|]; cbn; calm_by_computation.
Qed.

Lemma calm_new_session (s : state) : calm s (initializeNewSession Date_now s).
Proof. fields s. calm_by_computation. Qed.

Lemma calm_trigger (hasScreenshotContext : bool)
    (send_error : option string) (s : state) :
  calm s (snd (ipc_trigger_smart_response Date_now projects_context
                 hasScreenshotContext send_error s)).
Proof.
  unfold ipc_trigger_smart_response.
  destruct (geminiSessionRef s) as [[current|]|]; try apply calm_refl.
  assert (Hage : calm s (snd (voiceAge Date_now s))).
  { unfold voiceAge. destruct (voiceQuestionTimestamp s) as [stamp|];
      [|apply calm_refl].
    destruct (Js.truthy (recentVoiceQuestion s) && negb (stamp =? 0)%Z);
      [|apply calm_refl].
    fields s. calm_by_computation. }
  destruct (voiceAge Date_now s) as [age s1]. cbn [snd] in Hage.
  destruct (choosePrompt projects_context age hasScreenshotContext
              (recentVoiceQuestion s1)) as [responseType contextPrompt].
  apply (calm_trans _ s1); [exact Hage|].
  clear. fields s1. destruct send_error; cbn; calm_by_computation.
Qed.

(** *** The stretches of a reconnection *)

Lemma attempt_start_calm (s : state) :
  calm s (fst (attempt_start s))
  /\ (snd (attempt_start s) = [] \/ snd (attempt_start s) = [Sleeping]).
Proof.
  unfold attempt_start. destruct (reconnection_refused s) eqn:Hguard.
  - split; [apply calm_emit; reflexivity|left; reflexivity].
  - split; [|right; reflexivity].
    unfold reconnection_refused in Hguard.
    destruct (lastSessionParams s) eqn:Hp; [|discriminate].
    apply Nat.leb_gt in Hguard. clear Hp.
    fields s. unfold reconnection_begin, emit. cbn.
    split; [reflexivity|]. split; [intros _; exact Hguard|].
    eexists. split; reflexivity.
Qed.

Lemma attempt_retry_calm (s : state) :
  calm s (fst (attempt_retry s))
  /\ (snd (attempt_retry s) = [] \/ snd (attempt_retry s) = [Sleeping]).
Proof.
  unfold attempt_retry.
  destruct (Nat.ltb (reconnectionAttempts s) maxReconnectionAttempts);
    [apply attempt_start_calm|].
  split; [apply calm_emit; reflexivity|left; reflexivity].
Qed.

Lemma orderly_reconnecting (s s0 : state) (tasks tasks0 : list task)
    (r : state * list task) :
  orderly (mkWorld s0 tasks0) ->
  calm s0 s ->
  phase_of tasks = phase_of tasks0 ->
  calm s (fst r) /\ (snd r = [] \/ snd r = [Sleeping]) ->
  orderly (mkWorld (fst r) (tasks ++ snd r)).
Proof.
  intros Hw Hcalm Hsame [Hr Htasks].
  apply (orderly_calm s0 _ tasks0); [exact Hw| |].
  - exact (calm_trans _ _ _ Hcalm Hr).
  - destruct Htasks as [-> | ->];
      [rewrite phase_of_nothing|rewrite phase_of_sleeping]; exact Hsame.
Qed.

Lemma initialize_enter_some (params : SessionParams) (isReconnection : bool)
    (s s' : state) :
  initialize_enter params isReconnection s = Some s' ->
  isInitializingSession s = false
  /\ isInitializingSession s' = true
  /\ trace s' = trace s ++ [SessionInitializing true;
                            NewClient (apiKey params)]
  /\ ((reconnectionAttempts s <= maxReconnectionAttempts)%nat ->
      (reconnectionAttempts s' <= maxReconnectionAttempts)%nat).
Proof.
  unfold initialize_enter. fields s. destruct init; [discriminate|].
  intros [= <-]. unfold emit.
  destruct isReconnection; cbn; rewrite <- app_assoc;
    (split; [reflexivity|]; split; [reflexivity|]; split; [reflexivity|]);
    [auto|intros _; apply Nat.le_0_l].
Qed.

Lemma initialize_enter_none (params : SessionParams) (isReconnection : bool)
    (s : state) :
  initialize_enter params isReconnection s = None ->
  isInitializingSession s = true.
Proof.
  unfold initialize_enter. destruct (isInitializingSession s);
    [reflexivity|discriminate].
Qed.

Lemma orderly_entered (params : SessionParams) (isReconnection : bool)
    (s s' : state) (tasks : list task) :
  orderly (mkWorld s tasks) ->
  initialize_enter params isReconnection s = Some s' ->
  orderly (mkWorld s' (tasks ++ [Fetching params isReconnection])).
Proof.
  intros (Hatt & ph & Hph & Htasks & Hflag) Henter.
  cbn [module_state pending] in *.
  destruct (initialize_enter_some _ _ _ _ Henter) as (Hi & Hi' & Ht & Ha).
  rewrite Hi in Hflag. destruct ph; try discriminate.
  unfold orderly. cbn [module_state pending].
  split; [auto|]. exists Entered. split; [|split].
  - rewrite Ht, phase_after_app, Hph. reflexivity.
  - rewrite (phase_of_started _ _ Htasks). reflexivity.
  - exact Hi'.
Qed.

Lemma initialize_connect_fields (params : SessionParams)
    (isReconnection : bool) (s : state) :
  exists (outcome : option session) (s' : state),
    initialize_connect SecondVersion params isReconnection s
    = Some (outcome, s')
    /\ outcome = live_connect (handshakes s)
    /\ isInitializingSession s' = isInitializingSession s
    /\ reconnectionAttempts s' = reconnectionAttempts s
    /\ exists extra : list event,
         trace s' = trace s ++ LiveConnect params :: extra
         /\ forallb quiet_event extra = true.
Proof.
  fields s.
  unfold Session.initialize_connect, initializeNewSession, read_clock, emit.
  destruct isReconnection; cbn; destruct (live_connect hs); cbn;
    rewrite <- ?app_assoc;
    (eexists; eexists; split; [reflexivity|]; split; [reflexivity|];
     split; [reflexivity|]; split; [reflexivity|]; eexists;
     split; reflexivity).
Qed.

Lemma initialize_connect_throws (params : SessionParams)
    (isReconnection : bool) (s : state) :
  initialize_connect FirstVersion params isReconnection s = None.
Proof. reflexivity. Qed.

Lemma initialize_settle_fields (outcome : option session) (s : state) :
  isInitializingSession (snd (initialize_settle outcome s)) = false
  /\ reconnectionAttempts (snd (initialize_settle outcome s))
     = reconnectionAttempts s
  /\ trace (snd (initialize_settle outcome s))
     = trace s ++ [SessionInitializing false].
Proof. fields s. destruct outcome; repeat split. Qed.

(** Every step of every schedule of the second version keeps the world
    orderly. *)
Lemma orderly_act (a : action) (w : world) :
  orderly w -> orderly (act true a w).
Proof.
  intros Hw. destruct w as [s tasks]. destruct a as [i|index].
  - cbn [Interleaving.act module_state pending].
    assert (Hquiet : forall s', calm s s' -> orderly (mkWorld s' (tasks ++ []))).
    { intros s' Hc. apply (orderly_calm s _ tasks); [exact Hw|exact Hc|].
      apply phase_of_nothing. }
    destruct i; cbn [Interleaving.receive Run.step].
    + apply Hquiet, calm_onerror.
    + unfold onclose_start.
      destruct (isApiKeyError reason).
      { apply Hquiet. fields s. split; [reflexivity|].
        split; [intros _; apply Nat.le_refl|]. eexists. split; reflexivity. }
      assert (Hclosed : orderly
                          (mkWorld (emit (UpdateStatus "Session closed") s)
                             (tasks ++ [])))
        by (apply Hquiet, calm_emit; reflexivity).
      destruct (lastSessionParams s); [|exact Hclosed].
      destruct (Nat.ltb (reconnectionAttempts s) maxReconnectionAttempts);
        [|exact Hclosed].
      pose proof (orderly_reconnecting s s tasks tasks (attempt_start s)
                    Hw (calm_refl s) eq_refl (attempt_start_calm s)) as H.
      destruct (attempt_start s). exact H.
    + apply Hquiet, calm_onmessage_manual.
    + destruct (initialize_enter params false s) as [s'|] eqn:Henter.
      * exact (orderly_entered params false s s' tasks Hw Henter).
      * rewrite app_nil_r. exact Hw.
    + apply Hquiet, calm_close_session.
    + apply Hquiet, calm_new_session.
    + apply Hquiet, calm_trigger.
  - cbn [Interleaving.act module_state pending].
    destruct (tasks !! index) as [t|] eqn:Hindex; [|exact Hw].
    pose proof Hw as (Hatt & ph & Hph & Htasks & Hflag).
    cbn [module_state pending] in *.
    pose proof (phase_of_resumed tasks index t ph Hindex Htasks) as Hres.
    destruct t as [|params isReconnection|outcome isReconnection];
      cbn [Interleaving.resume].
    + (* the timer fired *)
      assert (Hbase : orderly (mkWorld s (delete index tasks))).
      { split; [exact Hatt|]. exists ph. auto. }
      assert (Hretry : let r := attempt_retry s in
                       orderly (mkWorld (fst r) (delete index tasks ++ snd r))).
      { exact (orderly_reconnecting s s _ _ (attempt_retry s) Hbase
                 (calm_refl s) eq_refl (attempt_retry_calm s)). }
      cbv zeta in Hretry. unfold attempt_wake.
      destruct (lastSessionParams s) as [params|].
      * destruct (initialize_enter params true s) as [s'|] eqn:Henter.
        -- exact (orderly_entered params true s s' _ Hbase Henter).
        -- destruct (attempt_retry s). exact Hretry.
      * destruct (attempt_retry s). exact Hretry.
    + (* the settings are there *)
      destruct Hres as [-> Hrest]. unfold initialize_fetched.
      cbn [version_of].
      destruct (initialize_connect_fields params isReconnection s)
        as (outcome & s' & -> & _ & Hi & Ha & extra & Ht & Hq).
      unfold orderly. cbn [module_state pending].
      split; [rewrite Ha; exact Hatt|]. exists Handshaking.
      split; [|split].
      * rewrite Ht, phase_after_app, Hph. cbn [phase_after].
        apply phase_after_quiet, Hq.
      * rewrite (phase_of_started _ _ Hrest). reflexivity.
      * rewrite Hi. exact Hflag.
    + (* the handshake settled *)
      destruct Hres as [-> Hrest]. unfold initialize_returned.
      destruct (initialize_settle_fields outcome s) as (Hi & Ha & Ht).
      assert (Hsettled : orderly
                           (mkWorld (snd (initialize_settle outcome s))
                              (delete index tasks))).
      { unfold orderly. cbn [module_state pending].
        split; [rewrite Ha; exact Hatt|]. exists Idle.
        split; [|split; [exact Hrest|exact Hi]].
        rewrite Ht, phase_after_app, Hph. reflexivity. }
      destruct (initialize_settle outcome s) as [result s'].
      cbn [snd] in *.
      assert (Hquiet : forall s'', calm s' s'' ->
                       orderly (mkWorld s'' (delete index tasks ++ []))).
      { intros s'' Hc.
        apply (orderly_calm s' _ (delete index tasks));
          [exact Hsettled|exact Hc|apply phase_of_nothing]. }
      assert (Hretry : let r := attempt_retry s' in
                       orderly (mkWorld (fst r) (delete index tasks ++ snd r))).
      { exact (orderly_reconnecting s' s' _ _ (attempt_retry s') Hsettled
                 (calm_refl s') eq_refl (attempt_retry_calm s')). }
      cbv zeta in Hretry.
      destruct isReconnection.
      * destruct result as [| |session|];
          try (destruct (attempt_retry s'); exact Hretry).
        destruct (geminiSessionRef s') as [current|];
          [|destruct (attempt_retry s'); exact Hretry].
        apply Hquiet. unfold reconnection_succeeded.
        apply (calm_trans _ (set_reconnectionAttempts 0
                               (set_geminiSessionRef (Some (Some session))
                                  s'))).
        -- clear. fields s'. split; [reflexivity|].
           split; [intros _; apply Nat.le_0_l|].
           exists []. rewrite app_nil_r. split; reflexivity.
        -- generalize (set_reconnectionAttempts 0
                         (set_geminiSessionRef (Some (Some session)) s')).
           intros s1.
           destruct (SessionProofs.sendReconnectionContext_cases s1)
             as [-> |(current' & message & ->)];
             [apply calm_refl|apply calm_emit; reflexivity].
      * destruct result as [| |session|]; try (apply Hquiet, calm_refl).
        apply Hquiet. clear. fields s'. calm_by_computation.
Qed.

Lemma orderly_schedule (actions : list action) :
  forall w : world, orderly w -> orderly (schedule true actions w).
Proof.
  unfold Interleaving.schedule.
  induction actions as [|a actions IH]; intros w Hw; [exact Hw|].
  cbn [fold_left]. apply IH, orderly_act, Hw.
Qed.

Lemma orderly_booted : orderly booted.
Proof.
  split; [cbn; lia|]. exists Idle. repeat split.
Qed.

(** X28: in every interleaving of inputs and resumed calls of the second
    version, the count of reconnection attempts stays within
    [maxReconnectionAttempts], and at most one initialization is under
    way: [isInitializingSession] is set exactly while one call of
    [initializeGeminiSession] is suspended, and never two.  In the trace
    the initializations follow each other: after a 'session-initializing'
    [true] comes exactly one handshake and then 'session-initializing'
    [false], before the next one begins; no two handshakes are in flight
    at the same time. *)
Theorem interleavings_are_orderly (actions : list action) :
  let w := schedule true actions booted in
  (reconnectionAttempts (module_state w) <= maxReconnectionAttempts)%nat
  /\ length (List.filter initializing (pending w))
     = (if isInitializingSession (module_state w) then 1 else 0)%nat
  /\ exists ph : phase,
       phase_after Idle (trace (module_state w)) = Some ph
       /\ phase_of (pending w) = Some ph
       /\ isInitializingSession (module_state w) = busy ph.
Proof.
  cbv zeta.
  destruct (orderly_schedule actions booted orderly_booted)
    as (Hatt & ph & Hph & Htasks & Hflag).
  split; [exact Hatt|]. split; [|exists ph; auto].
  rewrite Hflag. revert Htasks. unfold phase_of.
  destruct (List.filter initializing
              (pending (schedule true actions booted))) as [|t [|t' l]];
    [intros [= <-]; reflexivity| |destruct t; discriminate].
  destruct t; [discriminate| |]; intros [= <-]; reflexivity.
Qed.

(** *** The schedule without interleaving *)

Lemma eager_idle (manual : bool) (fuel : nat) (s : state) :
  eager manual fuel (mkWorld s []) = mkWorld s [].
Proof. destruct fuel; reflexivity. Qed.

Lemma eager_one (manual : bool) (fuel : nat) (s : state) (t : task) :
  eager manual (S fuel) (mkWorld s [t])
  = eager manual fuel (world_of (resume manual t s)).
Proof.
  cbn [Interleaving.eager pending Interleaving.act module_state].
  change ([t] !! 0%nat) with (Some t).
  cbv iota beta.
  destruct (resume manual t s) as [s' tasks]. reflexivity.
Qed.

Lemma attempts_begin (s : state) :
  reconnectionAttempts (reconnection_begin s) = S (reconnectionAttempts s).
Proof. fields s. reflexivity. Qed.

Lemma attempts_entered (params : SessionParams) (s s1 : state) :
  initialize_enter params true s = Some s1 ->
  reconnectionAttempts s1 = reconnectionAttempts s.
Proof.
  unfold initialize_enter. fields s.
  destruct init; [discriminate|]. intros [= <-]. reflexivity.
Qed.

Lemma attempts_connected (version : Version) (params : SessionParams)
    (isReconnection : bool) (s s' : state) (outcome : option session) :
  initialize_connect version params isReconnection s = Some (outcome, s') ->
  reconnectionAttempts s' = reconnectionAttempts s.
Proof.
  unfold Session.initialize_connect, initializeNewSession, read_clock, emit.
  fields s. destruct version; cbn; [discriminate|].
  destruct isReconnection; cbn; destruct (live_connect hs); cbn;
    intros [= _ <-]; reflexivity.
Qed.

(** An attempt from its timer on, and the attempts that follow it. *)
Lemma eager_attempts (manual : bool) (budget : nat) :
  forall s : state,
    (maxReconnectionAttempts - reconnectionAttempts s <= budget)%nat ->
    (exists fuel : nat,
       eager manual fuel (world_of (attempt_start s))
       = mkWorld
           (snd (attemptReconnection Date_now live_connect
                   (version_of manual) s)) [])
    /\ ((reconnectionAttempts s <= maxReconnectionAttempts)%nat ->
        (0 < reconnectionAttempts s)%nat ->
        exists fuel : nat,
          eager manual fuel (mkWorld s [Sleeping])
          = mkWorld
              (snd (attemptReconnection_resume Date_now live_connect
                      (version_of manual) s))
              []).
Proof.
  induction budget as [budget IH] using lt_wf_ind. intros s Hbudget.
  assert (Hretry : forall s' : state,
             reconnectionAttempts s' = reconnectionAttempts s ->
             (0 < reconnectionAttempts s)%nat ->
             exists fuel : nat,
               eager manual fuel (world_of (attempt_retry s'))
               = mkWorld
                   (snd (if Nat.ltb (reconnectionAttempts s')
                              maxReconnectionAttempts
                         then attemptReconnection Date_now live_connect
                                (version_of manual) s'
                         else (false,
                               emit (UpdateStatus "Session closed") s')))
                   []).
  { intros s' Hsame Hpos. unfold attempt_retry.
    destruct (Nat.ltb (reconnectionAttempts s') maxReconnectionAttempts)
      eqn:Hmore.
    - apply Nat.ltb_lt in Hmore.
      rewrite (SessionProofs.attemptReconnection_unfold
                 Date_now live_connect (version_of manual) s').
      unfold attempt_start.
      destruct (reconnection_refused s') eqn:Hguard.
      + exists 0%nat. reflexivity.
      + destruct (IH (maxReconnectionAttempts
                      - reconnectionAttempts (reconnection_begin s'))%nat
                    ltac:(rewrite attempts_begin; lia)
                    (reconnection_begin s') (Nat.le_refl _)) as [_ Hnext].
        destruct Hnext as [fuel Hfuel].
        * rewrite attempts_begin. lia.
        * rewrite attempts_begin. lia.
        * exists fuel. exact Hfuel.
    - exists 0%nat. reflexivity. }
  split.
  - rewrite (SessionProofs.attemptReconnection_unfold
               Date_now live_connect (version_of manual) s).
    unfold attempt_start.
    destruct (reconnection_refused s) eqn:Hguard; [exists 0%nat; reflexivity|].
    assert (Hlt : (reconnectionAttempts s < maxReconnectionAttempts)%nat).
    { unfold reconnection_refused in Hguard.
      destruct (lastSessionParams s); [|discriminate].
      apply Nat.leb_gt in Hguard. exact Hguard. }
    destruct (IH (maxReconnectionAttempts
                  - reconnectionAttempts (reconnection_begin s))%nat
                ltac:(rewrite attempts_begin; lia)
                (reconnection_begin s) (Nat.le_refl _)) as [_ Hnext].
    destruct Hnext as [fuel Hfuel].
    + rewrite attempts_begin. lia.
    + rewrite attempts_begin. lia.
    + exists fuel. exact Hfuel.
  - intros Hle Hpos.
    unfold attemptReconnection_resume, reconnection_try,
      initializeGeminiSession.
    destruct (lastSessionParams s) as [params|] eqn:Hp.
    + destruct (initialize_enter params true s) as [s1|] eqn:Henter.
      * (* the initialization runs *)
        unfold world_of.
        pose proof (attempts_entered params s s1 Henter) as Hsame1.
        destruct (initialize_connect (version_of manual) params true s1)
          as [[outcome s2]|] eqn:Hconnect.
        -- destruct (initialize_settle outcome s2) as [result s3] eqn:Hsettle.
           assert (Hsame : reconnectionAttempts s3 = reconnectionAttempts s).
           { destruct (initialize_settle_fields outcome s2) as (_ & A3 & _).
             rewrite Hsettle in A3. cbn [snd] in A3.
             rewrite A3, (attempts_connected _ _ _ _ _ _ Hconnect).
             exact Hsame1. }
           assert (Hsteps : forall fuel,
                      eager manual (S (S (S fuel))) (mkWorld s [Sleeping])
                      = eager manual fuel
                          (world_of (initialize_returned outcome true s2))).
           { intros fuel. rewrite eager_one. cbn [Interleaving.resume].
             unfold attempt_wake. rewrite Hp, Henter.
             unfold world_of; cbn [fst snd].
             rewrite eager_one. cbn [Interleaving.resume].
             unfold initialize_fetched. rewrite Hconnect.
             unfold world_of; cbn [fst snd].
             rewrite eager_one. reflexivity. }
           unfold initialize_returned in Hsteps. rewrite Hsettle in Hsteps.
           destruct result as [| |session|].
           ++ destruct (Hretry s3 Hsame Hpos) as [fuel Hfuel].
              exists (S (S (S fuel))). rewrite Hsteps. exact Hfuel.
           ++ destruct (Hretry s3 Hsame Hpos) as [fuel Hfuel].
              exists (S (S (S fuel))). rewrite Hsteps. exact Hfuel.
           ++ destruct (geminiSessionRef s3) as [current|].
              ** exists 3%nat. rewrite Hsteps. reflexivity.
              ** destruct (Hretry s3 Hsame Hpos) as [fuel Hfuel].
                 exists (S (S (S fuel))). rewrite Hsteps. exact Hfuel.
           ++ destruct (Hretry s3 Hsame Hpos) as [fuel Hfuel].
              exists (S (S (S fuel))). rewrite Hsteps. exact Hfuel.
        -- (* the initialization throws *)
           destruct (Hretry s1 Hsame1 Hpos) as [fuel Hfuel].
           exists (S (S fuel)). rewrite eager_one. cbn [Interleaving.resume].
           unfold attempt_wake. rewrite Hp, Henter.
           unfold world_of; cbn [fst snd].
           rewrite eager_one. cbn [Interleaving.resume].
           unfold initialize_fetched. rewrite Hconnect. exact Hfuel.
      * (* the initialization is refused *)
        destruct (Hretry s eq_refl Hpos) as [fuel Hfuel].
        exists (S fuel). rewrite eager_one. cbn [Interleaving.resume].
        unfold attempt_wake. rewrite Hp, Henter. exact Hfuel.
    + destruct (Hretry s eq_refl Hpos) as [fuel Hfuel].
      exists (S fuel). rewrite eager_one. cbn [Interleaving.resume].
      unfold attempt_wake. rewrite Hp. exact Hfuel.
Qed.

(** The whole calls of the session model are the small steps taken
    without interleaving: when an input is received with nothing pending
    and every call it suspends resumes at once, the tasks run out and the
    module is in the state that the handler run to its end leaves. *)
Lemma eager_schedule_is_the_whole_call (manual : bool) (i : input)
    (s : state) :
  exists fuel : nat,
    eager manual fuel (act manual (Receive i) (mkWorld s []))
    = mkWorld (step manual i s) [].
Proof.
  cbn [Interleaving.act module_state pending app].
  destruct i; cbn [Interleaving.receive Run.step];
    try (exists 0%nat; reflexivity).
  - (* onclose *)
    unfold onclose_start, onclose.
    destruct (isApiKeyError reason); [exists 0%nat; reflexivity|].
    destruct (lastSessionParams s); [|exists 0%nat; reflexivity].
    destruct (Nat.ltb (reconnectionAttempts s) maxReconnectionAttempts);
      [|exists 0%nat; reflexivity].
    destruct (eager_attempts manual _ s (Nat.le_refl _)) as [[fuel H] _].
    exists fuel. destruct (attempt_start s). exact H.
  - (* initialize-gemini *)
    unfold ipc_initialize_gemini, initializeGeminiSession.
    destruct (initialize_enter params false s) as [s1|];
      [|exists 0%nat; reflexivity].
    destruct (initialize_connect (version_of manual) params false s1)
      as [[outcome s2]|] eqn:Hconnect.
    + exists 2%nat. rewrite eager_one. cbn [Interleaving.resume].
      unfold initialize_fetched. rewrite Hconnect.
      unfold world_of; cbn [fst snd].
      rewrite eager_one. cbn [Interleaving.resume].
      unfold initialize_returned.
      destruct (initialize_settle outcome s2) as [[| |session|] s3];
        reflexivity.
    + exists 1%nat. rewrite eager_one. cbn [Interleaving.resume].
      unfold initialize_fetched. rewrite Hconnect. reflexivity.
Qed.

(** X30: ['close-session'] does not call off an initialization that is
    under way.  It clears the stored parameters, which stops the attempts
    that are still asleep, but a reconnection of the second version that
    is past its timer goes on with the parameters it was called with:
    resumed after the close, it issues its handshake, and when the
    handshake is accepted it stores the new session in the ref that the
    close had emptied and resets the count, with no parameters stored. *)
Theorem close_session_keeps_initialization_going
    (params : SessionParams) (session_ : session) (s : state) :
  geminiSessionRef s <> None ->
  let closed := ipc_close_session s in
  let fetched := resume true (Fetching params true) closed in
  let returned := resume true (Connecting (Some session_) true) closed in
  geminiSessionRef closed = Some None
  /\ lastSessionParams closed = None
  /\ handshakes_in (trace (fst fetched))
     = handshakes_in (trace s) ++ [params]
  /\ snd fetched = [Connecting (live_connect (handshakes s)) true]
  /\ geminiSessionRef (fst returned) = Some (Some session_)
  /\ lastSessionParams (fst returned) = None
  /\ reconnectionAttempts (fst returned) = 0%nat
  /\ snd returned = [].
Proof.
  exact (SessionProofs.started_attempt_survives_close
           Date_now live_connect params session_ s).
Qed.

End WithEnvironment.

Lemma close_session_keeps_initialization_going_witness :
  let closed := ipc_close_session Examples.talked in
  let returned :=
    Interleaving.resume Examples.clock0 Examples.accepting true
      (Connecting (Some 5%nat) true) closed in
  geminiSessionRef closed = Some None
  /\ geminiSessionRef (fst returned) = Some (Some 5%nat)
  /\ lastSessionParams (fst returned) = None.
Proof.
  destruct (close_session_keeps_initialization_going
              Examples.clock0 Examples.accepting Examples.params0 5%nat
              Examples.talked ltac:(discriminate))
    as (Hclosed & _ & _ & _ & Href & Hparams & _).
  split; [exact Hclosed|]. split; [exact Href|exact Hparams].
Defined.

End InterleavingProofs.
